(** * Cohort construction and field resolution of movr-datahub-analytics

    A shallow embedding of [movr/cohorts/manager.py] ([FieldResolver],
    [CohortManager]) and [movr/cohorts/validation.py]
    ([EnrollmentValidator]), and the properties of these the
    specification states.

    Modelling conventions.
    - A pandas cell is a [value]: a null ([None]/[NaN]), a Python [bool],
      a number or a string.  Python's [bool] is a subclass of [int], so the
      comparisons [==], [>=], [<=] read [True] as 1 and [False] as 0.
    - A [DataFrame] is its list of column labels and its list of rows; a row
      maps a label to a cell, and a label the row does not carry reads null
      (what a left join leaves in the right-hand columns of an unmatched row).
    - An exception is an [error]; a fallible computation returns a [result].
    - Python [dict]s held by the objects are stdpp [gmap]s; Python [set]s are
      [gset]s.
    - Patient identifiers are cells, of one kind throughout a store (the
      strings of the specification); joins, sets and [drop_duplicates]
      compare them structurally (a null identifier matches a null one, as in
      a pandas merge).
    - Columns are read with object-dtype semantics, cell by cell; the nulls
      are [None]/[NaN], not the three-valued [pd.NA].  A typed (numeric)
      column behaves otherwise in three places, which the embedding does not
      follow: [==] against a tuple whose length is not 2 is compared by
      position by numpy, [isin] does not match a [NaN] cell with a null of
      the list, and a left join that leaves cells missing turns an integer
      column into floats.  The statements that depend on one of these are
      stated for filter values and cohorts where the two readings agree
      ([pairs_only], [null_free], [covered]).
    - The clock, the parsing of dates and floating-point arithmetic are
      parameters of the definitions that use them. *)

From stdpp Require Import base option list strings gmap sets fin_maps fin_sets.
From Stdlib Require Import ZArith Ascii String.

Local Open Scope string_scope.
Local Open Scope list_scope.

(** ** Cells *)

Inductive value :=
| VNull
| VBool (b : bool)
| VNum (z : Z)
| VStr (s : string).

#[global] Instance value_eq_dec : EqDecision value.
Proof. solve_decision. Defined.

#[global] Instance value_inhabited : Inhabited value := populate VNull.

Definition value_to_sum (v : value) : unit + bool + Z + string :=
  match v with
  | VNull => inl (inl (inl tt))
  | VBool b => inl (inl (inr b))
  | VNum z => inl (inr z)
  | VStr s => inr s
  end.

Definition value_of_sum (x : unit + bool + Z + string) : value :=
  match x with
  | inl (inl (inl _)) => VNull
  | inl (inl (inr b)) => VBool b
  | inl (inr z) => VNum z
  | inr s => VStr s
  end.

#[global] Instance value_countable : Countable value.
Proof.
  apply (inj_countable' value_to_sum value_of_sum).
  by intros [].
Defined.

(** ** Exceptions *)

Inductive error :=
| ValueError (msg : string)
| KeyError (key : string)
| TypeError
| IndexingError.

Inductive result (A : Type) :=
| Ok (a : A)
| Raise (e : error).

Arguments Ok {A} a.
Arguments Raise {A} e.

#[global] Instance result_ret : MRet result := λ A, Ok.

#[global] Instance result_bind : MBind result := λ A B k r,
  match r with
  | Ok a => k a
  | Raise e => Raise e
  end.

#[global] Instance result_fmap : FMap result := λ A B f r,
  match r with
  | Ok a => Ok (f a)
  | Raise e => Raise e
  end.

Definition is_ok {A} (r : result A) : Prop :=
  match r with Ok _ => True | Raise _ => False end.

(** ** Tables *)

Definition row := list (string * value).

Record DataFrame := {
  columns : list string;
  rows : list row;
}.

Fixpoint assoc {A} (k : string) (l : list (string * A)) : option A :=
  match l with
  | [] => None
  | (k', a) :: l' => if decide (k' = k) then Some a else assoc k l'
  end.

(** [df[c]] at one row. *)
Definition cell (r : row) (c : string) : value :=
  default VNull (assoc c r).

Definition has_column (df : DataFrame) (c : string) : bool :=
  bool_decide (c ∈ columns df).

(** [df.empty]: some axis has length zero. *)
Definition empty (df : DataFrame) : bool :=
  match columns df, rows df with
  | [], _ | _, [] => true
  | _, _ => false
  end.

(** [df[c]], a [KeyError] when the table has no such column. *)
Definition column_values (df : DataFrame) (c : string) : result (list value) :=
  if has_column df c then Ok ((λ r, cell r c) <$> rows df) else Raise (KeyError c).

(** ** Python comparisons of cells, the way pandas applies them elementwise

    A null cell, or a null scalar, makes [==], [>=] and [<=] false and [!=]
    true; an ordering between a string and a number raises. *)

Definition as_number (v : value) : option Z :=
  match v with
  | VBool b => Some (if b then 1 else 0)%Z
  | VNum z => Some z
  | _ => None
  end.

Definition py_eq (x y : value) : bool :=
  match x, y with
  | VNull, _ | _, VNull => false
  | VStr s, VStr t => bool_decide (s = t)
  | VStr _, _ | _, VStr _ => false
  | _, _ => bool_decide (as_number x = as_number y)
  end.

Definition py_ne (x y : value) : bool := negb (py_eq x y).

Fixpoint string_leb (s t : string) : bool :=
  match s, t with
  | EmptyString, _ => true
  | String _ _, EmptyString => false
  | String a s', String b t' =>
      if (N_of_ascii a <? N_of_ascii b)%N then true
      else if (N_of_ascii b <? N_of_ascii a)%N then false
      else string_leb s' t'
  end.

Definition py_le (x y : value) : result bool :=
  match x, y with
  | VNull, _ | _, VNull => Ok false
  | VStr s, VStr t => Ok (string_leb s t)
  | VStr _, _ | _, VStr _ => Raise TypeError
  | _, _ =>
      match as_number x, as_number y with
      | Some a, Some b => Ok (a <=? b)%Z
      | _, _ => Raise TypeError
      end
  end.

Definition py_ge (x y : value) : result bool := py_le y x.

(** [Series.isin]: membership by equality, a null matching a null. *)
Definition py_isin (x : value) (l : list value) : bool :=
  existsb (λ y, match x, y with VNull, VNull => true | _, _ => py_eq x y end) l.

(** ** Boolean indexing *)

(** [df[mask]] for a mask computed row by row; the first row whose test
    raises aborts the selection. *)
Fixpoint select_rows (p : row → result bool) (rs : list row) : result (list row) :=
  match rs with
  | [] => Ok []
  | r :: rs' =>
      b ← p r ;
      rest ← select_rows p rs' ;
      Ok (if b : bool then r :: rest else rest)
  end.

Definition select (df : DataFrame) (p : row → result bool) : result DataFrame :=
  rs ← select_rows p (rows df) ;
  Ok {| columns := columns df; rows := rs |}.

(** [df[mask]] for a mask handed over as a sequence of booleans: pandas
    refuses a mask whose length is not the number of rows (a boolean Series
    that does not align with an [IndexingError], which is the one kept here;
    a list or an array with a [ValueError]). *)
Fixpoint mask_rows (rs : list row) (mask : list bool) : result (list row) :=
  match rs, mask with
  | [], [] => Ok []
  | r :: rs', b :: mask' =>
      rest ← mask_rows rs' mask' ;
      Ok (if b then r :: rest else rest)
  | _, _ => Raise IndexingError
  end.

(** ** FieldResolver *)

Module FieldResolver.

(** [DEFAULT_MAPPINGS]; ["age"] is present with value [None]. *)
Definition DEFAULT_MAPPINGS : list (string * option string) :=
  [ ("disease", Some "dstype");
    ("registry", Some "usndr");
    ("gender", Some "gender");
    ("birth_date", Some "dob");
    ("age", None);
    ("patient_id", Some "FACPATID");
    ("enrollment_date", Some "enroldt");
    ("encounter_date", Some "encntdt") ].

(** The [fallbacks] table of [resolve]. *)
Definition fallbacks : list (string * list string) :=
  [ ("disease", ["dstype"; "DISEASE"; "DIAGNOSIS"]);
    ("registry", ["usndr"; "REGISTRY"; "DATA_SOURCE"]);
    ("gender", ["gender"; "sex"; "GENDER"; "SEX"]);
    ("age", ["AGE"; "age"; "AGE_YEARS"]) ].

(** The resolver object: [_mappings], as [_load_mappings] left it (empty
    when no mapping file was found).  A canonical name can be mapped to
    [None]. *)
Record t := { _mappings : gmap string (option string) }.

Definition lower_ascii (a : ascii) : ascii :=
  let n := N_of_ascii a in
  if ((65 <=? n) && (n <=? 90))%N then ascii_of_N (n + 32) else a.

(** [str.lower] on ASCII text. *)
Fixpoint lower (s : string) : string :=
  match s with
  | EmptyString => EmptyString
  | String a s' => String (lower_ascii a) (lower s')
  end.

(** Truthiness of an optional string: [None] and [""] are falsy. *)
Definition truthy (o : option string) : option string :=
  match o with
  | Some "" => None
  | _ => o
  end.

(** [self._mappings.get(c) or self.DEFAULT_MAPPINGS.get(c)] *)
Definition mapped (R : t) (canonical_name : string) : option string :=
  match truthy (mjoin (_mappings R !! canonical_name)) with
  | Some m => Some m
  | None => mjoin (assoc canonical_name DEFAULT_MAPPINGS)
  end.

(** The first element of [l] that passes [p]: a [for ... if ...: return]. *)
Fixpoint first {A} (p : A → bool) (l : list A) : option A :=
  match l with
  | [] => None
  | x :: l' => if p x then Some x else first p l'
  end.

Definition resolve (R : t) (canonical_name : string) (df : DataFrame) : option string :=
  let mapped := mapped R canonical_name in
  if from_option (has_column df) false (truthy mapped) then mapped
  else
    match first (λ col, bool_decide (lower col = lower canonical_name)) (columns df) with
    | Some col => Some col
    | None => first (has_column df) (default [] (assoc canonical_name fallbacks))
    end.

(** The three tiers in the words of the specification.  Tier 1 uses the
    configured name, or the built-in default when nothing usable is
    configured. *)
Definition configured (R : t) (canonical_name : string) : option string :=
  match truthy (mjoin (_mappings R !! canonical_name)) with
  | Some m => Some m
  | None => truthy (mjoin (assoc canonical_name DEFAULT_MAPPINGS))
  end.

Definition synonyms (canonical_name : string) : list string :=
  default [] (assoc canonical_name fallbacks).

Definition same_name (canonical_name col : string) : Prop :=
  lower col = lower canonical_name.

(** [x] is the first element of [l] that satisfies [P]. *)
Definition first_in {A} (P : A → Prop) (l : list A) (x : A) : Prop :=
  ∃ before after, l = before ++ x :: after ∧ P x ∧ ∀ y, y ∈ before → ¬ P y.

Definition tier1_fails (R : t) (canonical_name : string) (df : DataFrame) : Prop :=
  ∀ m, configured R canonical_name = Some m → m ∉ columns df.

Definition tier2_fails (canonical_name : string) (df : DataFrame) : Prop :=
  ∀ col, col ∈ columns df → ¬ same_name canonical_name col.

Inductive resolves (R : t) (canonical_name : string) (df : DataFrame)
    : option string → Prop :=
| resolves_mapped m :
    configured R canonical_name = Some m → m ∈ columns df →
    resolves R canonical_name df (Some m)
| resolves_same_name col :
    tier1_fails R canonical_name df →
    first_in (same_name canonical_name) (columns df) col →
    resolves R canonical_name df (Some col)
| resolves_synonym s :
    tier1_fails R canonical_name df →
    tier2_fails canonical_name df →
    first_in (λ s, s ∈ columns df) (synonyms canonical_name) s →
    resolves R canonical_name df (Some s)
| resolves_nothing :
    tier1_fails R canonical_name df →
    tier2_fails canonical_name df →
    (∀ s, s ∈ synonyms canonical_name → s ∉ columns df) →
    resolves R canonical_name df None.

Definition is_derived (canonical_name : string) : bool :=
  bool_decide (canonical_name = "age").

End FieldResolver.

(** ** EnrollmentValidator *)

Module EnrollmentValidator.

Definition default_required_forms : list string :=
  ["demographics_maindata"; "diagnosis_maindata"; "encounter_maindata"].

(** [set(df["FACPATID"].unique())] *)
Definition patients_of (df : DataFrame) : result (gset value) :=
  ids ← column_values df "FACPATID";
  Ok (list_to_set ids).

(** The loop of [get_enrolled_patients] that fills [patient_sets]; an
    absent form is logged and skipped. *)
Fixpoint collect_patient_sets (tables : gmap string DataFrame)
    (required_forms : list string) : result (list (gset value)) :=
  match required_forms with
  | [] => Ok []
  | form_name :: rest =>
      match tables !! form_name with
      | None => collect_patient_sets tables rest
      | Some df =>
          patients ← patients_of df;
          sets ← collect_patient_sets tables rest;
          Ok (patients :: sets)
      end
  end.

Definition get_enrolled_patients (tables : gmap string DataFrame)
    (required_forms : option (list string)) : result (list value) :=
  let required_forms := default default_required_forms required_forms in
  patient_sets ← collect_patient_sets tables required_forms;
  match patient_sets with
  | [] => Raise (ValueError "No required forms found in tables")
  | s :: sets => Ok (elements (foldl (∩) s sets))
  end.

(** The loop of [validate_enrollment] that fills the [form_patients] dict;
    an absent form gets the empty set. *)
Fixpoint collect_form_patients (tables : gmap string DataFrame)
    (required_forms : list string) (form_patients : gmap string (gset value))
    : result (gmap string (gset value)) :=
  match required_forms with
  | [] => Ok form_patients
  | form_name :: rest =>
      match tables !! form_name with
      | Some df =>
          patients ← patients_of df;
          collect_form_patients tables rest (<[form_name := patients]> form_patients)
      | None =>
          collect_form_patients tables rest (<[form_name := ∅]> form_patients)
      end
  end.

Record report := {
  enrolled_count : nat;
  total_unique_patients : nat;
  enrolled_patients : list value;
  form_counts : gmap string nat;
  missing_by_form : gmap string nat;
}.

(** [set.intersection] and [set.union] applied to the unpacked list of
    sets; the source guards both with [if form_patients] against the
    empty argument list. *)
Definition set_intersection (sets : list (gset value)) : gset value :=
  match sets with
  | [] => ∅
  | s :: sets' => foldl (∩) s sets'
  end.

Definition set_union (sets : list (gset value)) : gset value :=
  match sets with
  | [] => ∅
  | s :: sets' => foldl (∪) s sets'
  end.

(** The part of [validate_enrollment] after the collecting loop. *)
Definition build_report (form_patients : gmap string (gset value)) : report :=
  let values := (map_to_list form_patients).*2 in
  let enrolled := set_intersection values in
  let all_patients := set_union values in
  let missing : gmap string (list value) :=
    (λ patients, elements (all_patients ∖ patients)) <$> form_patients in
  {| enrolled_count := size enrolled;
     total_unique_patients := size all_patients;
     enrolled_patients := elements enrolled;
     form_counts := (λ patients : gset value, size patients) <$> form_patients;
     missing_by_form := (λ l : list value, List.length l) <$> missing |}.

Definition validate_enrollment (tables : gmap string DataFrame)
    (required_forms : option (list string)) : result report :=
  let required_forms := default default_required_forms required_forms in
  form_patients ← collect_form_patients tables required_forms ∅;
  Ok (build_report form_patients).

(** The per-form patient sets in the words of the specification. *)
Definition ids_of (df : DataFrame) : gset value :=
  list_to_set ((λ r, cell r "FACPATID") <$> rows df).

Definition form_set (tables : gmap string DataFrame) (form_name : string) : gset value :=
  match tables !! form_name with
  | Some df => ids_of df
  | None => ∅
  end.

Definition universe (tables : gmap string DataFrame) (forms : list string) : gset value :=
  ⋃ (form_set tables <$> forms).

Definition in_every_form (tables : gmap string DataFrame) (forms : list string)
    (p : value) : Prop :=
  Forall (λ form_name, p ∈ form_set tables form_name) forms.

#[global] Instance in_every_form_dec tables forms p :
  Decision (in_every_form tables forms p).
Proof. unfold in_every_form. apply _. Defined.

(** The patients of the universe that are in every form. *)
Definition enrolled_set (tables : gmap string DataFrame) (forms : list string)
    : gset value :=
  filter (in_every_form tables forms) (universe tables forms).

(** The report of a validation over no form at all. *)
Definition empty_report : report :=
  {| enrolled_count := 0;
     total_unique_patients := 0;
     enrolled_patients := [];
     form_counts := ∅;
     missing_by_form := ∅ |}.

(** Every form of [forms] that the store holds is keyed by patient. *)
Definition patient_keyed (tables : gmap string DataFrame) (forms : list string) : Prop :=
  ∀ form_name df,
    form_name ∈ forms → tables !! form_name = Some df → has_column df "FACPATID" = true.

End EnrollmentValidator.

(** A table [df'] cut out of [df]: same columns, rows among those of [df]. *)
Definition sub_frame (df' df : DataFrame) : Prop :=
  columns df' = columns df ∧ ∀ r, r ∈ rows df' → r ∈ rows df.

(** Two tables with the same columns and the same rows, whatever the order
    and the repetitions. *)
Definition frame_equiv (df df' : DataFrame) : Prop :=
  columns df = columns df' ∧ ∀ r, r ∈ rows df ↔ r ∈ rows df'.

Definition frames_agree (r r' : result DataFrame) : Prop :=
  match r, r' with
  | Ok df, Ok df' => frame_equiv df df'
  | Raise _, Raise _ => True
  | _, _ => False
  end.

(** ** Filter arguments *)

(** The shapes [filter_cohort] tells apart with [isinstance]. *)
Inductive filter_value :=
| FDict (d : list (string * value))
| FTuple (t : list value)
| FList (l : list value)
| FScalar (v : value).

(** A Python [dict] literal with string keys, as the sequence [items()]
    walks: a key written twice keeps its first position and its last
    value. *)
Fixpoint dict_set {A} (k : string) (a : A) (d : list (string * A)) : list (string * A) :=
  match d with
  | [] => [(k, a)]
  | (k', a') :: d' => if decide (k' = k) then (k, a) :: d' else (k', a') :: dict_set k a d'
  end.

Definition py_dict {A} (literal : list (string * A)) : list (string * A) :=
  foldl (λ d kv, dict_set kv.1 kv.2 d) [] literal.

(** ** CohortManager *)

Module CohortManager.

(** A cohort is the one-column table [FACPATID]: both [create_base_cohort]
    and [filter_cohort] store nothing else.  It is kept as the list of that
    column's cells, in row order. *)
Definition cohort := list value.

Definition cohort_frame (c : cohort) : DataFrame :=
  {| columns := ["FACPATID"]; rows := (λ p, [("FACPATID", p)]) <$> c |}.

Definition patient_set (c : cohort) : gset value := list_to_set c.

(** The manager object.  [_demographics_with_age] is what
    [_prepare_demographics] left at construction: the demographics form
    with its [AGE] column, or [None] when the store has no demographics
    form. *)
Record t := {
  tables : gmap string DataFrame;
  _cohorts : gmap string cohort;
  field_resolver : FieldResolver.t;
  _demographics_with_age : option DataFrame;
}.

Definition _get_demographics (m : t) : DataFrame :=
  match _demographics_with_age m with
  | Some df => df
  | None => default {| columns := []; rows := [] |} (tables m !! "demographics_maindata")
  end.

(** [if resolved:] and [if not actual_field:] test a returned name for
    truthiness, so an empty name counts as no name. *)
Definition _resolve_filter_field (R : FieldResolver.t) (field : string)
    (df : DataFrame) : option string :=
  if has_column df field then Some field
  else FieldResolver.truthy (FieldResolver.resolve R field df).

(** [value is True or value == "usndr" or value == "USNDR"] *)
Definition selects_usndr (value : filter_value) : bool :=
  match value with
  | FScalar (VBool true) => true
  | FScalar (VStr s) => bool_decide (s = "usndr") || bool_decide (s = "USNDR")
  | _ => false
  end.

Definition _apply_registry_filter (R : FieldResolver.t) (df : DataFrame)
    (value : filter_value) : result DataFrame :=
  match FieldResolver.truthy (_resolve_filter_field R "registry" df) with
  | None => Ok df
  | Some registry_col =>
      if selects_usndr value
      then select df (λ r, Ok (py_eq (cell r registry_col) (VBool true)))
      else select df (λ r, Ok (py_ne (cell r registry_col) (VBool true)))
  end.

(** [source.merge(demographics, on="FACPATID", how="left")] for a
    one-column [source]: every identifier, in order, with each
    demographics row of that identifier, or alone when it has none. *)
Definition merge_row (p : value) (r : row) : row :=
  ("FACPATID", p) :: filter (λ kv, kv.1 ≠ "FACPATID") r.

Definition matching_rows (demographics : DataFrame) (p : value) : list row :=
  filter (λ r, cell r "FACPATID" = p) (rows demographics).

Definition merge_rows (demographics : DataFrame) (p : value) : list row :=
  match matching_rows demographics p with
  | [] => [ [("FACPATID", p)] ]
  | ms => merge_row p <$> ms
  end.

Definition merge (source : cohort) (demographics : DataFrame) : result DataFrame :=
  if has_column demographics "FACPATID" then
    Ok {| columns := "FACPATID" :: filter (λ c, c ≠ "FACPATID") (columns demographics);
          rows := source ≫= merge_rows demographics |}
  else Raise (KeyError "FACPATID").

(** The branches on the type of [value], for a resolved column. *)
Definition apply_value_filter (cohort : DataFrame) (actual_field : string)
    (value : filter_value) : result DataFrame :=
  match value with
  | FDict d =>
      cohort ← match assoc "min" d with
               | Some lo => select cohort (λ r, py_ge (cell r actual_field) lo)
               | None => Ok cohort
               end;
      match assoc "max" d with
      | Some hi => select cohort (λ r, py_le (cell r actual_field) hi)
      | None => Ok cohort
      end
  | FTuple [lo; hi] =>
      select cohort (λ r,
        ge ← py_ge (cell r actual_field) lo;
        le ← py_le (cell r actual_field) hi;
        Ok (ge && le))
  | FList l => select cohort (λ r, Ok (py_isin (cell r actual_field) l))
  | FTuple _ =>
      (* [==] against a tuple of another length, on an object column: no
         cell is a tuple *)
      select cohort (λ r, Ok false)
  | FScalar v => select cohort (λ r, Ok (py_eq (cell r actual_field) v))
  end.

(** One turn of the loop over [filters.items()]. *)
Definition apply_filter (R : FieldResolver.t) (cohort : DataFrame)
    (item : string * filter_value) : result DataFrame :=
  let '(field, value) := item in
  if decide (field = "registry") then _apply_registry_filter R cohort value
  else
    match FieldResolver.truthy (_resolve_filter_field R field cohort) with
    | None => Ok cohort
    | Some actual_field => apply_value_filter cohort actual_field value
    end.

Fixpoint apply_filters (R : FieldResolver.t) (cohort : DataFrame)
    (items : list (string * filter_value)) : result DataFrame :=
  match items with
  | [] => Ok cohort
  | item :: items' =>
      cohort ← apply_filter R cohort item;
      apply_filters R cohort items'
  end.

(** [cohort[custom_filter(cohort)]] *)
Definition apply_custom (cohort : DataFrame)
    (custom_filter : option (DataFrame → result (list bool))) : result DataFrame :=
  match custom_filter with
  | None => Ok cohort
  | Some f =>
      mask ← f cohort;
      rs ← mask_rows (rows cohort) mask;
      Ok {| columns := columns cohort; rows := rs |}
  end.

(** [drop_duplicates] keeps the first occurrence. *)
Fixpoint drop_seen (seen l : list value) : list value :=
  match l with
  | [] => []
  | x :: l' =>
      if decide (x ∈ seen) then drop_seen seen l'
      else x :: drop_seen (x :: seen) l'
  end.

Definition drop_duplicates (l : list value) : list value := drop_seen [] l.

(** The table the filters work on: the source joined with the derived
    demographics, or the source alone when there are none. *)
Definition working_frame (m : t) (source : cohort) : result DataFrame :=
  if negb (empty (_get_demographics m))
  then merge source (_get_demographics m)
  else Ok (cohort_frame source).

(** The rows the join gives one identifier. *)
Definition joined_rows (m : t) (p : value) : list row :=
  if negb (empty (_get_demographics m))
  then merge_rows (_get_demographics m) p
  else [ [("FACPATID", p)] ].

(** At most one demographics row per patient identifier. *)
Definition one_row_per_patient (demographics : DataFrame) : Prop :=
  NoDup ((λ r, cell r "FACPATID") <$> rows demographics).

Definition filter_cohort (m : t) (source_cohort name : string)
    (filters : option (list (string * filter_value)))
    (custom_filter : option (DataFrame → result (list bool)))
    : result (t * cohort) :=
  match _cohorts m !! source_cohort with
  | None => Raise (ValueError ("Source cohort not found: " +:+ source_cohort))
  | Some source =>
      cohort ← working_frame m source;
      cohort ← apply_filters (field_resolver m) cohort (default [] filters);
      cohort ← apply_custom cohort custom_filter;
      let cohort := drop_duplicates ((λ r, cell r "FACPATID") <$> rows cohort) in
      Ok ({| tables := tables m;
             _cohorts := <[name := cohort]> (_cohorts m);
             field_resolver := field_resolver m;
             _demographics_with_age := _demographics_with_age m |}, cohort)
  end.

(** The filters [{"registry": True}] and [{"registry": False}]. *)
Definition registry_filter (b : bool) : option (list (string * filter_value)) :=
  Some (py_dict [("registry", FScalar (VBool b))]).

(** The cohort of a call without a custom predicate, for the filtering
    [k] of the working table. *)
Definition run_filter (m : t) (source : cohort)
    (k : DataFrame → result DataFrame) : result cohort :=
  df0 ← working_frame m source;
  df1 ← k df0;
  Ok (drop_duplicates ((λ r, cell r "FACPATID") <$> rows df1)).

(** [filter_cohort] into [n1], then [filter_cohort] from [n1] into [n2]. *)
Definition filter_twice (m : t) (source_cohort n1 n2 : string)
    (filters1 filters2 : option (list (string * filter_value)))
    : result (t * cohort) :=
  step1 ← filter_cohort m source_cohort n1 filters1 None;
  filter_cohort step1.1 n1 n2 filters2 None.

(** Two calls that both raise, or return cohorts of the same patients. *)
Definition same_outcome (r1 r2 : result cohort) : Prop :=
  match r1, r2 with
  | Ok c1, Ok c2 => patient_set c1 = patient_set c2
  | Raise _, Raise _ => True
  | _, _ => False
  end.

Definition get_cohort (m : t) (name : string) : result cohort :=
  match _cohorts m !! name with
  | Some c => Ok c
  | None => Raise (ValueError ("Cohort not found: " +:+ name))
  end.

(** *** Summaries *)

Record age_statistics := {
  mean : value;
  median : value;
  min : value;
  max : value;
}.

Record summary := {
  name : string;
  n_patients : nat;
  gender_distribution : option (gmap value nat);
  age_stats : option age_statistics;
  disease_distribution : option (gmap value nat);
  registry_distribution : option (nat * nat);
}.

(** [df[c]] for a column the table is known to have. *)
Definition cells (df : DataFrame) (c : string) : list value :=
  (λ r, cell r c) <$> rows df.

(** [Series.value_counts().to_dict()]: nulls are not counted. *)
Definition value_counts (l : list value) : gmap value nat :=
  foldr (λ v counts,
           match v with
           | VNull => counts
           | _ => <[v := S (default 0 (counts !! v))]> counts
           end) ∅ l.

(** [Series.notna().any()] *)
Definition notna_any (l : list value) : bool :=
  existsb (λ v, bool_decide (v ≠ VNull)) l.

(** [(Series == True).sum()] *)
Definition count_true (l : list value) : nat :=
  List.length (List.filter (λ v, py_eq v (VBool true)) l).

Section Summary.

(** [Series.mean], [median], [min], [max] and [round(_, 1)] compute in
    floating point, outside this embedding: they are taken as given. *)
Variables series_mean series_median series_min series_max : list value → result value.
Variable round1 : value → result value.

Definition describe_age (ages : list value) : result age_statistics :=
  mean ← series_mean ages ≫= round1;
  median ← series_median ages ≫= round1;
  min ← series_min ages ≫= round1;
  max ← series_max ages ≫= round1;
  Ok {| mean := mean; median := median; min := min; max := max |}.

(** The part of [get_cohort_summary] after the four field names are
    resolved. *)
Definition summarize (name : string) (cohort : cohort) (merged : DataFrame)
    (gender_col disease_col registry_col age_col : option string) : result summary :=
  age ← match FieldResolver.truthy age_col with
        | Some c =>
            if notna_any (cells merged c)
            then Some <$> describe_age (cells merged c)
            else Ok None
        | None => Ok None
        end;
  Ok {| name := name;
        n_patients := List.length cohort;
        gender_distribution :=
          (λ c, value_counts (cells merged c)) <$> FieldResolver.truthy gender_col;
        age_stats := age;
        disease_distribution :=
          (λ c, value_counts (cells merged c)) <$> FieldResolver.truthy disease_col;
        registry_distribution :=
          (λ c, let usndr_count := count_true (cells merged c) in
                (usndr_count, List.length (rows merged) - usndr_count))
          <$> FieldResolver.truthy registry_col |}.

Definition get_cohort_summary (m : t) (name : string) : result summary :=
  cohort ← get_cohort m name;
  let demographics := _get_demographics m in
  if empty demographics then
    Ok {| name := name; n_patients := List.length cohort;
          gender_distribution := None; age_stats := None;
          disease_distribution := None; registry_distribution := None |}
  else
    merged ← merge cohort demographics;
    let R := field_resolver m in
    summarize name cohort merged
      (_resolve_filter_field R "gender" merged)
      (_resolve_filter_field R "disease" merged)
      (_resolve_filter_field R "registry" merged)
      (_resolve_filter_field R "age" merged).

End Summary.

(** What it is for a summary [s] over the joined table [merged] to take
    the block of the field [f] from the column [c]. *)
Definition block_from (describe : list value → result age_statistics)
    (s : summary) (merged : DataFrame) (f c : string) : Prop :=
  (f = "gender" → gender_distribution s = Some (value_counts (cells merged c))) ∧
  (f = "disease" → disease_distribution s = Some (value_counts (cells merged c))) ∧
  (f = "registry" →
     registry_distribution s
     = Some (count_true (cells merged c),
             List.length (rows merged) - count_true (cells merged c))) ∧
  (f = "age" →
     if notna_any (cells merged c)
     then ∃ stats, describe (cells merged c) = Ok stats ∧ age_stats s = Some stats
     else age_stats s = None).

Definition create_base_cohort (m : t) (name : string)
    (require_forms : option (list string)) (validate_enrollment : bool)
    : result (t * cohort) :=
  enrolled_patients ←
    (if validate_enrollment
     then EnrollmentValidator.get_enrolled_patients (tables m)
            (Some (default EnrollmentValidator.default_required_forms require_forms))
     else match tables m !! "demographics_maindata" with
          | Some df => ids ← column_values df "FACPATID"; Ok (drop_duplicates ids)
          | None => Raise (ValueError "demographics_maindata table not found")
          end);
  Ok ({| tables := tables m;
         _cohorts := <[name := enrolled_patients]> (_cohorts m);
         field_resolver := field_resolver m;
         _demographics_with_age := _demographics_with_age m |}, enrolled_patients).

(** *** Construction *)

(** A loop over [l] that the first exception ends. *)
Fixpoint traverse {A B} (f : A → result B) (l : list A) : result (list B) :=
  match l with
  | [] => Ok []
  | x :: l' =>
      y ← f x;
      rest ← traverse f l';
      Ok (y :: rest)
  end.

(** [df[c] = values], with one value per row: the column is replaced
    where it stands, or added as the last one. *)
Definition assign (df : DataFrame) (c : string) (values : list value) : DataFrame :=
  {| columns := if has_column df c then columns df else columns df ++ [c];
     rows := zip_with (λ r v, dict_set c v r) (rows df) values |}.

Section Age.

(** Timestamps, the clock and the arithmetic of dates belong to pandas and
    to the system; they are taken as given.

    - [to_datetime column v] is what [pd.to_datetime(column, errors='coerce')]
      makes of the cell [v] of [column] when [v] is not null: a timestamp,
      [NaT] ([None]) for a cell it cannot parse, or an exception;
    - [timestamp_cell d] is the cell that holds the timestamp [d];
    - [today] is [datetime.now()];
    - [days today d] is [(today - d).days], or the exception of the
      subtraction;
    - [years n] is [n / 365.25] rounded to one decimal, in floating point. *)
Variable timestamp : Type.
Variable to_datetime : list value → value → result (option timestamp).
Variable timestamp_cell : timestamp → value.
Variable today : timestamp.
Variable days : timestamp → timestamp → result Z.
Variable years : Z → value.

(** [pd.to_datetime(df[dob_col], errors='coerce')]: a null cell is [NaT]. *)
Definition convert (column : list value) : result (list (option timestamp)) :=
  traverse (λ v, match v with
                 | VNull => Ok None
                 | _ => to_datetime column v
                 end) column.

Definition datetime_cell (d : option timestamp) : value :=
  from_option timestamp_cell VNull d.

(** [((today - d).days / 365.25).round(1)] for one cell; [NaT] gives [NaN]. *)
Definition age_of (d : option timestamp) : result value :=
  match d with
  | None => Ok VNull
  | Some d => n ← days today d; Ok (years n)
  end.

(** [_prepare_demographics], returning what it leaves in
    [_demographics_with_age].  An exception in the [try] block is logged
    and dropped: the table stays as it was when the exception came. *)
Definition _prepare_demographics (tables : gmap string DataFrame)
    (resolver : FieldResolver.t) : option DataFrame :=
  match tables !! "demographics_maindata" with
  | None => None
  | Some df =>
      match FieldResolver.truthy (FieldResolver.resolve resolver "birth_date" df) with
      | Some dob_col =>
          if has_column df "AGE" then Some df
          else
            match convert (cells df dob_col) with
            | Raise _ => Some df
            | Ok dates =>
                let df := assign df dob_col (datetime_cell <$> dates) in
                match traverse age_of dates with
                | Raise _ => Some df
                | Ok ages => Some (assign df "AGE" ages)
                end
            end
      | None => Some df
      end
  end.

(** [CohortManager(tables)]; [resolver] is the [FieldResolver()] made from
    the configuration. *)
Definition __init__ (tables : gmap string DataFrame) (resolver : FieldResolver.t) : t :=
  {| tables := tables;
     _cohorts := ∅;
     field_resolver := resolver;
     _demographics_with_age := _prepare_demographics tables resolver |}.

End Age.

Arguments convert {timestamp} to_datetime column.
Arguments datetime_cell {timestamp} timestamp_cell d.
Arguments age_of {timestamp} today days years d.
Arguments _prepare_demographics {timestamp} to_datetime timestamp_cell today days years
  tables resolver.
Arguments __init__ {timestamp} to_datetime timestamp_cell today days years tables resolver.



(** *** Cohort data *)

Definition get_cohort_data (m : t) (name : string) (include_demographics : bool)
    : result DataFrame :=
  cohort ← get_cohort m name;
  if include_demographics then
    let demographics := _get_demographics m in
    if negb (empty demographics) then merge cohort demographics
    else Ok (cohort_frame cohort)
  else Ok (cohort_frame cohort).

(** [df[df['FACPATID'].isin(cohort_ids)].copy()], or [df.copy()] for a table
    that is not keyed by patient. *)
Definition filter_table (cohort_ids : cohort) (df : DataFrame) : DataFrame :=
  if has_column df "FACPATID"
  then {| columns := columns df;
          rows := List.filter (λ r, py_isin (cell r "FACPATID") cohort_ids) (rows df) |}
  else df.

(** The loop of [get_filtered_tables]; an unknown table name is logged and
    skipped. *)
Fixpoint filter_tables (tables : gmap string DataFrame) (cohort_ids : cohort)
    (tables_to_filter : list string) (filtered : gmap string DataFrame)
    : gmap string DataFrame :=
  match tables_to_filter with
  | [] => filtered
  | table_name :: rest =>
      match tables !! table_name with
      | None => filter_tables tables cohort_ids rest filtered
      | Some df =>
          filter_tables tables cohort_ids rest
            (<[table_name := filter_table cohort_ids df]> filtered)
      end
  end.

(** [tables or list(self.tables.keys())]: an empty list is falsy. *)
Definition tables_to_filter (m : t) (tables_arg : option (list string)) : list string :=
  match tables_arg with
  | Some (table_name :: rest) => table_name :: rest
  | _ => (map_to_list (tables m)).*1
  end.

Definition get_filtered_tables (m : t) (name : string)
    (tables_arg : option (list string)) : result (gmap string DataFrame) :=
  cohort_ids ← get_cohort m name;
  Ok (filter_tables (tables m) cohort_ids (tables_to_filter m tables_arg) ∅).

(** *** Export *)

Inductive export_format := CSV | Excel | Parquet.

(** [str.endswith] *)
Fixpoint endswith (s suffix : string) : bool :=
  if bool_decide (s = suffix) then true
  else match s with
       | EmptyString => false
       | String _ s' => endswith s' suffix
       end.

(** [export_cohort], returning the writer it picks and the table it hands
    to it. *)
Definition export_cohort (m : t) (name output_path : string)
    : result (export_format * cohort) :=
  cohort ← get_cohort m name;
  if endswith output_path ".csv" then Ok (CSV, cohort)
  else if endswith output_path ".xlsx" then Ok (Excel, cohort)
  else if endswith output_path ".parquet" then Ok (Parquet, cohort)
  else Raise (ValueError ("Unsupported file format: " +:+ output_path)).

(** The suffix that selects a writer. *)
Definition extension (format : export_format) : string :=
  match format with
  | CSV => ".csv"
  | Excel => ".xlsx"
  | Parquet => ".parquet"
  end.

(** *** Statements about managers *)

(** The table names a call of [get_filtered_tables] asks for. *)
Definition requested (tables_arg : option (list string)) (table_name : string) : Prop :=
  match tables_arg with
  | Some (first_name :: rest) => table_name ∈ first_name :: rest
  | _ => True
  end.

#[global] Instance requested_dec tables_arg table_name :
  Decision (requested tables_arg table_name).
Proof. destruct tables_arg as [[|first_name rest]|]; simpl; apply _. Defined.

(** The field of a filter entry resolves to no column of [df]. *)
Definition unresolved (R : FieldResolver.t) (df : DataFrame)
    (item : string * filter_value) : Prop :=
  FieldResolver.truthy (_resolve_filter_field R item.1 df) = None.

(** A filter value whose test compares nothing by order: an equality test
    with a scalar, a membership test, or a range with no bound. *)
Definition order_free (value : filter_value) : Prop :=
  match value with
  | FDict d => assoc "min" d = None ∧ assoc "max" d = None
  | FTuple _ => False
  | FList _ | FScalar _ => True
  end.

(** A filter value that is no tuple, or the pair [(lo, hi)]. *)
Definition pairs_only (value : filter_value) : Prop :=
  match value with
  | FTuple t => List.length t = 2%nat
  | _ => True
  end.

#[global] Instance pairs_only_dec value : Decision (pairs_only value).
Proof. destruct value; simpl; apply _. Defined.

(** A filter value that is no list, or a list without a null. *)
Definition null_free (value : filter_value) : Prop :=
  match value with
  | FList l => VNull ∉ l
  | _ => True
  end.

#[global] Instance null_free_dec value : Decision (null_free value).
Proof. destruct value; simpl; apply _. Defined.

(** Every patient of [c] has a row in the derived demographics, so that the
    left join leaves no cell missing (or there are no demographics to
    join). *)
Definition covered (m : t) (c : cohort) : Prop :=
  empty (_get_demographics m) = true ∨
  Forall (λ p, matching_rows (_get_demographics m) p ≠ []) c.

#[global] Instance covered_dec m c : Decision (covered m c).
Proof. unfold covered. apply _. Defined.

(** [Series.dropna] *)
Definition dropna (l : list value) : list value :=
  List.filter (λ v, bool_decide (v ≠ VNull)) l.

(** A statistic that skips the nulls, as [Series.mean], [median], [min] and
    [max] do by default ([skipna=True]). *)
Definition skips_nulls (statistic : list value → result value) : Prop :=
  ∀ l, statistic l = statistic (dropna l).

(** What a row has to satisfy to pass the test of [value] on column [c]. *)
Definition value_passes (c : string) (value : filter_value) (r : row) : Prop :=
  match value with
  | FDict d =>
      (∀ lo, assoc "min" d = Some lo → py_ge (cell r c) lo = Ok true) ∧
      (∀ hi, assoc "max" d = Some hi → py_le (cell r c) hi = Ok true)
  | FTuple [lo; hi] =>
      py_ge (cell r c) lo = Ok true ∧ py_le (cell r c) hi = Ok true
  | FList l => py_isin (cell r c) l = true
  | FTuple _ => False
  | FScalar v => py_eq (cell r c) v = true
  end.

(** What a row of [df] has to satisfy to pass one filter entry. *)
Definition passes (R : FieldResolver.t) (df : DataFrame)
    (item : string * filter_value) (r : row) : Prop :=
  match FieldResolver.truthy (_resolve_filter_field R item.1 df) with
  | None => True
  | Some c =>
      if decide (item.1 = "registry")
      then py_eq (cell r c) (VBool true) = selects_usndr item.2
      else value_passes c item.2 r
  end.

(** No stored cohort lists a patient twice. *)
Definition cohorts_nodup (m : t) : Prop :=
  ∀ name c, _cohorts m !! name = Some c → NoDup c.

(** The rows of [df] whose cell in column [c] passes [test]. *)
Definition rows_where (df : DataFrame) (c : string) (test : value → Prop) (r : row) : Prop :=
  r ∈ rows df ∧ test (cell r c).

(** The patients of the rows of [df] that satisfy [P]. *)
Definition patients_where (df : DataFrame) (P : row → Prop) (p : value) : Prop :=
  ∃ r, r ∈ rows df ∧ cell r "FACPATID" = p ∧ P r.

End CohortManager.

(** ** FilterExpression

    The filter DSL of [movr/cohorts/filters.py].  An expression carries a
    column and the last condition given to it; [apply] is what is passed to
    [filter_cohort] as [custom_filter].  ([contains] matches a regular
    expression and is not modelled.) *)

(** [<] and [>] on cells, the way pandas applies them elementwise. *)
Definition py_lt (x y : value) : result bool :=
  match x, y with
  | VNull, _ | _, VNull => Ok false
  | VStr s, VStr t => Ok (string_leb s t && negb (bool_decide (s = t)))
  | VStr _, _ | _, VStr _ => Raise TypeError
  | _, _ =>
      match as_number x, as_number y with
      | Some a, Some b => Ok (a <? b)%Z
      | _, _ => Raise TypeError
      end
  end.

Definition py_gt (x y : value) : result bool := py_lt y x.

(** A test that raises nothing but [TypeError]. *)
Definition only_type_error (test : value → result bool) : Prop :=
  ∀ x e, test x = Raise e → e = TypeError.

Module FilterExpression.

Record t := {
  column : string;
  _condition : option (DataFrame → result (list bool));
}.

Definition __init__ (column : string) : t :=
  {| column := column; _condition := None |}.

(** A comparison of a whole column with a scalar: the boolean Series. *)
Fixpoint compare_cells (test : value → result bool) (l : list value)
    : result (list bool) :=
  match l with
  | [] => Ok []
  | x :: l' =>
      b ← test x;
      rest ← compare_cells test l';
      Ok (b :: rest)
  end.

Definition compare_column (column : string) (test : value → result bool)
    (df : DataFrame) : result (list bool) :=
  values ← column_values df column;
  compare_cells test values.

Definition equals (self : t) (value : value) : t :=
  {| column := column self;
     _condition := Some (compare_column (column self) (λ x, Ok (py_eq x value))) |}.

Definition in_list (self : t) (values : list value) : t :=
  {| column := column self;
     _condition := Some (compare_column (column self) (λ x, Ok (py_isin x values))) |}.

(** [(df[c] >= min_val) & (df[c] <= max_val)]: the two Series are computed
    one after the other, then combined. *)
Definition between (self : t) (min_val max_val : value) : t :=
  {| column := column self;
     _condition := Some (λ df,
       ge ← compare_column (column self) (λ x, py_ge x min_val) df;
       le ← compare_column (column self) (λ x, py_le x max_val) df;
       Ok (zip_with andb ge le)) |}.

Definition greater_than (self : t) (value : value) : t :=
  {| column := column self;
     _condition := Some (compare_column (column self) (λ x, py_gt x value)) |}.

Definition less_than (self : t) (value : value) : t :=
  {| column := column self;
     _condition := Some (compare_column (column self) (λ x, py_lt x value)) |}.

Definition apply (self : t) (df : DataFrame) : result (list bool) :=
  match _condition self with
  | None => Raise (ValueError "No filter condition defined")
  | Some condition => condition df
  end.

(** The expressions the methods build. *)
Inductive built : t → Prop :=
| built_init c : built (__init__ c)
| built_equals e v : built e → built (equals e v)
| built_in_list e l : built e → built (in_list e l)
| built_between e lo hi : built e → built (between e lo hi)
| built_greater_than e v : built e → built (greater_than e v)
| built_less_than e v : built e → built (less_than e v).

(** An expression on column [c] and the filter value that asks the same of
    that column. *)
Inductive expresses (c : string) : t → filter_value → Prop :=
| expresses_equals e v :
    column e = c → expresses c (equals e v) (FScalar v)
| expresses_in_list e l :
    column e = c → expresses c (in_list e l) (FList l)
| expresses_between e lo hi :
    column e = c → expresses c (between e lo hi) (FTuple [lo; hi]).

End FilterExpression.

(** ** Scripts

    The callers of [filter_cohort] in [scripts/exploratory_interpreter.py]
    ([create_cohort]) and [scripts/make_all_disease_cohorts.py] (the loop of
    [create_all_disease_cohorts], over the disease codes read from the
    configuration). *)

Module Scripts.
Import CohortManager.

(** [f"exploratory_{disease.lower()}_{'usndr' if registry else 'datahub'}"] *)
Definition default_name (disease : string) (registry : bool) : string :=
  "exploratory_" +:+ FieldResolver.lower disease +:+ "_"
  +:+ (if registry then "usndr" else "datahub").

(** [{'disease': disease, 'registry': registry}] *)
Definition exploratory_filters (disease : string) (registry : bool)
    : option (list (string * filter_value)) :=
  Some (py_dict [("disease", FScalar (VStr disease));
                 ("registry", FScalar (VBool registry))]).

(** [name in cohorts.list_cohorts()] *)
Definition listed (cohorts : t) (name : string) : bool :=
  bool_decide (is_Some (_cohorts cohorts !! name)).

(** How [create_cohort] ends: with the manager and the name of the new
    cohort, with its own [RuntimeError], or with an exception of
    [filter_cohort]. *)
Inductive outcome :=
| Created (cohorts : t) (cohort_name : string)
| RuntimeError (msg : string)
| Failed (e : error).

Definition create_cohort (cohorts : t) (disease : string) (registry : bool)
    (name : option string) (force : bool) : outcome :=
  let cohort_name :=
    match FieldResolver.truthy name with
    | Some n => n
    | None => default_name disease registry
    end in
  if listed cohorts cohort_name && negb force then
    RuntimeError ("Cohort '" +:+ cohort_name
                  +:+ "' already exists. Use force=True to overwrite.")
  else
    match filter_cohort cohorts "base" cohort_name
            (exploratory_filters disease registry) None with
    | Ok (cohorts', _) => Created cohorts' cohort_name
    | Raise e => Failed e
    end.

(** The loop of [create_all_disease_cohorts]: an existing name is skipped
    unless [force]; an exception of [filter_cohort] is printed and the loop
    goes on. *)
Fixpoint create_all (cohorts : t) (diseases : list string) (force registry : bool)
    (created : list string) : t * list string :=
  match diseases with
  | [] => (cohorts, created)
  | d :: rest =>
      let name := default_name d registry in
      if listed cohorts name && negb force then
        create_all cohorts rest force registry created
      else
        match filter_cohort cohorts "base" name (exploratory_filters d registry) None with
        | Ok (cohorts', _) => create_all cohorts' rest force registry (created ++ [name])
        | Raise _ => create_all cohorts rest force registry created
        end
  end.

(** The cohort stored under [n] holds patients of [base] only. *)
Definition within (base : cohort) (cohorts : t) (n : string) : Prop :=
  ∃ c, _cohorts cohorts !! n = Some c ∧ ∀ p, p ∈ c → p ∈ base.

End Scripts.

(** ** A small registry

    The scenario of the specification: four patients in the demographics
    form, three of them with an encounter. *)

Module Examples.
Import CohortManager.

Definition P1 : value := VStr "P1".
Definition P2 : value := VStr "P2".
Definition P3 : value := VStr "P3".
Definition P4 : value := VStr "P4".

Definition demographics_row (p : value) (dstype gender : string) (usndr : value) : row :=
  [("FACPATID", p); ("dstype", VStr dstype); ("gender", VStr gender); ("usndr", usndr)].

Definition demographics : DataFrame :=
  {| columns := ["FACPATID"; "dstype"; "gender"; "usndr"];
     rows := [ demographics_row P1 "DMD" "Male" (VBool false);
               demographics_row P2 "DMD" "Female" VNull;
               demographics_row P3 "BMD" "Female" (VBool true);
               demographics_row P4 "ALS" "Male" (VBool true) ] |}.

Definition form (ps : list value) : DataFrame :=
  {| columns := ["FACPATID"; "visit"];
     rows := (λ p, [("FACPATID", p); ("visit", VNum 1)]) <$> ps |}.

Definition store : gmap string DataFrame :=
  <["demographics_maindata" := demographics]>
  (<["diagnosis_maindata" := form [P1; P2; P3; P4]]>
  (<["encounter_maindata" := form [P1; P1; P2; P3]]> ∅)).

Definition resolver : FieldResolver.t := {| FieldResolver._mappings := ∅ |}.

Definition manager : t :=
  {| tables := store;
     _cohorts := <["base" := [P1; P2; P3; P4]]> ∅;
     field_resolver := resolver;
     _demographics_with_age := Some demographics |}.

(** The state and the cohort a successful call leaves; the state itself
    where the call raises. *)
Definition after (m : t) (r : result (t * cohort)) : t * cohort :=
  match r with
  | Ok x => x
  | Raise _ => (m, [])
  end.

(** Demographics that carry no registry column. *)
Definition no_registry : t :=
  {| tables := ∅;
     _cohorts := <["base" := [P1; P2]]> ∅;
     field_resolver := resolver;
     _demographics_with_age :=
       Some {| columns := ["FACPATID"; "dstype"];
               rows := [ [("FACPATID", P1); ("dstype", VStr "DMD")];
                         [("FACPATID", P2); ("dstype", VStr "BMD")] ] |} |}.

(** Demographics with two rows for one patient. *)
Definition two_rows : t :=
  {| tables := ∅;
     _cohorts := <["base" := [P1]]> ∅;
     field_resolver := resolver;
     _demographics_with_age :=
       Some {| columns := ["FACPATID"; "dstype"; "gender"; "usndr"];
               rows := [ demographics_row P1 "DMD" "Male" (VBool true);
                         demographics_row P1 "BMD" "Female" (VBool false) ] |} |}.

Definition disease (code : string) : filter_value := FScalar (VStr code).

(** A table with a column named like the canonical field and the column
    the field is mapped to, side by side. *)
Definition both_columns : DataFrame :=
  {| columns := ["FACPATID"; "dstype"; "disease"];
     rows := [ [("FACPATID", P1); ("dstype", VStr "DMD"); ("disease", VStr "BMD")];
               [("FACPATID", P2); ("dstype", VStr "BMD"); ("disease", VStr "DMD")] ] |}.

(** Demographics with a column whose label is the empty string. *)
Definition blank_column : DataFrame :=
  {| columns := ["FACPATID"; ""];
     rows := [ [("FACPATID", P1); ("", VStr "x")];
               [("FACPATID", P2); ("", VStr "y")] ] |}.

Definition blank_manager : t :=
  {| tables := ∅;
     _cohorts := <["base" := [P1; P2]]> ∅;
     field_resolver := resolver;
     _demographics_with_age := Some blank_column |}.

Definition dmd_filter : option (list (string * filter_value)) :=
  Some (py_dict [("disease", FScalar (VStr "DMD"))]).

Definition with_dmd : t * cohort :=
  Eval vm_compute in after manager (filter_cohort manager "base" "dmd" dmd_filter None).

Definition dmd_datahub : t * cohort :=
  Eval vm_compute in
    after manager (filter_cohort manager "base" "a"
      (Some [("disease", disease "DMD"); ("registry", FScalar (VBool false))]) None).

Definition datahub_dmd : t * cohort :=
  Eval vm_compute in
    after manager (filter_cohort manager "base" "b"
      (Some [("registry", FScalar (VBool false)); ("disease", disease "DMD")]) None).

Definition with_base : t * cohort :=
  Eval vm_compute in after manager (create_base_cohort manager "enrolled" None true).

(** Stand-ins for the floating-point statistics: one that answers null, one
    that raises. *)
Definition no_stat (ages : list value) : result value := Ok VNull.
Definition failing_stat (ages : list value) : result value := Raise TypeError.

Definition summary_of (r : result summary) : summary :=
  match r with
  | Ok s => s
  | Raise _ =>
      {| name := ""; n_patients := 0; gender_distribution := None; age_stats := None;
         disease_distribution := None; registry_distribution := None |}
  end.

Definition base_summary : summary :=
  Eval vm_compute in
    summary_of (get_cohort_summary no_stat no_stat no_stat no_stat Ok manager "base").

(** A manager that holds a cohort without patients. *)
Definition dmd_only : t :=
  {| tables := store;
     _cohorts := <["als" := []]> (<["base" := [P1; P2]]> ∅);
     field_resolver := resolver;
     _demographics_with_age := Some demographics |}.

Definition report_of (r : result EnrollmentValidator.report) : EnrollmentValidator.report :=
  match r with
  | Ok x => x
  | Raise _ => EnrollmentValidator.empty_report
  end.

Definition enrollment : EnrollmentValidator.report :=
  Eval vm_compute in report_of (EnrollmentValidator.validate_enrollment store None).

(** A validation over a form the store does not hold. *)
Definition partial_enrollment : EnrollmentValidator.report :=
  Eval vm_compute in
    report_of (EnrollmentValidator.validate_enrollment store
                 (Some ["encounter_maindata"; "labs"])).

(** [FilterExpression("gender").equals("Female")] *)
Definition is_female : FilterExpression.t :=
  FilterExpression.equals (FilterExpression.__init__ "gender") (VStr "Female").

Definition all_diseases : t * list string :=
  Eval vm_compute in Scripts.create_all manager ["DMD"; "SMA"; "dmd"] false false [].

(** The tables a successful call leaves; none where the call raises. *)
Definition tables_of (r : result (gmap string DataFrame)) : gmap string DataFrame :=
  match r with
  | Ok x => x
  | Raise _ => ∅
  end.

Definition base_tables : gmap string DataFrame :=
  Eval vm_compute in tables_of (get_filtered_tables manager "base" None).

Definition dmd_tables : gmap string DataFrame :=
  Eval vm_compute in tables_of (get_filtered_tables with_dmd.1 "dmd" None).

(** Demographics with a birth date.  Day numbers stand for dates: [P2] has
    no birth date and the one of [P3] does not parse. *)
Definition born : DataFrame :=
  {| columns := ["FACPATID"; "dob"; "gender"];
     rows := [ [("FACPATID", P1); ("dob", VNum 3650); ("gender", VStr "Male")];
               [("FACPATID", P2); ("dob", VNull); ("gender", VStr "Female")];
               [("FACPATID", P3); ("dob", VStr "unknown"); ("gender", VStr "Female")];
               [("FACPATID", P4); ("dob", VNum 730); ("gender", VStr "Male")] ] |}.

Definition born_store : gmap string DataFrame := <["demographics_maindata" := born]> ∅.

(** Stand-ins for the dates of pandas: a timestamp is a day number, today
    is day 7300, a year has 365 days and an age is a whole number. *)
Definition parse_day (column : list value) (v : value) : result (option Z) :=
  match v with
  | VNum z => Ok (Some z)
  | _ => Ok None
  end.

Definition day_count (today d : Z) : result Z := Ok (today - d)%Z.

Definition whole_years (n : Z) : value := VNum (n / 365).

(** A subtraction that raises, as one of a naive and an aware timestamp. *)
Definition no_day_count (today d : Z) : result Z := Raise TypeError.

(** A stand-in for the statistics: the sum of the numbers of the column. *)
Definition total (ages : list value) : result value :=
  Ok (VNum (foldr (λ v acc, match v with VNum z => (z + acc)%Z | _ => acc end) 0%Z ages)).

End Examples.

(** * Properties *)

(** ** The exception monad *)

Lemma bind_ok {A B} (r : result A) (k : A → result B) (b : B) :
  r ≫= k = Ok b ↔ ∃ a, r = Ok a ∧ k a = Ok b.
Proof.
  destruct r as [a|e]; simpl; split.
  - intros H. by exists a.
  - by intros (a' & [= <-] & H).
  - done.
  - by intros (a' & [=] & _).
Qed.

Lemma ok_bind {A B} (a : A) (k : A → result B) : Ok a ≫= k = k a.
Proof. reflexivity. Qed.

Lemma raise_bind {A B} e (k : A → result B) : Raise e ≫= k = Raise e.
Proof. reflexivity. Qed.

Lemma ok_fmap {A B} (f : A → B) a : f <$> Ok a = Ok (f a).
Proof. reflexivity. Qed.

Lemma raise_fmap {A B} (f : A → B) e : f <$> (Raise e : result A) = Raise e.
Proof. reflexivity. Qed.

Lemma bind_ret {A} (r : result A) : r ≫= Ok = r.
Proof. by destruct r. Qed.

Lemma fmap_bind {A B C} (f : B → C) (r : result A) (k : A → result B) :
  f <$> (r ≫= k) = r ≫= λ a, f <$> k a.
Proof. by destruct r. Qed.

Lemma bind_bind {A B C} (r : result A) (k : A → result B) (h : B → result C) :
  (r ≫= k) ≫= h = r ≫= λ a, k a ≫= h.
Proof. by destruct r. Qed.

(** ** Boolean indexing keeps rows of the table *)

Lemma select_rows_elem p rs out r :
  select_rows p rs = Ok out → r ∈ out ↔ r ∈ rs ∧ p r = Ok true.
Proof.
  revert out. induction rs as [|r0 rs IH]; intros out H; simpl in H.
  - injection H as <-. split; [by intros ?%elem_of_nil | by intros [?%elem_of_nil _]].
  - apply bind_ok in H as (b & Hb & H). apply bind_ok in H as (rest & Hrest & H).
    injection H as <-. specialize (IH _ Hrest).
    destruct b.
    + rewrite !elem_of_cons, IH. split.
      * intros [->|[? ?]]; auto.
      * intros [[->|?] ?]; auto.
    + rewrite elem_of_cons, IH. split.
      * intros [? ?]; auto.
      * intros [[->|?] ?]; [congruence | auto].
Qed.

Lemma select_rows_tests p rs out :
  select_rows p rs = Ok out → ∀ r, r ∈ rs → ∃ b, p r = Ok b.
Proof.
  revert out. induction rs as [|r0 rs IH]; intros out H r Hr; simpl in H.
  - by apply elem_of_nil in Hr.
  - apply bind_ok in H as (b & Hb & H). apply bind_ok in H as (rest & Hrest & H).
    apply elem_of_cons in Hr as [->|Hr]; eauto.
Qed.

Lemma select_rows_total p rs :
  (∀ r, r ∈ rs → ∃ b, p r = Ok b) → ∃ out, select_rows p rs = Ok out.
Proof.
  induction rs as [|r0 rs IH]; intros H; simpl.
  - by eexists.
  - destruct (H r0) as [b ->]; [by left|].
    destruct IH as [rest ->]; [intros; apply H; by right|].
    simpl. by eexists.
Qed.

Lemma mask_rows_elem rs mask out r :
  mask_rows rs mask = Ok out → r ∈ out → r ∈ rs.
Proof.
  revert mask out. induction rs as [|r0 rs IH]; intros [|b mask] out H Hr; simpl in H;
    try discriminate.
  - injection H as <-. done.
  - apply bind_ok in H as (rest & Hrest & H). injection H as <-.
    destruct b.
    + apply elem_of_cons in Hr as [->|Hr]; [by left | right; eauto].
    + right; eauto.
Qed.

Lemma sub_frame_refl df : sub_frame df df.
Proof. by split. Qed.

Lemma sub_frame_trans df1 df2 df3 :
  sub_frame df1 df2 → sub_frame df2 df3 → sub_frame df1 df3.
Proof. intros [E1 H1] [E2 H2]. split; [congruence | auto]. Qed.

Lemma select_sub_frame df p df' : select df p = Ok df' → sub_frame df' df.
Proof.
  unfold select. intros H. apply bind_ok in H as (rs & Hrs & [= <-]).
  split; [done|]. simpl. intros r Hr. by apply (select_rows_elem _ _ _ r Hrs).
Qed.

Module CohortManagerFacts.
Import CohortManager.

Lemma apply_value_filter_sub_frame df c v df' :
  apply_value_filter df c v = Ok df' → sub_frame df' df.
Proof.
  destruct v as [d|t|l|v]; simpl.
  - intros H. apply bind_ok in H as (df1 & H1 & H2).
    assert (sub_frame df1 df).
    { destruct (assoc "min" d); [by eapply select_sub_frame|].
      injection H1 as <-. apply sub_frame_refl. }
    eapply sub_frame_trans; [|done].
    destruct (assoc "max" d); [by eapply select_sub_frame|].
    injection H2 as <-. apply sub_frame_refl.
  - destruct t as [|lo [|hi [|? ?]]]; apply select_sub_frame.
  - apply select_sub_frame.
  - apply select_sub_frame.
Qed.

Lemma _apply_registry_filter_sub_frame R df v df' :
  _apply_registry_filter R df v = Ok df' → sub_frame df' df.
Proof.
  unfold _apply_registry_filter.
  destruct (FieldResolver.truthy _).
  - destruct (selects_usndr v); apply select_sub_frame.
  - intros [= <-]. apply sub_frame_refl.
Qed.

Lemma apply_filter_sub_frame R df item df' :
  apply_filter R df item = Ok df' → sub_frame df' df.
Proof.
  destruct item as [field v]. unfold apply_filter.
  destruct (decide _); [apply _apply_registry_filter_sub_frame|].
  destruct (FieldResolver.truthy _); [apply apply_value_filter_sub_frame|].
  intros [= <-]. apply sub_frame_refl.
Qed.

Lemma apply_filters_sub_frame R items df df' :
  apply_filters R df items = Ok df' → sub_frame df' df.
Proof.
  revert df. induction items as [|item items IH]; intros df; simpl.
  - intros [= <-]. apply sub_frame_refl.
  - intros H. apply bind_ok in H as (df1 & H1 & H2).
    eapply sub_frame_trans; [by apply IH|by eapply apply_filter_sub_frame].
Qed.

Lemma apply_custom_sub_frame df f df' :
  apply_custom df f = Ok df' → sub_frame df' df.
Proof.
  destruct f as [f|]; simpl.
  - intros H. apply bind_ok in H as (mask & _ & H).
    apply bind_ok in H as (rs & Hrs & [= <-]).
    split; [done|]. simpl. intros r. by apply mask_rows_elem with (mask := mask).
  - intros [= <-]. apply sub_frame_refl.
Qed.

Lemma elem_of_drop_seen seen l x :
  x ∈ drop_seen seen l ↔ x ∈ l ∧ x ∉ seen.
Proof.
  revert seen. induction l as [|y l IH]; intros seen; simpl.
  - split; [by intros ?%elem_of_nil | by intros [?%elem_of_nil _]].
  - destruct (decide (y ∈ seen)) as [Hy|Hy].
    + rewrite IH, elem_of_cons. split.
      * intros [? ?]; auto.
      * intros [[->|?] ?]; done.
    + rewrite !elem_of_cons, IH, elem_of_cons. split.
      * intros [->|[? Hn]]; [auto|].
        split; [auto|]. intros ?. apply Hn. by right.
      * intros [[->|?] ?]; [by left|].
        destruct (decide (x = y)); [by left | right].
        split; [done|]. by intros [?|?].
Qed.

Lemma elem_of_drop_duplicates l x : x ∈ drop_duplicates l ↔ x ∈ l.
Proof.
  unfold drop_duplicates. rewrite elem_of_drop_seen.
  split; [by intros [? _] | intros ?; split; [done | by intros ?%elem_of_nil]].
Qed.

Lemma NoDup_drop_seen seen l : NoDup (drop_seen seen l).
Proof.
  revert seen. induction l as [|y l IH]; intros seen; simpl.
  - constructor.
  - destruct (decide (y ∈ seen)); [apply IH|].
    constructor; [|apply IH].
    rewrite elem_of_drop_seen. intros [_ []]. by left.
Qed.

Lemma patient_set_drop_duplicates l :
  patient_set (drop_duplicates l) = patient_set l.
Proof.
  apply set_eq. intros x. unfold patient_set.
  by rewrite !elem_of_list_to_set, elem_of_drop_duplicates.
Qed.

(** Every row of the joined table carries an identifier of the source. *)
Lemma cell_merge_row p r : cell (merge_row p r) "FACPATID" = p.
Proof. reflexivity. Qed.

Lemma elem_of_merge_rows demographics p r :
  r ∈ merge_rows demographics p → cell r "FACPATID" = p.
Proof.
  unfold merge_rows. destruct (matching_rows demographics p) as [|r0 ms].
  - by intros ->%list_elem_of_singleton.
  - intros (r1 & -> & _)%list_elem_of_fmap. apply cell_merge_row.
Qed.

Lemma merge_rows_nonempty demographics p : merge_rows demographics p ≠ [].
Proof.
  unfold merge_rows. by destruct (matching_rows demographics p).
Qed.

Lemma working_frame_ids m source df r :
  working_frame m source = Ok df → r ∈ rows df → cell r "FACPATID" ∈ source.
Proof.
  unfold working_frame, merge. intros H Hr.
  destruct (negb _).
  - destruct (has_column _ _); [|done]. injection H as <-. simpl in Hr.
    apply list_elem_of_bind in Hr as (p & Hr & Hp).
    by rewrite (elem_of_merge_rows _ _ _ Hr).
  - injection H as <-. simpl in Hr.
    apply list_elem_of_fmap in Hr as (p & -> & Hp).
    done.
Qed.

Lemma working_frame_covers m source df p :
  working_frame m source = Ok df → p ∈ source →
  ∃ r, r ∈ rows df ∧ cell r "FACPATID" = p.
Proof.
  unfold working_frame, merge. intros H Hp.
  destruct (negb _).
  - destruct (has_column _ _); [|done]. injection H as <-. simpl.
    destruct (merge_rows (_get_demographics m) p) as [|r rs] eqn:E.
    { by apply merge_rows_nonempty in E. }
    exists r. split.
    + apply list_elem_of_bind. exists p. split; [|done]. rewrite E. by left.
    + apply (elem_of_merge_rows (_get_demographics m)). rewrite E. by left.
  - injection H as <-. simpl. exists [("FACPATID", p)]. split.
    + apply list_elem_of_fmap. by exists p.
    + done.
Qed.

Lemma working_frame_rows m source df :
  working_frame m source = Ok df → rows df = source ≫= joined_rows m.
Proof.
  unfold working_frame, joined_rows, merge.
  destruct (negb _).
  - destruct (has_column _ _); [|done]. by intros [= <-].
  - intros [= <-]. simpl. induction source as [|p source IH]; [done|].
    csimpl. by rewrite IH.
Qed.

Lemma working_frame_columns m s1 s2 df1 df2 :
  working_frame m s1 = Ok df1 → working_frame m s2 = Ok df2 →
  columns df1 = columns df2.
Proof.
  unfold working_frame, merge. destruct (negb _).
  - destruct (has_column _ _); [|done]. by intros [= <-] [= <-].
  - by intros [= <-] [= <-].
Qed.

Lemma working_frame_any_source m s1 s2 df1 :
  working_frame m s1 = Ok df1 → ∃ df2, working_frame m s2 = Ok df2.
Proof.
  unfold working_frame, merge. destruct (negb _); [|by eexists].
  destruct (has_column _ _); [by eexists | done].
Qed.

Lemma joined_rows_key m p r : r ∈ joined_rows m p → cell r "FACPATID" = p.
Proof.
  unfold joined_rows. destruct (negb _).
  - apply elem_of_merge_rows.
  - by intros ->%list_elem_of_singleton.
Qed.

Lemma elem_of_working_frame m source df r :
  working_frame m source = Ok df →
  r ∈ rows df ↔ cell r "FACPATID" ∈ source ∧ r ∈ joined_rows m (cell r "FACPATID").
Proof.
  intros H. rewrite (working_frame_rows _ _ _ H), list_elem_of_bind. split.
  - intros (p & Hr & Hp). by rewrite (joined_rows_key _ _ _ Hr).
  - intros [? ?]. eauto.
Qed.

(** With one demographics row per patient, the join gives each identifier
    one row. *)
Lemma matching_rows_unique demographics p r1 r2 :
  one_row_per_patient demographics →
  r1 ∈ matching_rows demographics p → r2 ∈ matching_rows demographics p → r1 = r2.
Proof.
  unfold one_row_per_patient, matching_rows.
  induction (rows demographics) as [|r rs IH]; intros Hnd H1 H2.
  - by apply elem_of_nil in H1.
  - apply list_elem_of_filter in H1 as [E1 H1], H2 as [E2 H2].
    rewrite fmap_cons in Hnd. apply NoDup_cons in Hnd as [Hr Hnd].
    apply elem_of_cons in H1 as [->|H1], H2 as [->|H2]; [done| | |].
    + exfalso. apply Hr. apply list_elem_of_fmap. exists r2. split; [congruence|done].
    + exfalso. apply Hr. apply list_elem_of_fmap. exists r1. split; [congruence|done].
    + apply IH; [done| |]; by apply list_elem_of_filter.
Qed.

Lemma joined_rows_unique m p r1 r2 :
  one_row_per_patient (_get_demographics m) →
  r1 ∈ joined_rows m p → r2 ∈ joined_rows m p → r1 = r2.
Proof.
  intros Hnd. unfold joined_rows, merge_rows. destruct (negb _).
  - destruct (matching_rows _ p) as [|r0 ms] eqn:E.
    + by intros ->%list_elem_of_singleton ->%list_elem_of_singleton.
    + rewrite <- E. intros (s1 & -> & H1)%list_elem_of_fmap (s2 & -> & H2)%list_elem_of_fmap.
      f_equal. by apply (matching_rows_unique (_get_demographics m) p).
  - by intros ->%list_elem_of_singleton ->%list_elem_of_singleton.
Qed.

(** Names that pass the truthiness tests. *)
Lemma truthy_idem o : FieldResolver.truthy (FieldResolver.truthy o) = FieldResolver.truthy o.
Proof. by destruct o as [[|a s]|]. Qed.

Lemma truthy_resolve_filter_field R field df :
  field ≠ "" →
  FieldResolver.truthy (_resolve_filter_field R field df) = _resolve_filter_field R field df.
Proof.
  intros Hne. unfold _resolve_filter_field. destruct (has_column df field).
  - by destruct field.
  - apply truthy_idem.
Qed.

Lemma select_pure df (f : row → bool) :
  ∃ df', select df (λ r, Ok (f r)) = Ok df' ∧ columns df' = columns df ∧
         ∀ r, r ∈ rows df' ↔ r ∈ rows df ∧ f r = true.
Proof.
  destruct (select_rows_total (λ r, Ok (f r)) (rows df)) as [out Hout]; [by eexists|].
  exists {| columns := columns df; rows := out |}. unfold select. rewrite Hout.
  split; [done|]. split; [done|]. simpl. intros r.
  rewrite (select_rows_elem _ _ _ r Hout). split; intros [? ?]; split; congruence.
Qed.

(** [filter_cohort], read off its result. *)
Lemma filter_cohort_ok m source_cohort name filters custom_filter m' c :
  filter_cohort m source_cohort name filters custom_filter = Ok (m', c) ↔
  ∃ source df0 df1 df2,
    _cohorts m !! source_cohort = Some source ∧
    working_frame m source = Ok df0 ∧
    apply_filters (field_resolver m) df0 (default [] filters) = Ok df1 ∧
    apply_custom df1 custom_filter = Ok df2 ∧
    c = drop_duplicates ((λ r, cell r "FACPATID") <$> rows df2) ∧
    m' = {| tables := tables m;
            _cohorts := <[name := c]> (_cohorts m);
            field_resolver := field_resolver m;
            _demographics_with_age := _demographics_with_age m |}.
Proof.
  unfold filter_cohort.
  destruct (_cohorts m !! source_cohort) as [source|]; split.
  - intros H.
    apply bind_ok in H as (df0 & H0 & H). apply bind_ok in H as (df1 & H1 & H).
    apply bind_ok in H as (df2 & H2 & H). injection H as <- <-.
    by exists source, df0, df1, df2.
  - intros (s & df0 & df1 & df2 & [= <-] & H0 & H1 & H2 & -> & ->).
    rewrite H0. simpl. rewrite H1. simpl.
    rewrite H2. done.
  - done.
  - by intros (? & ? & ? & ? & [=] & _).
Qed.

(** The outcome of [filter_cohort] is decided by the resolver, the derived
    demographics and the source cohort; not by the target name, nor by
    the other cohorts. *)
Lemma filter_cohort_depends m1 m2 source_cohort n1 n2 filters custom_filter :
  field_resolver m1 = field_resolver m2 →
  _get_demographics m1 = _get_demographics m2 →
  _cohorts m1 !! source_cohort = _cohorts m2 !! source_cohort →
  snd <$> filter_cohort m1 source_cohort n1 filters custom_filter
  = snd <$> filter_cohort m2 source_cohort n2 filters custom_filter.
Proof.
  intros HR HD HS. unfold filter_cohort, working_frame. rewrite HR, HD, HS.
  destruct (_cohorts m2 !! source_cohort) as [source|]; [|done].
  destruct (if negb _ then _ else _) as [df0|e]; [simpl|done].
  destruct (apply_filters _ _ _) as [df1|e]; [simpl|done].
  by destruct (apply_custom _ _) as [df2|e].
Qed.

End CohortManagerFacts.

Import CohortManager CohortManagerFacts.

(** ** Filtering narrows *)

(** C1. A cohort made by [filter_cohort] is stored under the target name and
    its patient identifiers all belong to the cohort that was stored under
    [source_cohort] when the call was made, whatever the filters and the
    custom predicate. *)
Theorem filter_cohort_subset m source_cohort name filters custom_filter m' c :
  filter_cohort m source_cohort name filters custom_filter = Ok (m', c) →
  ∃ source,
    _cohorts m !! source_cohort = Some source ∧
    _cohorts m' !! name = Some c ∧
    patient_set c ⊆ patient_set source.
Proof.
  intros (source & df0 & df1 & df2 & Hs & H0 & H1 & H2 & -> & ->)%filter_cohort_ok.
  exists source. split; [done|]. split; [simpl; apply lookup_insert_eq|].
  intros p. unfold patient_set. rewrite !elem_of_list_to_set, elem_of_drop_duplicates.
  intros (r & -> & Hr)%list_elem_of_fmap.
  apply (working_frame_ids m source df0); [done|].
  apply apply_custom_sub_frame in H2 as [_ H2].
  apply apply_filters_sub_frame in H1 as [_ H1]. auto.
Qed.

Lemma filter_cohort_subset_witness :
  ∃ source,
    _cohorts Examples.manager !! "base" = Some source ∧
    _cohorts Examples.with_dmd.1 !! "dmd" = Some Examples.with_dmd.2 ∧
    patient_set Examples.with_dmd.2 ⊆ patient_set source.
Proof.
  apply (filter_cohort_subset Examples.manager "base" "dmd" Examples.dmd_filter None).
  vm_compute. reflexivity.
Defined.

(** ** Filtering is a function of the store and the source *)

(** C8. Over one Tabular Store (tables, derived demographics and resolver)
    and one source cohort, two calls of [filter_cohort] with the same filters
    and custom predicate give the same outcome, and so cohorts with the same
    patients, whatever the two target names and whatever else the two
    managers hold. *)
Theorem filter_cohort_deterministic m1 m2 source_cohort n1 n2 filters custom_filter :
  tables m1 = tables m2 →
  _demographics_with_age m1 = _demographics_with_age m2 →
  field_resolver m1 = field_resolver m2 →
  _cohorts m1 !! source_cohort = _cohorts m2 !! source_cohort →
  snd <$> filter_cohort m1 source_cohort n1 filters custom_filter
  = snd <$> filter_cohort m2 source_cohort n2 filters custom_filter.
Proof.
  intros HT HD HR HS. apply filter_cohort_depends; [done| |done].
  unfold _get_demographics. by rewrite HT, HD.
Qed.

Lemma filter_cohort_deterministic_witness :
  snd <$> filter_cohort Examples.manager "base" "dmd" Examples.dmd_filter None
  = snd <$> filter_cohort Examples.with_dmd.1 "base" "dmd_again" Examples.dmd_filter None.
Proof.
  apply (filter_cohort_deterministic Examples.manager Examples.with_dmd.1);
    vm_compute; reflexivity.
Defined.

(** ** What a call leaves alone *)

(** C10. A successful [filter_cohort] stores the new cohort under the target
    name and changes nothing else: the tables, the derived demographics and
    the resolver are the same, and every other name, the source included when
    it is not the target, maps to what it mapped to before. *)
Theorem filter_cohort_frame m source_cohort name filters custom_filter m' c :
  filter_cohort m source_cohort name filters custom_filter = Ok (m', c) →
  tables m' = tables m ∧
  _demographics_with_age m' = _demographics_with_age m ∧
  field_resolver m' = field_resolver m ∧
  _cohorts m' !! name = Some c ∧
  ∀ other, other ≠ name → _cohorts m' !! other = _cohorts m !! other.
Proof.
  intros (source & df0 & df1 & df2 & Hs & H0 & H1 & H2 & -> & ->)%filter_cohort_ok.
  simpl. repeat split; [apply lookup_insert_eq|].
  intros other Hne. by apply lookup_insert_ne.
Qed.

Lemma filter_cohort_frame_witness :
  tables Examples.with_dmd.1 = tables Examples.manager ∧
  _demographics_with_age Examples.with_dmd.1 = _demographics_with_age Examples.manager ∧
  field_resolver Examples.with_dmd.1 = field_resolver Examples.manager ∧
  _cohorts Examples.with_dmd.1 !! "dmd" = Some Examples.with_dmd.2 ∧
  ∀ other, other ≠ "dmd" →
    _cohorts Examples.with_dmd.1 !! other = _cohorts Examples.manager !! other.
Proof.
  apply (filter_cohort_frame Examples.manager "base" "dmd" Examples.dmd_filter None).
  vm_compute. reflexivity.
Defined.


(** ** The registry partition *)

Lemma filter_cohort_registry m source_cohort name source df col b :
  _cohorts m !! source_cohort = Some source →
  working_frame m source = Ok df →
  _resolve_filter_field (field_resolver m) "registry" df = Some col →
  ∃ c,
    snd <$> filter_cohort m source_cohort name (registry_filter b) None = Ok c ∧
    ∀ p, p ∈ c ↔
      ∃ r, r ∈ rows df ∧ cell r "FACPATID" = p ∧ py_eq (cell r col) (VBool true) = b.
Proof.
  intros Hs H0 Hcol.
  assert (FieldResolver.truthy (_resolve_filter_field (field_resolver m) "registry" df)
          = Some col) as Ht.
  { by rewrite truthy_resolve_filter_field. }
  destruct (select_pure df
    (λ r, if b then py_eq (cell r col) (VBool true) else py_ne (cell r col) (VBool true)))
    as (df' & E & _ & Hrows).
  exists (drop_duplicates ((λ r, cell r "FACPATID") <$> rows df')). split.
  - unfold filter_cohort. rewrite Hs. simpl. rewrite H0. simpl.
    unfold _apply_registry_filter. rewrite Ht.
    destruct b; simpl; simpl in E; rewrite E; done.
  - intros p. rewrite elem_of_drop_duplicates, list_elem_of_fmap. split.
    + intros (r & -> & Hr). apply Hrows in Hr as [Hr Hb]. exists r.
      split; [done|]. split; [done|]. unfold py_ne in Hb.
      destruct b; [done|]. by apply negb_true_iff in Hb.
    + intros (r & Hr & <- & Hb). exists r. split; [done|]. apply Hrows.
      split; [done|]. unfold py_ne. destruct b; [done|]. by apply negb_true_iff.
Qed.

(** Without a registry column the registry filter does nothing. *)
Lemma _apply_registry_filter_unresolved R df value :
  _resolve_filter_field R "registry" df = None →
  _apply_registry_filter R df value = Ok df.
Proof. intros H. unfold _apply_registry_filter. by rewrite H. Qed.

Lemma filter_cohort_no_registry m source_cohort name source df b :
  _cohorts m !! source_cohort = Some source →
  working_frame m source = Ok df →
  _resolve_filter_field (field_resolver m) "registry" df = None →
  ∃ c,
    snd <$> filter_cohort m source_cohort name (registry_filter b) None = Ok c ∧
    patient_set c = patient_set source.
Proof.
  intros Hs H0 Hcol.
  exists (drop_duplicates ((λ r, cell r "FACPATID") <$> rows df)). split.
  - unfold filter_cohort. rewrite Hs, H0, ok_bind.
    change (default [] (registry_filter b)) with [("registry", FScalar (VBool b))].
    cbn [apply_filters]. unfold apply_filter. rewrite decide_True by done.
    rewrite (_apply_registry_filter_unresolved _ _ _ Hcol), !ok_bind.
    cbn [apply_custom]. rewrite ok_bind, ok_fmap. reflexivity.
  - rewrite patient_set_drop_duplicates. apply set_eq. intros p.
    unfold patient_set. rewrite !elem_of_list_to_set, list_elem_of_fmap. split.
    + intros (r & -> & Hr). by apply (working_frame_ids m source df).
    + intros Hp. destruct (working_frame_covers m source df p H0 Hp) as (r & Hr & K).
      by exists r.
Qed.

(** C2, as the code has it.  When the registry field resolves to a column
    of the joined table and the derived demographics hold at most one row
    per patient identifier, the cohorts of [{"registry": True}] and of
    [{"registry": False}] over one source are disjoint and their union is
    the source; each patient goes by the registry cell of its row, the first
    cohort when the cell equals [True], the second otherwise (a null cell,
    and the nulls of a patient without a demographics row, included).  When
    the registry field resolves to no column, [_apply_registry_filter]
    returns its input unchanged, whatever the table and the value, and both
    calls return all the patients of the source. *)
Theorem registry_partition m source_cohort n1 n2 source df :
  _cohorts m !! source_cohort = Some source →
  working_frame m source = Ok df →
  (is_Some (_resolve_filter_field (field_resolver m) "registry" df) →
   one_row_per_patient (_get_demographics m) →
   ∃ col c1 c2,
     _resolve_filter_field (field_resolver m) "registry" df = Some col ∧
     snd <$> filter_cohort m source_cohort n1 (registry_filter true) None = Ok c1 ∧
     snd <$> filter_cohort m source_cohort n2 (registry_filter false) None = Ok c2 ∧
     patient_set c1 ## patient_set c2 ∧
     patient_set c1 ∪ patient_set c2 = patient_set source ∧
     ∀ r, r ∈ rows df →
       cell r "FACPATID" ∈ (if py_eq (cell r col) (VBool true) then c1 else c2)) ∧
  (∀ R table value,
     _resolve_filter_field R "registry" table = None →
     _apply_registry_filter R table value = Ok table) ∧
  (_resolve_filter_field (field_resolver m) "registry" df = None →
   ∃ c1 c2,
     snd <$> filter_cohort m source_cohort n1 (registry_filter true) None = Ok c1 ∧
     snd <$> filter_cohort m source_cohort n2 (registry_filter false) None = Ok c2 ∧
     patient_set c1 = patient_set source ∧
     patient_set c2 = patient_set source).
Proof.
  intros Hs H0. split; [|split].
  - intros [col Hcol] Hnd. exists col.
    destruct (filter_cohort_registry m source_cohort n1 source df col true Hs H0 Hcol)
      as (c1 & E1 & Hc1).
    destruct (filter_cohort_registry m source_cohort n2 source df col false Hs H0 Hcol)
      as (c2 & E2 & Hc2).
    exists c1, c2. repeat split; try done.
    + intros p. unfold patient_set. rewrite !elem_of_list_to_set, Hc1, Hc2.
      intros (r1 & Hr1 & K1 & B1) (r2 & Hr2 & K2 & B2).
      apply (elem_of_working_frame _ _ _ _ H0) in Hr1 as [_ Hr1], Hr2 as [_ Hr2].
      rewrite K1 in Hr1. rewrite K2 in Hr2.
      assert (r1 = r2) as -> by by apply (joined_rows_unique m p).
      congruence.
    + apply set_eq. intros p. unfold patient_set.
      rewrite elem_of_union, !elem_of_list_to_set, Hc1, Hc2. split.
      * intros [(r & Hr & <- & _)|(r & Hr & <- & _)]; by apply (working_frame_ids m source df).
      * intros Hp. destruct (working_frame_covers m source df p H0 Hp) as (r & Hr & K).
        destruct (py_eq (cell r col) (VBool true)) eqn:B; [left | right]; by exists r.
    + intros r Hr. destruct (py_eq (cell r col) (VBool true)) eqn:B.
      * apply Hc1. by exists r.
      * apply Hc2. by exists r.
  - intros R table value. apply _apply_registry_filter_unresolved.
  - intros Hcol.
    destruct (filter_cohort_no_registry m source_cohort n1 source df true Hs H0 Hcol)
      as (c1 & E1 & Hc1).
    destruct (filter_cohort_no_registry m source_cohort n2 source df false Hs H0 Hcol)
      as (c2 & E2 & Hc2).
    by exists c1, c2.
Qed.

Lemma registry_partition_witness :
  (is_Some (_resolve_filter_field Examples.resolver "registry" Examples.demographics) →
   one_row_per_patient Examples.demographics →
   ∃ col c1 c2,
     _resolve_filter_field Examples.resolver "registry" Examples.demographics = Some col ∧
     snd <$> filter_cohort Examples.manager "base" "usndr" (registry_filter true) None
       = Ok c1 ∧
     snd <$> filter_cohort Examples.manager "base" "datahub" (registry_filter false) None
       = Ok c2 ∧
     patient_set c1 ## patient_set c2 ∧
     patient_set c1 ∪ patient_set c2
       = patient_set [Examples.P1; Examples.P2; Examples.P3; Examples.P4] ∧
     ∀ r, r ∈ rows Examples.demographics →
       cell r "FACPATID" ∈ (if py_eq (cell r col) (VBool true) then c1 else c2)) ∧
  (∀ R table value,
     _resolve_filter_field R "registry" table = None →
     _apply_registry_filter R table value = Ok table) ∧
  (_resolve_filter_field Examples.resolver "registry" Examples.demographics = None →
   ∃ c1 c2,
     snd <$> filter_cohort Examples.manager "base" "usndr" (registry_filter true) None
       = Ok c1 ∧
     snd <$> filter_cohort Examples.manager "base" "datahub" (registry_filter false) None
       = Ok c2 ∧
     patient_set c1 = patient_set [Examples.P1; Examples.P2; Examples.P3; Examples.P4] ∧
     patient_set c2 = patient_set [Examples.P1; Examples.P2; Examples.P3; Examples.P4]).
Proof.
  apply (registry_partition Examples.manager "base" "usndr" "datahub"
           [Examples.P1; Examples.P2; Examples.P3; Examples.P4] Examples.demographics).
  - vm_compute. reflexivity.
  - vm_compute. reflexivity.
Defined.

(** C2 as stated fails where the registry field resolves to no column: both
    calls then return the whole source. *)
Lemma registry_partition_counterexample :
  snd <$> filter_cohort Examples.no_registry "base" "usndr" (registry_filter true) None
    = Ok [Examples.P1; Examples.P2] ∧
  snd <$> filter_cohort Examples.no_registry "base" "datahub" (registry_filter false) None
    = Ok [Examples.P1; Examples.P2] ∧
  ¬ (patient_set [Examples.P1; Examples.P2] ## patient_set [Examples.P1; Examples.P2]).
Proof.
  split; [by vm_compute|]. split; [by vm_compute|].
  intros H. apply (H Examples.P1); unfold patient_set; apply elem_of_list_to_set; by left.
Qed.

(** It also fails where one patient has two demographics rows that disagree
    on the registry: the patient is in both cohorts. *)
Lemma registry_partition_two_rows :
  snd <$> filter_cohort Examples.two_rows "base" "usndr" (registry_filter true) None
    = Ok [Examples.P1] ∧
  snd <$> filter_cohort Examples.two_rows "base" "datahub" (registry_filter false) None
    = Ok [Examples.P1].
Proof. split; by vm_compute. Qed.

(** ** Filters compose *)

Lemma frame_equiv_refl df : frame_equiv df df.
Proof. by split. Qed.

Lemma select_agree df df' p :
  frame_equiv df df' → frames_agree (select df p) (select df' p).
Proof.
  intros [Hc Hr]. unfold select.
  destruct (select_rows p (rows df)) as [out|e] eqn:E,
           (select_rows p (rows df')) as [out'|e'] eqn:E'; simpl; try done.
  - split; [done|]. simpl. intros r.
    rewrite (select_rows_elem _ _ _ r E), (select_rows_elem _ _ _ r E'). by rewrite Hr.
  - destruct (select_rows_total p (rows df')) as [out' Hout']; [|congruence].
    intros r Hr'. apply (select_rows_tests _ _ _ E). by apply Hr.
  - destruct (select_rows_total p (rows df)) as [out Hout]; [|congruence].
    intros r Hr'. apply (select_rows_tests _ _ _ E'). by apply Hr.
Qed.

Lemma bind_agree (r r' : result DataFrame) (k k' : DataFrame → result DataFrame) :
  frames_agree r r' →
  (∀ df df', frame_equiv df df' → frames_agree (k df) (k' df')) →
  frames_agree (r ≫= k) (r' ≫= k').
Proof. destruct r, r'; simpl; intros H Hk; try done. by apply Hk. Qed.

Module ComposeFacts.
Import CohortManager CohortManagerFacts.

Lemma has_column_columns df df' c :
  columns df = columns df' → has_column df c = has_column df' c.
Proof. unfold has_column. by intros ->. Qed.

Lemma resolve_columns R field df df' :
  columns df = columns df' →
  FieldResolver.resolve R field df = FieldResolver.resolve R field df'.
Proof.
  intros Hc. unfold FieldResolver.resolve. rewrite Hc.
  assert (has_column df = has_column df') as ->; [|done].
  unfold has_column. by rewrite Hc.
Qed.

Lemma _resolve_filter_field_columns R field df df' :
  columns df = columns df' →
  _resolve_filter_field R field df = _resolve_filter_field R field df'.
Proof.
  intros Hc. unfold _resolve_filter_field.
  by rewrite (has_column_columns df df' field Hc), (resolve_columns R field df df' Hc).
Qed.

Lemma apply_value_filter_agree df df' c v :
  frame_equiv df df' →
  frames_agree (apply_value_filter df c v) (apply_value_filter df' c v).
Proof.
  intros He. destruct v as [d|t|l|v]; simpl.
  - apply bind_agree.
    + destruct (assoc "min" d); [by apply select_agree | done].
    + intros d1 d1' He1. destruct (assoc "max" d); [by apply select_agree | done].
  - destruct t as [|lo [|hi [|? ?]]]; by apply select_agree.
  - by apply select_agree.
  - by apply select_agree.
Qed.

Lemma apply_filter_agree R df df' item :
  frame_equiv df df' →
  frames_agree (apply_filter R df item) (apply_filter R df' item).
Proof.
  intros He. destruct item as [field v]. unfold apply_filter, _apply_registry_filter.
  rewrite !(_resolve_filter_field_columns R _ df df' (proj1 He)).
  destruct (decide _).
  - destruct (FieldResolver.truthy _); [|done].
    destruct (selects_usndr v); by apply select_agree.
  - destruct (FieldResolver.truthy _); [|done]. by apply apply_value_filter_agree.
Qed.

Lemma frame_equiv_patients df df' :
  frame_equiv df df' →
  patient_set (drop_duplicates ((λ r, cell r "FACPATID") <$> rows df))
  = patient_set (drop_duplicates ((λ r, cell r "FACPATID") <$> rows df')).
Proof.
  intros [_ Hr]. rewrite !patient_set_drop_duplicates. apply set_eq. intros p.
  unfold patient_set. rewrite !elem_of_list_to_set, !list_elem_of_fmap.
  split; intros (r & -> & H); exists r; split; try done; by apply Hr.
Qed.

(** Joining anew the identifiers that survive a filter gives back the
    surviving rows, when each identifier has one row. *)
Lemma rejoin m source df0 df1 df0' :
  one_row_per_patient (_get_demographics m) →
  working_frame m source = Ok df0 →
  sub_frame df1 df0 →
  working_frame m (drop_duplicates ((λ r, cell r "FACPATID") <$> rows df1)) = Ok df0' →
  frame_equiv df0' df1.
Proof.
  intros Hnd H0 [Hc Hsub] H0'. split.
  - rewrite Hc. by apply (working_frame_columns m _ _ _ _ H0' H0).
  - intros r. rewrite (elem_of_working_frame _ _ _ r H0'), elem_of_drop_duplicates,
      list_elem_of_fmap. split.
    + intros [(r1 & K & Hr1) Hr].
      assert (r1 ∈ joined_rows m (cell r "FACPATID")) as Hj.
      { rewrite K. by apply (elem_of_working_frame _ _ _ r1 H0), Hsub. }
      by rewrite (joined_rows_unique m _ r r1 Hnd Hr Hj).
    + intros Hr. split; [by exists r|].
      by apply (elem_of_working_frame _ _ _ r H0), Hsub.
Qed.

Lemma py_dict_one {A} f (v : A) : py_dict [(f, v)] = [(f, v)].
Proof. reflexivity. Qed.

Lemma py_dict_two {A} f1 (v1 : A) f2 v2 :
  f1 ≠ f2 → py_dict [(f1, v1); (f2, v2)] = [(f1, v1); (f2, v2)].
Proof. intros Hne. unfold py_dict. simpl. by rewrite decide_False. Qed.

Lemma apply_filters_two R df i1 i2 :
  apply_filters R df [i1; i2] = apply_filter R df i1 ≫= λ d, apply_filter R d i2.
Proof.
  simpl. destruct (apply_filter R df i1) as [d|e]; [simpl|done].
  by destruct (apply_filter R d i2).
Qed.

Lemma apply_filters_one R df i1 : apply_filters R df [i1] = apply_filter R df i1.
Proof. simpl. by destruct (apply_filter R df i1). Qed.

Lemma filter_cohort_snd m source_cohort name filters :
  snd <$> filter_cohort m source_cohort name filters None
  = match _cohorts m !! source_cohort with
    | Some source =>
        run_filter m source (λ df0, apply_filters (field_resolver m) df0 (default [] filters))
    | None => Raise (ValueError ("Source cohort not found: " +:+ source_cohort))
    end.
Proof.
  unfold filter_cohort, run_filter.
  destruct (_cohorts m !! source_cohort) as [source|]; [|done].
  destruct (working_frame m source) as [df0|e]; [|done].
  rewrite !ok_bind. by destruct (apply_filters _ _ _).
Qed.

Lemma filter_twice_snd m source_cohort n1 n2 filters1 filters2 :
  snd <$> filter_twice m source_cohort n1 n2 filters1 filters2
  = match _cohorts m !! source_cohort with
    | Some source =>
        c1 ← run_filter m source
               (λ df0, apply_filters (field_resolver m) df0 (default [] filters1));
        run_filter m c1
          (λ df0, apply_filters (field_resolver m) df0 (default [] filters2))
    | None => Raise (ValueError ("Source cohort not found: " +:+ source_cohort))
    end.
Proof.
  unfold filter_twice. rewrite fmap_bind.
  pose proof (filter_cohort_snd m source_cohort n1 filters1) as H1.
  destruct (filter_cohort m source_cohort n1 filters1 None) as [[m1 c1]|e] eqn:E.
  - apply filter_cohort_ok in E as (source & df0 & df1 & df2 & Hs & H0 & Hf & [= <-] & Hc & Hm).
    rewrite Hs in H1 |- *. rewrite <- H1. rewrite !ok_bind, ok_fmap. simpl snd. simpl fst.
    rewrite filter_cohort_snd. subst m1. simpl _cohorts. rewrite lookup_insert_eq.
    done.
  - rewrite raise_bind. rewrite raise_fmap in H1.
    destruct (_cohorts m !! source_cohort); by rewrite <- H1.
Qed.

End ComposeFacts.

Import ComposeFacts.

(** ** FieldResolver *)

Module FieldResolverFacts.
Import FieldResolver.

Lemma first_Some {A} (p : A → bool) l x :
  first p l = Some x ↔ first_in (λ y, p y = true) l x.
Proof.
  induction l as [|a l IH]; simpl.
  - split; [done|]. intros (before & after & E & _). by destruct before.
  - destruct (p a) eqn:Hp.
    + split.
      * intros [= <-]. exists [], l. split; [done|]. split; [done|].
        by intros y ?%elem_of_nil.
      * intros ([|b before] & after & E & Hx & Hb).
        -- by injection E as ->.
        -- injection E as <- _. exfalso. apply (Hb a); [by left | done].
    + rewrite IH. split.
      * intros (before & after & -> & Hx & Hb). exists (a :: before), after.
        split; [done|]. split; [done|].
        intros y [->|Hy]%elem_of_cons; [congruence | by apply Hb].
      * intros ([|b before] & after & E & Hx & Hb).
        -- injection E as -> _. congruence.
        -- injection E as <- ->. exists before, after. split; [done|].
           split; [done|]. intros y Hy. apply Hb. by right.
Qed.

Lemma first_None {A} (p : A → bool) l :
  first p l = None ↔ ∀ y, y ∈ l → p y = false.
Proof.
  induction l as [|a l IH]; simpl.
  - split; [by intros _ y ?%elem_of_nil | done].
  - destruct (p a) eqn:Hp.
    + split; [done|]. intros H. specialize (H a). rewrite Hp in H.
      discriminate H. by left.
    + rewrite IH. split.
      * intros H y [->|Hy]%elem_of_cons; auto.
      * intros H y Hy. apply H. by right.
Qed.

Lemma first_in_iff {A} (P Q : A → Prop) l x :
  (∀ y, P y ↔ Q y) → first_in P l x ↔ first_in Q l x.
Proof.
  intros H. unfold first_in. split; intros (before & after & E & Hx & Hb);
    exists before, after; (split; [done|]); (split; [by apply H|]);
    intros y Hy Hq; apply (Hb y Hy); by apply H.
Qed.

Lemma first_in_unique {A} (P : A → Prop) l x y :
  first_in P l x → first_in P l y → x = y.
Proof.
  intros (b1 & a1 & E1 & Hx & Hb1) (b2 & a2 & E2 & Hy & Hb2). subst l.
  revert b2 E2 Hb2. induction b1 as [|z b1 IH]; intros [|w b2] E2 Hb2.
  - by injection E2.
  - injection E2 as -> _. exfalso. apply (Hb2 w); [by left | done].
  - injection E2 as -> _. exfalso. apply (Hb1 y); [by left | done].
  - injection E2 as -> E2. apply (IH (λ v Hv, Hb1 v (proj2 (elem_of_cons _ _ _) (or_intror Hv))) b2 E2).
    intros v Hv. apply Hb2. by right.
Qed.

Lemma first_in_elem {A} (P : A → Prop) l x : first_in P l x → x ∈ l ∧ P x.
Proof.
  intros (before & after & -> & Hx & _). split; [|done].
  apply elem_of_app. right. by left.
Qed.

Lemma has_column_true df c : has_column df c = true ↔ c ∈ columns df.
Proof. unfold has_column. apply bool_decide_eq_true. Qed.

Lemma has_column_false df c : has_column df c = false ↔ c ∉ columns df.
Proof. unfold has_column. apply bool_decide_eq_false. Qed.

(** The name tier 1 tries is the configured name of the specification. *)
Lemma truthy_mapped R c : truthy (mapped R c) = configured R c.
Proof.
  unfold mapped, configured.
  destruct (truthy (mjoin (_mappings R !! c))) as [m|] eqn:E; [|done].
  rewrite <- E. by destruct (mjoin (_mappings R !! c)) as [[|a s]|].
Qed.

Lemma mapped_of_configured R c m : configured R c = Some m → mapped R c = Some m.
Proof.
  rewrite <- truthy_mapped. destruct (mapped R c) as [[|a s]|]; simpl; congruence.
Qed.

Lemma lower_tiers_sound R c df :
  tier1_fails R c df →
  resolves R c df
    match first (λ col, bool_decide (lower col = lower c)) (columns df) with
    | Some col => Some col
    | None => first (has_column df) (default [] (assoc c fallbacks))
    end.
Proof.
  intros H1. destruct (first _ (columns df)) as [col|] eqn:E2.
  - apply resolves_same_name; [done|]. apply first_Some in E2.
    apply (first_in_iff _ (same_name c)) in E2; [done|].
    intros y. apply bool_decide_eq_true.
  - assert (tier2_fails c df) as H2.
    { intros col Hcol. pose proof (proj1 (first_None _ _) E2 col Hcol) as Hf.
      by apply bool_decide_eq_false in Hf. }
    fold (synonyms c). destruct (first _ (synonyms c)) as [s|] eqn:E3.
    + apply resolves_synonym; [done..|]. apply first_Some in E3.
      apply (first_in_iff _ (λ s, s ∈ columns df)) in E3; [done|].
      intros y. apply has_column_true.
    + apply resolves_nothing; [done..|]. intros s Hs.
      apply has_column_false. by apply (proj1 (first_None _ _) E3).
Qed.

Lemma resolve_sound R c df : resolves R c df (resolve R c df).
Proof.
  unfold resolve. rewrite truthy_mapped.
  destruct (configured R c) as [m|] eqn:Hm; simpl.
  - destruct (has_column df m) eqn:Hcol.
    + rewrite (mapped_of_configured _ _ _ Hm). apply resolves_mapped; [done|].
      by apply has_column_true.
    + apply lower_tiers_sound. intros m' Hm'. rewrite Hm in Hm'.
      injection Hm' as <-. by apply has_column_false.
  - apply lower_tiers_sound. intros m' Hm'. rewrite Hm in Hm'. discriminate Hm'.
Qed.

(** The tiers exclude one another, so the relation has one answer. *)
Lemma resolves_functional R c df o1 o2 :
  resolves R c df o1 → resolves R c df o2 → o1 = o2.
Proof.
  intros H1 H2.
  destruct H1 as [m Hm Hcol | col Ht1 Hf | s Ht1 Ht2 Hf | Ht1 Ht2 Hn];
  destruct H2 as [m' Hm' Hcol' | col' Ht1' Hf' | s' Ht1' Ht2' Hf' | Ht1' Ht2' Hn'];
    try congruence;
    try (exfalso; by eapply Ht1);
    try (exfalso; by eapply Ht1').
  - f_equal. by eapply first_in_unique.
  - exfalso. apply first_in_elem in Hf as [? ?]. by eapply Ht2'.
  - exfalso. apply first_in_elem in Hf as [? ?]. by eapply Ht2'.
  - exfalso. apply first_in_elem in Hf' as [? ?]. by eapply Ht2.
  - f_equal. by eapply first_in_unique.
  - exfalso. apply first_in_elem in Hf as [? ?]. by eapply Hn'.
  - exfalso. apply first_in_elem in Hf' as [? ?]. by eapply Ht2.
  - exfalso. apply first_in_elem in Hf' as [? ?]. by eapply Hn.
Qed.

End FieldResolverFacts.

(** C7. [resolve] answers by three tiers in strict order: the configured
    name (the built-in default where nothing is configured) when it is a
    column of the dataset; failing that, the first column that equals the
    canonical name up to case; failing that, the first hardcoded synonym of
    the canonical name that is a column; failing all three, nothing. *)
Theorem resolve_three_tiers R canonical_name df o :
  FieldResolver.resolve R canonical_name df = o ↔
  FieldResolver.resolves R canonical_name df o.
Proof.
  split.
  - intros <-. apply FieldResolverFacts.resolve_sound.
  - intros H. eapply FieldResolverFacts.resolves_functional; [|done].
    apply FieldResolverFacts.resolve_sound.
Qed.

Lemma resolve_three_tiers_witness :
  FieldResolver.resolves Examples.resolver "Gender" Examples.demographics (Some "gender").
Proof.
  apply (resolve_three_tiers Examples.resolver "Gender" Examples.demographics).
  vm_compute. reflexivity.
Defined.

(** ** EnrollmentValidator *)

Module EnrollmentFacts.
Import EnrollmentValidator.

Implicit Types (tables : gmap string DataFrame) (forms : list string).
Implicit Types (df : DataFrame) (p : value) (f : string).

Lemma elem_of_ids_of df p :
  p ∈ ids_of df ↔ ∃ r, r ∈ rows df ∧ cell r "FACPATID" = p.
Proof.
  unfold ids_of. rewrite elem_of_list_to_set, list_elem_of_fmap.
  split; intros (r & ? & ?); by exists r.
Qed.

Lemma patients_of_keyed df :
  has_column df "FACPATID" = true → patients_of df = Ok (ids_of df).
Proof. unfold patients_of, column_values. by intros ->. Qed.

Lemma patients_of_unkeyed df :
  has_column df "FACPATID" = false → patients_of df = Raise (KeyError "FACPATID").
Proof. unfold patients_of, column_values. by intros ->. Qed.

Lemma elem_of_foldl_intersection (s : gset value) sets p :
  p ∈ foldl (∩) s sets ↔ p ∈ s ∧ ∀ s', s' ∈ sets → p ∈ s'.
Proof.
  revert s. induction sets as [|s0 sets IH]; intros s; simpl.
  - split; [intros ?; split; [done|by intros ? ?%elem_of_nil] | by intros [? _]].
  - rewrite IH, elem_of_intersection. split.
    + intros [[Hs Hs0] Hall]. split; [done|]. intros s' [->|Hs']%elem_of_cons; auto.
    + intros [Hs Hall]. split; [split; [done|apply Hall; by left]|].
      intros s' Hs'. apply Hall. by right.
Qed.

Lemma elem_of_foldl_union (s : gset value) sets p :
  p ∈ foldl (∪) s sets ↔ p ∈ s ∨ ∃ s', s' ∈ sets ∧ p ∈ s'.
Proof.
  revert s. induction sets as [|s0 sets IH]; intros s; simpl.
  - split; [by left | by intros [?|(? & ?%elem_of_nil & _)]].
  - rewrite IH, elem_of_union. split.
    + intros [[?|?]|(s' & ? & ?)]; [by left | right; exists s0 | right; exists s'];
        (split; [|done]); [by left | by right].
    + intros [?|(s' & [->|?]%elem_of_cons & ?)]; [by left; left | by left; right |].
      right. by exists s'.
Qed.

Lemma elem_of_set_intersection sets p :
  p ∈ set_intersection sets ↔ sets ≠ [] ∧ ∀ s, s ∈ sets → p ∈ s.
Proof.
  destruct sets as [|s sets]; simpl.
  - split; [by intros ?%elem_of_empty | by intros [? _]].
  - rewrite elem_of_foldl_intersection. split.
    + intros [Hs Hall]. split; [done|]. intros s' [->|Hs']%elem_of_cons; auto.
    + intros [_ Hall]. split; [apply Hall; by left|].
      intros s' Hs'. apply Hall. by right.
Qed.

Lemma elem_of_set_union sets p :
  p ∈ set_union sets ↔ ∃ s, s ∈ sets ∧ p ∈ s.
Proof.
  destruct sets as [|s sets]; simpl.
  - split; [by intros ?%elem_of_empty | by intros (? & ?%elem_of_nil & _)].
  - rewrite elem_of_foldl_union. split.
    + intros [?|(s' & ? & ?)]; [exists s | exists s']; (split; [|done]);
        [by left | by right].
    + intros (s' & [->|?]%elem_of_cons & ?); [by left|]. right. by exists s'.
Qed.

Lemma elem_of_universe tables forms p :
  p ∈ universe tables forms ↔ ∃ f, f ∈ forms ∧ p ∈ form_set tables f.
Proof.
  unfold universe. rewrite elem_of_union_list. split.
  - intros (s & (f & -> & Hf)%list_elem_of_fmap & Hp). by exists f.
  - intros (f & Hf & Hp). exists (form_set tables f). split; [|done].
    apply list_elem_of_fmap. by exists f.
Qed.

(** The sets [get_enrolled_patients] collects: one for each required form
    the store holds, in order. *)
Lemma collect_patient_sets_keyed tables forms :
  patient_keyed tables forms →
  collect_patient_sets tables forms
  = Ok (omap (λ f, ids_of <$> tables !! f) forms).
Proof.
  induction forms as [|f forms IH]; intros Hk; [done|]. simpl.
  assert (patient_keyed tables forms) as Hk'.
  { intros f' df Hf'. apply Hk. by right. }
  rewrite (IH Hk'). destruct (tables !! f) as [df|] eqn:E; simpl; [|done].
  rewrite (patients_of_keyed df); [done|]. apply (Hk f); [by left | done].
Qed.

Lemma elem_of_collected tables forms (s : gset value) :
  s ∈ omap (λ f, ids_of <$> tables !! f) forms ↔
  ∃ f df, f ∈ forms ∧ tables !! f = Some df ∧ s = ids_of df.
Proof.
  rewrite list_elem_of_omap. split.
  - intros (f & Hf & E). destruct (tables !! f) as [df|] eqn:Edf; [|done].
    injection E as <-. by exists f, df.
  - intros (f & df & Hf & E & ->). exists f. split; [done|]. by rewrite E.
Qed.

Lemma collected_nil tables forms :
  omap (λ f, ids_of <$> tables !! f) forms = [] ↔ ∀ f, f ∈ forms → tables !! f = None.
Proof.
  induction forms as [|f forms IH]; simpl.
  - split; [by intros _ f ?%elem_of_nil | done].
  - destruct (tables !! f) as [df|] eqn:E; simpl.
    + split; [done|]. intros H. specialize (H f). rewrite E in H.
      discriminate H. by left.
    + rewrite IH. split.
      * intros H f' [->|?]%elem_of_cons; auto.
      * intros H f' ?. apply H. by right.
Qed.

(** The dict [validate_enrollment] fills. *)
Lemma collect_form_patients_keyed tables forms acc :
  patient_keyed tables forms →
  ∃ form_patients,
    collect_form_patients tables forms acc = Ok form_patients ∧
    ∀ f, form_patients !! f
         = if decide (f ∈ forms) then Some (form_set tables f) else acc !! f.
Proof.
  revert acc. induction forms as [|f0 forms IH]; intros acc Hk; simpl.
  - exists acc. split; [done|]. intros f.
    by destruct (decide (f ∈ [])) as [?%elem_of_nil|].
  - assert (patient_keyed tables forms) as Hk'.
    { intros f' df Hf'. apply Hk. by right. }
    assert (∃ form_patients,
      collect_form_patients tables forms (<[f0 := form_set tables f0]> acc)
        = Ok form_patients ∧
      ∀ f, form_patients !! f
           = if decide (f ∈ forms) then Some (form_set tables f)
             else <[f0 := form_set tables f0]> acc !! f) as (fp & E & Hfp).
    { by apply IH. }
    exists fp. split.
    + unfold form_set in E at 1. destruct (tables !! f0) as [df|] eqn:Edf; [|done].
      rewrite (patients_of_keyed df); [done|]. apply (Hk f0); [by left | done].
    + intros f. rewrite Hfp. destruct (decide (f ∈ forms)) as [Hin|Hnin].
      * rewrite decide_True; [done | by right].
      * destruct (decide (f = f0)) as [->|Hne].
        -- rewrite lookup_insert_eq, decide_True; [done | by left].
        -- rewrite lookup_insert_ne by done. rewrite decide_False; [done|].
           by intros [?|?]%elem_of_cons.
Qed.

Lemma elem_of_values (form_patients : gmap string (gset value)) s :
  s ∈ (map_to_list form_patients).*2 ↔ ∃ f, form_patients !! f = Some s.
Proof.
  rewrite list_elem_of_fmap. split.
  - intros ([f s'] & -> & H%elem_of_map_to_list). by exists f.
  - intros (f & H). exists (f, s). split; [done|]. by apply elem_of_map_to_list.
Qed.

End EnrollmentFacts.

Import EnrollmentValidator EnrollmentFacts.

Implicit Types (tables : gmap string DataFrame) (required_forms : option (list string)).

(** C4. Over required forms that are keyed by patient where the store holds
    them, [get_enrolled_patients] returns, without repetition, exactly the
    identifiers present in every required form that the store holds, absent
    forms being skipped; it raises its "no required forms" error if and only
    if the store holds none of the required forms. *)
Theorem get_enrolled_patients_spec tables required_forms :
  let forms := default default_required_forms required_forms in
  patient_keyed tables forms →
  match get_enrolled_patients tables required_forms with
  | Ok enrolled =>
      (∃ f, f ∈ forms ∧ is_Some (tables !! f)) ∧
      NoDup enrolled ∧
      ∀ p, p ∈ enrolled ↔
           ∀ f df, f ∈ forms → tables !! f = Some df → p ∈ ids_of df
  | Raise e =>
      e = ValueError "No required forms found in tables" ∧
      ∀ f, f ∈ forms → tables !! f = None
  end.
Proof.
  intros forms Hk. unfold get_enrolled_patients. fold forms.
  rewrite (collect_patient_sets_keyed tables forms Hk), ok_bind.
  destruct (omap _ forms) as [|s sets] eqn:E.
  - split; [done|]. by apply collected_nil.
  - assert (s ∈ omap (λ f, ids_of <$> tables !! f) forms) as Hs by (rewrite E; by left).
    apply elem_of_collected in Hs as (f & df & Hf & Hdf & _).
    split; [by exists f|]. split; [apply NoDup_elements|].
    intros p. rewrite elem_of_elements, elem_of_foldl_intersection. split.
    + intros [Hp Hps] f' df' Hf' Hdf'.
      assert (ids_of df' ∈ s :: sets) as [->|?]%elem_of_cons; auto.
      rewrite <- E. apply elem_of_collected. by exists f', df'.
    + intros H. split.
      * assert (s ∈ omap (λ f, ids_of <$> tables !! f) forms) as Hs by (rewrite E; by left).
        apply elem_of_collected in Hs as (f' & df' & Hf' & Hdf' & ->). eauto.
      * intros s' Hs'.
        assert (s' ∈ omap (λ f, ids_of <$> tables !! f) forms) as Hs by (rewrite E; by right).
        apply elem_of_collected in Hs as (f' & df' & Hf' & Hdf' & ->). eauto.
Qed.

Lemma get_enrolled_patients_spec_witness :
  match get_enrolled_patients Examples.store (Some ["encounter_maindata"; "labs"; "diagnosis_maindata"]) with
  | Ok enrolled =>
      (∃ f, f ∈ ["encounter_maindata"; "labs"; "diagnosis_maindata"] ∧
            is_Some (Examples.store !! f)) ∧
      NoDup enrolled ∧
      ∀ p, p ∈ enrolled ↔
           ∀ f df, f ∈ ["encounter_maindata"; "labs"; "diagnosis_maindata"] →
                   Examples.store !! f = Some df → p ∈ ids_of df
  | Raise e =>
      e = ValueError "No required forms found in tables" ∧
      ∀ f, f ∈ ["encounter_maindata"; "labs"; "diagnosis_maindata"] →
           Examples.store !! f = None
  end.
Proof.
  apply (get_enrolled_patients_spec Examples.store
           (Some ["encounter_maindata"; "labs"; "diagnosis_maindata"])).
  intros f df Hf. simpl in Hf.
  repeat (apply elem_of_cons in Hf as [->|Hf]); [| | |by apply elem_of_nil in Hf];
    vm_compute; by intros [= <-].
Defined.

(** C6. Over required forms that are keyed by patient where the store holds
    them, [validate_enrollment] returns a report in which
    [total_unique_patients] is the size of the union of the per-form patient
    sets (an absent form counting as the empty set), [enrolled_count] is the
    size of their intersection and [enrolled_patients] lists it,
    [form_counts] maps each required form to the size of its set and
    [missing_by_form] maps it to the number of patients of the union that
    are not in its set; over an empty list of forms the report is all
    zeros. *)
Theorem validate_enrollment_report tables required_forms :
  let forms := default default_required_forms required_forms in
  patient_keyed tables forms →
  ∃ report,
    validate_enrollment tables required_forms = Ok report ∧
    total_unique_patients report = size (universe tables forms) ∧
    enrolled_count report = size (enrolled_set tables forms) ∧
    enrolled_patients report ≡ₚ elements (enrolled_set tables forms) ∧
    (∀ f, form_counts report !! f
          = if decide (f ∈ forms) then Some (size (form_set tables f)) else None) ∧
    (∀ f, missing_by_form report !! f
          = if decide (f ∈ forms)
            then Some (size (universe tables forms ∖ form_set tables f)) else None) ∧
    (forms = [] → report = empty_report).
Proof.
  intros forms Hk. unfold validate_enrollment. fold forms.
  destruct (collect_form_patients_keyed tables forms ∅ Hk) as (fp & E & Hfp).
  rewrite E, ok_bind. eexists. split; [done|].
  assert (∀ s, s ∈ (map_to_list fp).*2 ↔ ∃ f, f ∈ forms ∧ s = form_set tables f) as Hvalues.
  { intros s. rewrite elem_of_values. split.
    - intros (f & Hf). rewrite Hfp in Hf. destruct (decide (f ∈ forms)); [|done].
      injection Hf as <-. by exists f.
    - intros (f & Hf & ->). exists f. rewrite Hfp. by rewrite decide_True. }
  assert (set_union (map_to_list fp).*2 = universe tables forms) as Hunion.
  { apply set_eq. intros p. rewrite elem_of_set_union, elem_of_universe. split.
    - intros (s & (f & Hf & ->)%Hvalues & Hp). by exists f.
    - intros (f & Hf & Hp). exists (form_set tables f). split; [|done].
      apply Hvalues. by exists f. }
  assert (set_intersection (map_to_list fp).*2 = enrolled_set tables forms) as Hinter.
  { apply set_eq. intros p. unfold enrolled_set, in_every_form.
    rewrite elem_of_set_intersection, elem_of_filter, elem_of_universe, Forall_forall.
    split.
    - intros [Hne Hall].
      assert (∀ f, f ∈ forms → p ∈ form_set tables f) as Hall'.
      { intros f Hf. apply Hall, Hvalues. by exists f. }
      split; [done|]. destruct forms as [|f forms'] eqn:Eforms.
      + exfalso. apply Hne. destruct ((map_to_list fp).*2) as [|s ?] eqn:Ev; [done|].
        assert (s ∈ s :: l) as (f & ?%elem_of_nil & _)%Hvalues by by left. done.
      + exists f. split; [by left|]. apply Hall'. by left.
    - intros [Hall (f & Hf & Hp)]. split.
      + intros Hnil. assert (form_set tables f ∈ (map_to_list fp).*2) as Hin.
        { apply Hvalues. by exists f. }
        rewrite Hnil in Hin. by apply elem_of_nil in Hin.
      + intros s (f' & Hf' & ->)%Hvalues. by apply Hall. }
  unfold build_report. simpl. rewrite Hunion, Hinter.
  split; [done|]. split; [done|]. split; [done|]. split; [|split].
  - intros f. rewrite lookup_fmap, Hfp. by destruct (decide (f ∈ forms)).
  - intros f. rewrite !lookup_fmap, Hfp. by destruct (decide (f ∈ forms)).
  - intros Hnil. assert (fp = ∅) as ->.
    { apply map_eq. intros f. rewrite Hfp, Hnil, lookup_empty.
      by destruct (decide (f ∈ [])) as [?%elem_of_nil|]. }
    rewrite <- Hunion, <- Hinter. by vm_compute.
Qed.

Lemma validate_enrollment_report_witness :
  ∃ report,
    validate_enrollment Examples.store None = Ok report ∧
    total_unique_patients report = size (universe Examples.store default_required_forms) ∧
    enrolled_count report = size (enrolled_set Examples.store default_required_forms) ∧
    enrolled_patients report ≡ₚ elements (enrolled_set Examples.store default_required_forms) ∧
    (∀ f, form_counts report !! f
          = if decide (f ∈ default_required_forms)
            then Some (size (form_set Examples.store f)) else None) ∧
    (∀ f, missing_by_form report !! f
          = if decide (f ∈ default_required_forms)
            then Some (size (universe Examples.store default_required_forms
                             ∖ form_set Examples.store f)) else None) ∧
    (default_required_forms = [] → report = empty_report).
Proof.
  apply (validate_enrollment_report Examples.store None).
  intros f df Hf. simpl in Hf.
  repeat (apply elem_of_cons in Hf as [->|Hf]); [| | |by apply elem_of_nil in Hf];
    vm_compute; by intros [= <-].
Defined.

(** ** A literal column comes first *)

Lemma _resolve_filter_field_literal R f df :
  f ∈ columns df → _resolve_filter_field R f df = Some f.
Proof.
  intros Hf. unfold _resolve_filter_field.
  by rewrite (proj2 (FieldResolverFacts.has_column_true df f) Hf).
Qed.

Lemma truthy_nonempty f : f ≠ "" → FieldResolver.truthy (Some f) = Some f.
Proof. by destruct f. Qed.

(** C9, as the code has it.  A field name that is not the empty string and
    is literally a column of the working table is used as that column,
    whatever the resolver would map it to: [filter_cohort] applies the
    filter to column [f] (with the registry test when [f] is ["registry"]),
    and [get_cohort_summary] computes the block of [f] from column [f]. *)
Theorem literal_column_first R df f :
  f ∈ columns df →
  f ≠ "" →
  _resolve_filter_field R f df = Some f ∧
  (∀ v, apply_filter R df (f, v)
        = if decide (f = "registry")
          then if selects_usndr v
               then select df (λ r, Ok (py_eq (cell r f) (VBool true)))
               else select df (λ r, Ok (py_ne (cell r f) (VBool true)))
          else apply_value_filter df f v) ∧
  (∀ series_mean series_median series_min series_max round1 m name cohort s,
     field_resolver m = R →
     get_cohort m name = Ok cohort →
     empty (_get_demographics m) = false →
     merge cohort (_get_demographics m) = Ok df →
     get_cohort_summary series_mean series_median series_min series_max round1 m name = Ok s →
     block_from (describe_age series_mean series_median series_min series_max round1)
       s df f f).
Proof.
  intros Hf Hne. pose proof (_resolve_filter_field_literal R f df Hf) as Hres.
  split; [done|]. split.
  - intros v. unfold apply_filter, _apply_registry_filter.
    destruct (decide (f = "registry")) as [->|_].
    + by rewrite Hres.
    + by rewrite Hres, (truthy_nonempty f Hne).
  - intros series_mean series_median series_min series_max round1 m name cohort s
      <- Hc He Hm Hs.
    unfold get_cohort_summary in Hs. rewrite Hc, ok_bind, He, Hm, ok_bind in Hs.
    unfold summarize in Hs. apply bind_ok in Hs as (age & Hage & [= <-]).
    unfold block_from. simpl. repeat split; intros ->.
    + by rewrite Hres.
    + by rewrite Hres.
    + by rewrite Hres.
    + rewrite Hres in Hage. simpl in Hage.
      destruct (notna_any (cells df "age")); [|by injection Hage as <-].
      destruct (describe_age _ _ _ _ _ _) as [stats|e]; [|done].
      injection Hage as <-. by exists stats.
Qed.

Lemma literal_column_first_witness :
  _resolve_filter_field Examples.resolver "disease" Examples.both_columns = Some "disease" ∧
  apply_filter Examples.resolver Examples.both_columns ("disease", Examples.disease "DMD")
  = apply_value_filter Examples.both_columns "disease" (Examples.disease "DMD").
Proof.
  destruct (literal_column_first Examples.resolver Examples.both_columns "disease")
    as (H1 & H2 & _).
  - apply (bool_decide_unpack _). vm_compute. exact I.
  - discriminate.
  - split; [exact H1 | exact (H2 (Examples.disease "DMD"))].
Defined.

(** C9 as stated fails for a column labelled by the empty string: the
    truthiness test on the resolved name takes it for no name and the filter
    is skipped. *)
Lemma literal_column_first_counterexample :
  "" ∈ columns Examples.blank_column ∧
  apply_filter Examples.resolver Examples.blank_column ("", FScalar (VStr "x"))
    = Ok Examples.blank_column ∧
  apply_value_filter Examples.blank_column "" (FScalar (VStr "x"))
    = Ok {| columns := ["FACPATID"; ""];
            rows := [ [("FACPATID", Examples.P1); ("", VStr "x")] ] |} ∧
  snd <$> filter_cohort Examples.blank_manager "base" "x"
            (Some (py_dict [("", FScalar (VStr "x"))])) None
    = Ok [Examples.P1; Examples.P2].
Proof.
  split; [by right; left|]. split; [by vm_compute|]. split; by vm_compute.
Qed.

(** * Further properties of the cohort manager *)

Module FilterFacts.
Import CohortManager CohortManagerFacts ComposeFacts.

Implicit Types (m : t) (df : DataFrame) (r : row) (p : value).

Lemma select_elem df test df' r :
  select df test = Ok df' → r ∈ rows df' ↔ r ∈ rows df ∧ test r = Ok true.
Proof.
  unfold select. intros (rs & Hrs & [= <-])%bind_ok. simpl.
  by apply select_rows_elem.
Qed.

Lemma select_columns df test df' : select df test = Ok df' → columns df' = columns df.
Proof. unfold select. by intros (rs & Hrs & [= <-])%bind_ok. Qed.

Lemma select_ok df test :
  (∀ r, r ∈ rows df → ∃ b, test r = Ok b) → ∃ df', select df test = Ok df'.
Proof.
  intros H. destruct (select_rows_total test (rows df) H) as [rs Hrs].
  unfold select. rewrite Hrs. by eexists.
Qed.

(** One filter entry keeps the rows that pass it. *)
Lemma apply_value_filter_elem df c v df' r :
  apply_value_filter df c v = Ok df' →
  r ∈ rows df' ↔ r ∈ rows df ∧ value_passes c v r.
Proof.
  destruct v as [d|t|l|v]; simpl.
  - intros (df1 & H1 & H2)%bind_ok.
    assert (r ∈ rows df1 ↔
            r ∈ rows df ∧ ∀ lo, assoc "min" d = Some lo → py_ge (cell r c) lo = Ok true)
      as E1.
    { destruct (assoc "min" d) as [lo|].
      - rewrite (select_elem _ _ _ r H1). split.
        + intros [? ?]. split; [done|]. by intros ? [= <-].
        + intros [? H]. split; [done|]. by apply H.
      - injection H1 as <-. split; [by intros ?|by intros [? _]]. }
    destruct (assoc "max" d) as [hi|].
    + rewrite (select_elem _ _ _ r H2), E1. split.
      * intros [[? ?] ?]. split; [done|]. split; [done|]. by intros ? [= <-].
      * intros [? [? H]]. split; [done|]. by apply H.
    + injection H2 as <-. rewrite E1. split.
      * intros [? ?]. by repeat split.
      * intros [? [? _]]. by split.
  - destruct t as [|lo [|hi [|x t]]]; intros H; rewrite (select_elem _ _ _ r H).
    + split; [by intros [_ ?] | by intros [_ []]].
    + split; [by intros [_ ?] | by intros [_ []]].
    + split.
      * intros [? Ht]. split; [done|].
        destruct (py_ge (cell r c) lo) as [[]|]; simpl in Ht; try done;
        destruct (py_le (cell r c) hi) as [[]|]; simpl in Ht; done.
      * intros [? [-> ->]]. by split.
    + split; [by intros [_ ?] | by intros [_ []]].
  - intros H. rewrite (select_elem _ _ _ r H). split.
    + intros [? [= ?]]. by split.
    + intros [? ?]. split; [done|]. by f_equal.
  - intros H. rewrite (select_elem _ _ _ r H). split.
    + intros [? [= ?]]. by split.
    + intros [? ?]. split; [done|]. by f_equal.
Qed.

Lemma apply_filter_elem R df item df' r :
  apply_filter R df item = Ok df' →
  r ∈ rows df' ↔ r ∈ rows df ∧ passes R df item r.
Proof.
  destruct item as [field v]. unfold apply_filter, _apply_registry_filter, passes. simpl.
  destruct (decide (field = "registry")) as [->|Hne].
  - destruct (FieldResolver.truthy _) as [c|].
    + destruct (selects_usndr v); intros H; rewrite (select_elem _ _ _ r H).
      * split; [intros [? [= ?]]; by split | intros [? ?]; split; [done|]; by f_equal].
      * unfold py_ne. split.
        -- intros [? [= Hb]]. split; [done|]. by apply negb_true_iff.
        -- intros [? Hb]. split; [done|]. by rewrite Hb.
    + intros [= <-]. split; [by intros ? | by intros [? _]].
  - destruct (FieldResolver.truthy _) as [c|].
    + apply apply_value_filter_elem.
    + intros [= <-]. split; [by intros ? | by intros [? _]].
Qed.

Lemma apply_filter_columns R df item df' :
  apply_filter R df item = Ok df' → columns df' = columns df.
Proof. intros H. by apply apply_filter_sub_frame in H as [? _]. Qed.

Lemma passes_columns R df df' item r :
  columns df = columns df' → passes R df item r ↔ passes R df' item r.
Proof.
  intros Hc. unfold passes.
  by rewrite (_resolve_filter_field_columns R item.1 df df' Hc).
Qed.

Lemma apply_filters_elem R items df df' r :
  apply_filters R df items = Ok df' →
  r ∈ rows df' ↔ r ∈ rows df ∧ Forall (λ item, passes R df item r) items.
Proof.
  revert df. induction items as [|item items IH]; intros df; simpl.
  - intros [= <-]. split; [by intros ? | by intros [? _]].
  - intros (df1 & H1 & H2)%bind_ok.
    rewrite (IH _ H2), (apply_filter_elem _ _ _ _ r H1), Forall_cons.
    assert (Forall (λ item, passes R df1 item r) items
            ↔ Forall (λ item, passes R df item r) items) as ->.
    { apply Forall_proper; [|done]. intros it.
      apply passes_columns. by apply (apply_filter_columns R df item). }
    tauto.
Qed.

(** The source's identifiers survive the filters only through rows of the
    working table. *)
Lemma filter_cohort_elem_source m source_cohort name filters custom_filter m' c p :
  filter_cohort m source_cohort name filters custom_filter = Ok (m', c) →
  p ∈ c → ∃ source, _cohorts m !! source_cohort = Some source ∧ p ∈ source.
Proof.
  intros (source & df0 & df1 & df2 & Hs & H0 & H1 & H2 & -> & ->)%filter_cohort_ok Hp.
  exists source. split; [done|].
  apply elem_of_drop_duplicates, list_elem_of_fmap in Hp as (r & -> & Hr).
  apply (working_frame_ids m source df0); [done|].
  apply apply_custom_sub_frame in H2 as [_ H2].
  apply apply_filters_sub_frame in H1 as [_ H1]. auto.
Qed.

(** The patients a call without custom predicate keeps. *)
Lemma filter_cohort_rows m source_cohort name items m' c :
  filter_cohort m source_cohort name (Some items) None = Ok (m', c) →
  ∃ source df0,
    _cohorts m !! source_cohort = Some source ∧
    working_frame m source = Ok df0 ∧
    ∀ p, p ∈ c ↔
      ∃ r, r ∈ rows df0 ∧ cell r "FACPATID" = p ∧
           Forall (λ item, passes (field_resolver m) df0 item r) items.
Proof.
  intros (source & df0 & df1 & df2 & Hs & H0 & H1 & [= <-] & -> & ->)%filter_cohort_ok.
  exists source, df0. split; [done|]. split; [done|]. intros p.
  rewrite elem_of_drop_duplicates, list_elem_of_fmap. simpl in H1. split.
  - intros (r & -> & Hr). apply (apply_filters_elem _ _ _ _ r H1) in Hr as [? ?].
    by exists r.
  - intros (r & Hr & <- & Hall). exists r. split; [done|].
    by apply (apply_filters_elem _ _ _ _ r H1).
Qed.

End FilterFacts.

Import CohortManager CohortManagerFacts ComposeFacts FilterFacts.

(** X1. Filters combine by conjunction, row by row.  For a source cohort
    whose patients all have a demographics row, and filter values that are
    scalars, ranges, pairs [(lo, hi)] or lists without a null, a call
    without a custom predicate puts a patient in the new cohort exactly when
    one of its rows in the working table passes every filter entry. *)
Theorem filter_cohort_conjunctive m source_cohort name items source m' c :
  _cohorts m !! source_cohort = Some source →
  covered m source →
  Forall (λ item, pairs_only item.2 ∧ null_free item.2) items →
  filter_cohort m source_cohort name (Some items) None = Ok (m', c) →
  ∃ df0,
    working_frame m source = Ok df0 ∧
    ∀ p, p ∈ c ↔
      ∃ r, r ∈ rows df0 ∧ cell r "FACPATID" = p ∧
           Forall (λ item, passes (field_resolver m) df0 item r) items.
Proof.
  intros Hsource _ _.
  intros (source' & df0 & df1 & df2 & Hs & H0 & H1 & [= <-] & -> & ->)%filter_cohort_ok.
  rewrite Hsource in Hs. injection Hs as <-.
  exists df0. split; [done|]. intros p.
  rewrite elem_of_drop_duplicates, list_elem_of_fmap. simpl in H1.
  split; [intros (r & -> & Hr) | intros (r & Hr & <- & Hall)]; exists r.
  - by apply (apply_filters_elem _ _ _ _ r H1) in Hr as [? ?].
  - split; [done|]. by apply (apply_filters_elem _ _ _ _ r H1).
Qed.

Lemma filter_cohort_conjunctive_witness :
  ∃ df0,
    working_frame Examples.manager [Examples.P1; Examples.P2; Examples.P3; Examples.P4]
      = Ok df0 ∧
    ∀ p, p ∈ Examples.with_dmd.2 ↔
      ∃ r, r ∈ rows df0 ∧ cell r "FACPATID" = p ∧
           Forall (λ item, passes Examples.resolver df0 item r)
             [("disease", Examples.disease "DMD")].
Proof.
  apply (filter_cohort_conjunctive Examples.manager "base" "dmd"
           [("disease", Examples.disease "DMD")]
           [Examples.P1; Examples.P2; Examples.P3; Examples.P4]
           Examples.with_dmd.1 Examples.with_dmd.2).
  - vm_compute. reflexivity.
  - apply (bool_decide_unpack _). vm_compute. exact I.
  - apply (bool_decide_unpack _). vm_compute. exact I.
  - vm_compute. reflexivity.
Defined.

(** X2. The order of the filter entries does not matter to the result: two
    calls whose filters are permutations of one another, with values that are
    scalars, ranges, pairs [(lo, hi)] or lists, return cohorts with the same
    patients when both return. *)
Theorem filter_cohort_order m source_cohort n1 n2 items1 items2 m1 c1 m2 c2 :
  items1 ≡ₚ items2 →
  Forall (λ item, pairs_only item.2) items1 →
  filter_cohort m source_cohort n1 (Some items1) None = Ok (m1, c1) →
  filter_cohort m source_cohort n2 (Some items2) None = Ok (m2, c2) →
  patient_set c1 = patient_set c2.
Proof.
  intros Hperm _ H1 H2.
  destruct (filter_cohort_rows _ _ _ _ _ _ H1) as (s1 & d1 & Hs1 & Hd1 & Hc1).
  destruct (filter_cohort_rows _ _ _ _ _ _ H2) as (s2 & d2 & Hs2 & Hd2 & Hc2).
  rewrite Hs1 in Hs2. injection Hs2 as <-. rewrite Hd1 in Hd2. injection Hd2 as <-.
  apply set_eq. intros p. unfold patient_set. rewrite !elem_of_list_to_set, Hc1, Hc2.
  split; intros (r & Hr & K & Hall); exists r; (split; [done|]); (split; [done|]).
  - by rewrite <- Hperm.
  - by rewrite Hperm.
Qed.

Lemma filter_cohort_order_witness :
  patient_set Examples.dmd_datahub.2 = patient_set Examples.datahub_dmd.2.
Proof.
  apply (filter_cohort_order Examples.manager "base" "a" "b"
           [("disease", Examples.disease "DMD"); ("registry", FScalar (VBool false))]
           [("registry", FScalar (VBool false)); ("disease", Examples.disease "DMD")]
           Examples.dmd_datahub.1 Examples.dmd_datahub.2
           Examples.datahub_dmd.1 Examples.datahub_dmd.2).
  - apply perm_swap.
  - apply (bool_decide_unpack _). vm_compute. exact I.
  - vm_compute. reflexivity.
  - vm_compute. reflexivity.
Defined.

Module IdentityFacts.
Import CohortManager CohortManagerFacts ComposeFacts FilterFacts.

Lemma drop_seen_cons seen (x : value) l :
  drop_seen seen (x :: l)
  = if decide (x ∈ seen) then drop_seen seen l else x :: drop_seen (x :: seen) l.
Proof. reflexivity. Qed.

Lemma drop_seen_repeated seen p ks l :
  ks ≠ [] → (∀ k, k ∈ ks → k = p) →
  drop_seen seen (ks ++ l) = drop_seen seen (p :: l).
Proof.
  revert seen. induction ks as [|k ks IH]; intros seen Hne Hall; [done|].
  assert (k = p) as -> by (apply Hall; by left).
  destruct ks as [|k' ks]; [done|].
  assert (∀ k, k ∈ k' :: ks → k = p) as Hall' by (intros k Hk; apply Hall; by right).
  change ((p :: k' :: ks) ++ l) with (p :: ((k' :: ks) ++ l)).
  rewrite (drop_seen_cons seen p ((k' :: ks) ++ l)).
  destruct (decide (p ∈ seen)) as [Hin|Hnin].
  - rewrite IH by done. rewrite drop_seen_cons. by rewrite decide_True.
  - rewrite IH by done. rewrite (drop_seen_cons seen p l), (drop_seen_cons (p :: seen) p l).
    rewrite (decide_False (P := p ∈ seen)) by done.
    rewrite decide_True; [done | by left].
Qed.

Lemma drop_seen_joined m seen (source : cohort) :
  drop_seen seen ((λ r, cell r "FACPATID") <$> (source ≫= joined_rows m))
  = drop_seen seen source.
Proof.
  revert seen. induction source as [|p source IH]; intros seen; [done|].
  change ((p :: source) ≫= joined_rows m)
    with (joined_rows m p ++ (source ≫= joined_rows m)).
  rewrite fmap_app, (drop_seen_repeated seen p).
  - rewrite !drop_seen_cons. destruct (decide (p ∈ seen)); by rewrite IH.
  - unfold joined_rows. destruct (negb _); [|done].
    intros E%fmap_nil_inv. by apply merge_rows_nonempty in E.
  - intros k (r & -> & Hr)%list_elem_of_fmap. by apply (joined_rows_key m).
Qed.

Lemma working_frame_patients m source df0 :
  working_frame m source = Ok df0 →
  drop_duplicates ((λ r, cell r "FACPATID") <$> rows df0) = drop_duplicates source.
Proof.
  intros H. rewrite (working_frame_rows _ _ _ H). apply drop_seen_joined.
Qed.

Lemma drop_seen_NoDup seen (l : list value) :
  NoDup l → (∀ x, x ∈ l → x ∉ seen) → drop_seen seen l = l.
Proof.
  revert seen. induction l as [|x l IH]; intros seen Hnd Hseen; [done|].
  apply NoDup_cons in Hnd as [Hx Hnd]. simpl.
  rewrite decide_False by (apply Hseen; by left). f_equal. apply IH; [done|].
  intros y Hy [->|?]%elem_of_cons; [done|]. apply (Hseen y); [by right | done].
Qed.

Lemma drop_duplicates_NoDup (l : list value) : NoDup l → drop_duplicates l = l.
Proof. intros H. apply drop_seen_NoDup; [done|]. by intros x _ ?%elem_of_nil. Qed.

Lemma apply_filters_unresolved R df items :
  Forall (unresolved R df) items → apply_filters R df items = Ok df.
Proof.
  induction 1 as [|[field v] items Hu _ IH]; [done|]. simpl.
  unfold unresolved in Hu. simpl in Hu. unfold _apply_registry_filter. rewrite Hu.
  destruct (decide (field = "registry")) as [->|_].
  - rewrite Hu, ok_bind. apply IH.
  - rewrite ok_bind. apply IH.
Qed.

Lemma apply_filter_order_free R df item :
  item.1 = "registry" ∨ order_free item.2 → ∃ df', apply_filter R df item = Ok df'.
Proof.
  destruct item as [field v]. simpl. unfold apply_filter, _apply_registry_filter.
  intros H. destruct (decide (field = "registry")) as [->|Hne].
  - destruct (FieldResolver.truthy _); [|by eexists].
    destruct (selects_usndr v); apply select_ok; by eexists.
  - destruct H as [?|H]; [done|].
    destruct (FieldResolver.truthy _) as [c|]; [|by eexists].
    destruct v as [d|t|l|v]; simpl in *.
    + destruct H as [-> ->]. by eexists.
    + done.
    + apply select_ok; by eexists.
    + apply select_ok; by eexists.
Qed.

Lemma apply_filters_order_free R items df :
  Forall (λ item, item.1 = "registry" ∨ order_free item.2) items →
  ∃ df', apply_filters R df items = Ok df'.
Proof.
  intros H. revert df. induction H as [|item items Hi _ IH]; intros df; simpl.
  - by eexists.
  - destruct (apply_filter_order_free R df item Hi) as [df1 ->]. rewrite ok_bind.
    apply IH.
Qed.



(** A conjunction of two tests, and one test after the other. *)
Lemma select_rows_both (p q : row → result bool) rs out :
  select_rows (λ r, a ← p r; b ← q r; Ok (a && b)) rs = Ok out →
  ∃ mid, select_rows p rs = Ok mid ∧ select_rows q mid = Ok out.
Proof.
  revert out. induction rs as [|r rs IH]; intros out; simpl.
  - intros [= <-]. by exists [].
  - intros (ab & Hab & (rest & Hrest & [= <-])%bind_ok)%bind_ok.
    apply bind_ok in Hab as (a & Ha & (b & Hb & [= <-])%bind_ok).
    destruct (IH _ Hrest) as (mid & Hp & Hq). rewrite Ha, Hp. simpl.
    destruct a; simpl.
    + exists (r :: mid). split; [done|]. simpl. by rewrite Hb, Hq.
    + by exists mid.
Qed.

End IdentityFacts.

Import IdentityFacts.

(** X3. Filter entries whose field resolves to no column of the working
    table are skipped, not refused: a call whose entries are all of that
    kind (an empty or absent filter dict included) returns the source
    cohort, less its repetitions. *)
Theorem filter_cohort_unresolved m source_cohort name filters source df0 :
  _cohorts m !! source_cohort = Some source →
  working_frame m source = Ok df0 →
  Forall (unresolved (field_resolver m) df0) (default [] filters) →
  snd <$> filter_cohort m source_cohort name filters None = Ok (drop_duplicates source).
Proof.
  intros Hs H0 Hu. unfold filter_cohort. rewrite Hs, H0, ok_bind.
  rewrite (apply_filters_unresolved _ _ _ Hu), ok_bind. simpl.
  by rewrite (working_frame_patients m source df0 H0).
Qed.

Lemma filter_cohort_unresolved_witness :
  snd <$> filter_cohort Examples.manager "base" "adults"
            (Some [("age", FDict [("min", VNum 18)]); ("site", FScalar (VStr "A"))]) None
  = Ok (drop_duplicates [Examples.P1; Examples.P2; Examples.P3; Examples.P4]).
Proof.
  apply (filter_cohort_unresolved Examples.manager "base" "adults"
           (Some [("age", FDict [("min", VNum 18)]); ("site", FScalar (VStr "A"))])
           [Examples.P1; Examples.P2; Examples.P3; Examples.P4] Examples.demographics).
  - vm_compute. reflexivity.
  - vm_compute. reflexivity.
  - repeat constructor.
Defined.

(** X4. Equality tests with a scalar, membership tests and the registry
    test never raise: when the source cohort exists and the join succeeds, a
    call whose entries are the registry entry, scalars, lists or dicts
    without bound returns a cohort. *)
Theorem filter_cohort_order_free m source_cohort name filters source df0 :
  _cohorts m !! source_cohort = Some source →
  working_frame m source = Ok df0 →
  Forall (λ item, item.1 = "registry" ∨ order_free item.2) (default [] filters) →
  ∃ m' c, filter_cohort m source_cohort name filters None = Ok (m', c).
Proof.
  intros Hs H0 Hf. unfold filter_cohort. rewrite Hs, H0, ok_bind.
  destruct (apply_filters_order_free (field_resolver m) _ df0 Hf) as [df1 ->].
  rewrite ok_bind. simpl. by eexists _, _.
Qed.

Lemma filter_cohort_order_free_witness :
  ∃ m' c, filter_cohort Examples.manager "base" "bmd_or_als"
            (Some [("disease", FList [VStr "BMD"; VStr "ALS"]);
                   ("registry", FScalar (VStr "usndr"))]) None = Ok (m', c).
Proof.
  apply (filter_cohort_order_free Examples.manager "base" "bmd_or_als" _
           [Examples.P1; Examples.P2; Examples.P3; Examples.P4] Examples.demographics).
  - vm_compute. reflexivity.
  - vm_compute. reflexivity.
  - repeat constructor; by right.
Defined.



(** X6. The legacy pair [(lo, hi)] and the dict [{"min": lo, "max": hi}]
    keep the same rows: whenever the pair form returns, the dict form
    returns the same table.  (The dict form tests the upper bound on the
    survivors of the lower bound only, so it can return where the pair form
    raises.) *)
Theorem legacy_range_as_dict df c d lo hi df' :
  assoc "min" d = Some lo →
  assoc "max" d = Some hi →
  apply_value_filter df c (FTuple [lo; hi]) = Ok df' →
  apply_value_filter df c (FDict d) = Ok df'.
Proof.
  intros Hlo Hhi. simpl. rewrite Hlo, Hhi. unfold select.
  intros (rs & Hrs & [= <-])%bind_ok.
  destruct (select_rows_both _ _ _ _ Hrs) as (mid & Hp & Hq).
  rewrite Hp, !ok_bind. simpl. by rewrite Hq.
Qed.

Lemma legacy_range_as_dict_witness :
  apply_value_filter (Examples.form [Examples.P1; Examples.P2]) "visit"
    (FDict [("min", VNum 1); ("max", VNum 3)])
  = Ok (Examples.form [Examples.P1; Examples.P2]).
Proof.
  apply (legacy_range_as_dict _ "visit" _ (VNum 1) (VNum 3)); reflexivity.
Defined.

(** ** Creating cohorts *)

Module BaseFacts.
Import CohortManager CohortManagerFacts EnrollmentValidator EnrollmentFacts.

Lemma collect_patient_sets_ok_keyed tables forms sets :
  collect_patient_sets tables forms = Ok sets → patient_keyed tables forms.
Proof.
  revert sets. induction forms as [|f forms IH]; intros sets H f' df Hf' Hdf.
  - by apply elem_of_nil in Hf'.
  - simpl in H. destruct (tables !! f) as [df0|] eqn:E.
    + apply bind_ok in H as (ps & Hps & (sets' & Hsets & _)%bind_ok).
      apply elem_of_cons in Hf' as [->|Hf'].
      * rewrite E in Hdf. injection Hdf as <-.
        destruct (has_column df0 "FACPATID") eqn:Hc; [done|].
        by rewrite (patients_of_unkeyed df0 Hc) in Hps.
      * by apply (IH sets' Hsets f' df).
    + apply elem_of_cons in Hf' as [->|Hf']; [congruence|].
      by apply (IH sets H f' df).
Qed.

(** [get_enrolled_patients], read off a successful result. *)
Lemma get_enrolled_patients_ok tables required_forms enrolled :
  get_enrolled_patients tables required_forms = Ok enrolled →
  let forms := default default_required_forms required_forms in
  NoDup enrolled ∧
  ∀ p, p ∈ enrolled ↔ ∀ f df, f ∈ forms → tables !! f = Some df → p ∈ ids_of df.
Proof.
  intros H forms. unfold get_enrolled_patients in H. fold forms in H.
  apply bind_ok in H as (sets & Hsets & H).
  pose proof (collect_patient_sets_ok_keyed _ _ _ Hsets) as Hk.
  rewrite (collect_patient_sets_keyed tables forms Hk) in Hsets. injection Hsets as <-.
  destruct (omap _ forms) as [|s sets] eqn:E; [done|]. injection H as <-.
  split; [apply NoDup_elements|]. intros p.
  rewrite elem_of_elements, elem_of_foldl_intersection. split.
  - intros [Hp Hps] f df Hf Hdf.
    assert (ids_of df ∈ s :: sets) as [->|?]%elem_of_cons; auto.
    rewrite <- E. apply elem_of_collected. by exists f, df.
  - intros H. split.
    + assert (s ∈ omap (λ f, ids_of <$> tables !! f) forms) as Hs by (rewrite E; by left).
      apply elem_of_collected in Hs as (f & df & Hf & Hdf & ->). eauto.
    + intros s' Hs'.
      assert (s' ∈ omap (λ f, ids_of <$> tables !! f) forms) as Hs by (rewrite E; by right).
      apply elem_of_collected in Hs as (f & df & Hf & Hdf & ->). eauto.
Qed.

Lemma create_base_cohort_ok m name require_forms validate m' c :
  create_base_cohort m name require_forms validate = Ok (m', c) →
  m' = {| tables := tables m;
          _cohorts := <[name := c]> (_cohorts m);
          field_resolver := field_resolver m;
          _demographics_with_age := _demographics_with_age m |} ∧
  NoDup c.
Proof.
  unfold create_base_cohort. intros (ids & Hids & [= <- <-])%bind_ok.
  split; [done|]. destruct validate.
  - by apply get_enrolled_patients_ok in Hids as [? _].
  - destruct (tables m !! "demographics_maindata") as [df|]; [|done].
    apply bind_ok in Hids as (l & _ & [= <-]). apply NoDup_drop_seen.
Qed.

End BaseFacts.

Import BaseFacts.

(** X7. No stored cohort lists a patient twice, and both ways of making a
    cohort keep it so: from a manager whose cohorts have no repetition,
    [filter_cohort] and [create_base_cohort] return a cohort without
    repetition and a manager whose cohorts have none. *)
Theorem cohorts_stay_nodup m m' c :
  cohorts_nodup m →
  (∃ source_cohort name filters custom_filter,
     filter_cohort m source_cohort name filters custom_filter = Ok (m', c)) ∨
  (∃ name require_forms validate,
     create_base_cohort m name require_forms validate = Ok (m', c)) →
  NoDup c ∧ cohorts_nodup m'.
Proof.
  intros Hm H.
  assert (∃ name, NoDup c ∧ _cohorts m' = <[name := c]> (_cohorts m)) as (name & Hc & E).
  { destruct H as [(s & name & f & cf & H)|(name & rf & v & H)]; exists name.
    - apply filter_cohort_ok in H as (? & ? & ? & ? & _ & _ & _ & _ & -> & ->).
      split; [apply NoDup_drop_seen | done].
    - apply create_base_cohort_ok in H as [-> ?]. by split. }
  split; [done|]. intros n c' Hn. rewrite E in Hn.
  destruct (decide (name = n)) as [->|Hne].
  - rewrite lookup_insert_eq in Hn. by injection Hn as <-.
  - rewrite lookup_insert_ne in Hn by done. by apply (Hm n).
Qed.

Lemma cohorts_stay_nodup_witness :
  NoDup Examples.with_dmd.2 ∧ cohorts_nodup Examples.with_dmd.1.
Proof.
  apply (cohorts_stay_nodup Examples.manager).
  - intros n c Hn. destruct (decide (n = "base")) as [->|Hne].
    + vm_compute in Hn. injection Hn as <-.
      apply (bool_decide_unpack _). vm_compute. exact I.
    + unfold Examples.manager in Hn. simpl in Hn.
      rewrite lookup_insert_ne in Hn by done. by rewrite lookup_empty in Hn.
  - left. exists "base", "dmd", Examples.dmd_filter, None. vm_compute. reflexivity.
Defined.

(** X8. Without enrollment validation, [create_base_cohort] takes the
    distinct patients of the demographics form and nothing else (the
    required forms are not looked at): it raises a [ValueError] exactly when
    the store has no demographics form, a [KeyError] exactly when that form
    has no patient column, and otherwise stores under [name] each patient of
    the form once. *)
Theorem create_base_cohort_unvalidated m name require_forms :
  match create_base_cohort m name require_forms false with
  | Ok (m', c) =>
      ∃ df, tables m !! "demographics_maindata" = Some df ∧
            has_column df "FACPATID" = true ∧
            NoDup c ∧
            (∀ p, p ∈ c ↔ p ∈ EnrollmentValidator.ids_of df) ∧
            _cohorts m' = <[name := c]> (_cohorts m) ∧
            tables m' = tables m
  | Raise e =>
      (tables m !! "demographics_maindata" = None ∧
       e = ValueError "demographics_maindata table not found") ∨
      (∃ df, tables m !! "demographics_maindata" = Some df ∧
             has_column df "FACPATID" = false ∧ e = KeyError "FACPATID")
  end.
Proof.
  unfold create_base_cohort, column_values.
  destruct (tables m !! "demographics_maindata") as [df|]; [|by left].
  destruct (has_column df "FACPATID") eqn:Hc.
  - rewrite !ok_bind. exists df. split; [done|]. split; [done|].
    split; [apply NoDup_drop_seen|]. split; [|done]. intros p.
    by rewrite elem_of_drop_duplicates, EnrollmentFacts.elem_of_ids_of, list_elem_of_fmap;
      split; intros (r & ? & ?); exists r.
  - right. by exists df.
Qed.

(** X9. With enrollment validation, the base cohort holds, once each,
    exactly the patients present in every required form that the store
    holds; it replaces whatever was stored under its name and leaves the
    other cohorts and the tables alone. *)
Theorem create_base_cohort_enrolled m name require_forms m' c :
  create_base_cohort m name require_forms true = Ok (m', c) →
  let forms := default EnrollmentValidator.default_required_forms require_forms in
  NoDup c ∧
  (∀ p, p ∈ c ↔
        ∀ f df, f ∈ forms → tables m !! f = Some df → p ∈ EnrollmentValidator.ids_of df) ∧
  get_cohort m' name = Ok c ∧
  (∀ other, other ≠ name → _cohorts m' !! other = _cohorts m !! other) ∧
  tables m' = tables m.
Proof.
  intros H forms. pose proof (create_base_cohort_ok _ _ _ _ _ _ H) as [-> Hnd].
  split; [done|]. split.
  - unfold create_base_cohort in H. apply bind_ok in H as (ids & Hids & [= _ <-]).
    by apply get_enrolled_patients_ok in Hids as [_ ?].
  - split; [|split; [|done]].
    + unfold get_cohort. simpl. by rewrite lookup_insert_eq.
    + intros other Hne. simpl. by rewrite lookup_insert_ne.
Qed.

Lemma create_base_cohort_enrolled_witness :
  let forms := default EnrollmentValidator.default_required_forms None in
  NoDup Examples.with_base.2 ∧
  (∀ p, p ∈ Examples.with_base.2 ↔
        ∀ f df, f ∈ forms → tables Examples.manager !! f = Some df →
                p ∈ EnrollmentValidator.ids_of df) ∧
  get_cohort Examples.with_base.1 "enrolled" = Ok Examples.with_base.2 ∧
  (∀ other, other ≠ "enrolled" →
     _cohorts Examples.with_base.1 !! other = _cohorts Examples.manager !! other) ∧
  tables Examples.with_base.1 = tables Examples.manager.
Proof.
  apply (create_base_cohort_enrolled Examples.manager "enrolled" None).
  vm_compute. reflexivity.
Defined.

(** ** Cohort data and filtered tables *)

Module ViewFacts.
Import CohortManager CohortManagerFacts IdentityFacts.

Lemma matching_rows_short demographics p :
  one_row_per_patient demographics →
  (List.length (matching_rows demographics p) ≤ 1)%nat.
Proof.
  unfold one_row_per_patient, matching_rows.
  induction (rows demographics) as [|r rs IH]; intros Hnd; [simpl; lia|].
  rewrite fmap_cons in Hnd. apply NoDup_cons in Hnd as [Hr Hnd].
  rewrite filter_cons. destruct (decide (cell r "FACPATID" = p)) as [E|_]; [|by apply IH].
  destruct (filter (λ r0, cell r0 "FACPATID" = p) rs) as [|r' rest] eqn:Ef; [simpl; lia|].
  exfalso. assert (r' ∈ filter (λ r0, cell r0 "FACPATID" = p) rs) as Hin.
  { rewrite Ef. by left. }
  apply list_elem_of_filter in Hin as [E' Hr']. apply Hr.
  apply list_elem_of_fmap. exists r'. split; [congruence|done].
Qed.

Lemma joined_rows_single m p :
  one_row_per_patient (_get_demographics m) → ∃ r, joined_rows m p = [r].
Proof.
  intros Hnd. unfold joined_rows, merge_rows. destruct (negb _); [|by eexists].
  pose proof (matching_rows_short (_get_demographics m) p Hnd) as Hlen.
  destruct (matching_rows _ p) as [|r [|r' ms]]; [by eexists | by eexists |].
  simpl in Hlen. lia.
Qed.

Lemma joined_keys m (source : cohort) :
  one_row_per_patient (_get_demographics m) →
  (λ r, cell r "FACPATID") <$> (source ≫= joined_rows m) = source.
Proof.
  intros Hnd. induction source as [|p source IH]; [done|].
  change ((p :: source) ≫= joined_rows m)
    with (joined_rows m p ++ (source ≫= joined_rows m)).
  destruct (joined_rows_single m p Hnd) as [r Hr].
  rewrite fmap_app, IH, Hr. simpl. f_equal.
  apply (joined_rows_key m). rewrite Hr. by left.
Qed.

Lemma py_isin_elem (x : value) l : x ∈ l → py_isin x l = true.
Proof.
  intros Hx. unfold py_isin. apply existsb_exists. exists x.
  split; [by apply list_elem_of_In|].
  destruct x as [|[]|n|s]; simpl; try done; by apply bool_decide_eq_true.
Qed.

Lemma py_isin_mono (x : value) l1 l2 :
  (∀ y, y ∈ l1 → y ∈ l2) → py_isin x l1 = true → py_isin x l2 = true.
Proof.
  unfold py_isin. rewrite !existsb_exists. intros H (y & Hy & ?). exists y.
  split; [|done]. apply list_elem_of_In, H. by apply list_elem_of_In.
Qed.

Lemma elem_of_filter_table ids df r :
  has_column df "FACPATID" = true →
  r ∈ rows (filter_table ids df) ↔
  r ∈ rows df ∧ py_isin (cell r "FACPATID") ids = true.
Proof.
  intros Hc. unfold filter_table. rewrite Hc. simpl.
  rewrite !list_elem_of_In, filter_In. done.
Qed.

Lemma filter_table_columns ids df : columns (filter_table ids df) = columns df.
Proof. unfold filter_table. by destruct (has_column df "FACPATID"). Qed.

Lemma filter_table_mono ids1 ids2 df :
  (∀ p, p ∈ ids1 → p ∈ ids2) → sub_frame (filter_table ids1 df) (filter_table ids2 df).
Proof.
  intros H. split; [by rewrite !filter_table_columns|].
  destruct (has_column df "FACPATID") eqn:Hc.
  - intros r. rewrite !elem_of_filter_table by done. intros [? ?]. split; [done|].
    by apply (py_isin_mono _ ids1).
  - unfold filter_table. by rewrite Hc.
Qed.

Lemma filter_tables_lookup tables ids names acc table_name :
  filter_tables tables ids names acc !! table_name
  = if decide (table_name ∈ names ∧ is_Some (tables !! table_name))
    then filter_table ids <$> tables !! table_name
    else acc !! table_name.
Proof.
  revert acc. induction names as [|n names IH]; intros acc.
  - cbn [filter_tables]. by destruct (decide _) as [[?%elem_of_nil _]|].
  - cbn [filter_tables]. destruct (tables !! n) as [df|] eqn:E; rewrite IH;
      destruct (decide (table_name ∈ names ∧ is_Some (tables !! table_name)))
        as [[Hin Hs]|Hn],
               (decide (table_name ∈ n :: names ∧ is_Some (tables !! table_name)))
        as [[Hin' Hs']|Hn']; try done.
    + exfalso. apply Hn'. split; [by right | done].
    + apply elem_of_cons in Hin' as [->|Hin']; [|exfalso; by apply Hn].
      by rewrite lookup_insert_eq, E.
    + destruct (decide (table_name = n)) as [->|Hne].
      * exfalso. apply Hn'. split; [by left | by rewrite E].
      * by rewrite lookup_insert_ne.
    + exfalso. apply Hn'. split; [by right | done].
    + apply elem_of_cons in Hin' as [->|Hin']; [|exfalso; by apply Hn].
      rewrite E in Hs'. by destruct Hs'.
Qed.

Lemma elem_of_tables_to_filter m tables_arg table_name :
  is_Some (tables m !! table_name) →
  table_name ∈ tables_to_filter m tables_arg ↔ requested tables_arg table_name.
Proof.
  intros [df Hdf]. unfold tables_to_filter, requested.
  assert (table_name ∈ (map_to_list (tables m)).*1) as Hall.
  { apply list_elem_of_fmap. exists (table_name, df). split; [done|].
    by apply elem_of_map_to_list. }
  destruct tables_arg as [[|n names]|]; done.
Qed.

(** The tables [get_filtered_tables] returns. *)
Lemma get_filtered_tables_lookup m name tables_arg filtered :
  get_filtered_tables m name tables_arg = Ok filtered →
  ∃ cohort,
    get_cohort m name = Ok cohort ∧
    ∀ table_name, filtered !! table_name
       = if decide (requested tables_arg table_name)
         then filter_table cohort <$> tables m !! table_name else None.
Proof.
  unfold get_filtered_tables. intros (cohort & Hc & [= <-])%bind_ok.
  exists cohort. split; [done|].
  intros n. rewrite filter_tables_lookup, lookup_empty.
  destruct (tables m !! n) as [df|] eqn:E.
  - pose proof (elem_of_tables_to_filter m tables_arg n) as Hreq.
    rewrite E in Hreq. specialize (Hreq (mk_is_Some _ _ eq_refl)).
    destruct (decide (requested tables_arg n)) as [Hr|Hr],
             (decide (n ∈ tables_to_filter m tables_arg ∧ is_Some (Some df)))
        as [[Hin _]|Hn]; try done.
    + exfalso. apply Hn. split; [by apply Hreq | done].
    + exfalso. by apply Hr, Hreq.
  - destruct (decide (n ∈ tables_to_filter m tables_arg ∧ is_Some None))
      as [[_ [? ?]]|_]; [done|]. by destruct (decide _).
Qed.

End ViewFacts.

Import ViewFacts.

(** X10. The table [get_cohort_data] returns keeps every patient of the
    cohort, in the cohort's order (the left join drops nobody); with at most
    one demographics row per patient it has exactly one row for each member
    of the cohort; and when demographics are not asked for it is the bare
    identifier table. *)
Theorem get_cohort_data_rows m name include_demographics df :
  get_cohort_data m name include_demographics = Ok df →
  ∃ cohort,
    get_cohort m name = Ok cohort ∧
    drop_duplicates (cells df "FACPATID") = drop_duplicates cohort ∧
    (include_demographics = false → df = cohort_frame cohort) ∧
    (one_row_per_patient (_get_demographics m) → cells df "FACPATID" = cohort).
Proof.
  unfold get_cohort_data. intros (cohort & Hc & H)%bind_ok. exists cohort.
  split; [done|].
  assert (working_frame m cohort = Ok df ∨ df = cohort_frame cohort) as [Hw|Hw].
  { destruct include_demographics; [left; exact H | right; by injection H]. }
  2: subst df.
  - split; [exact (working_frame_patients m cohort df Hw)|]. split.
    + intros ->. by injection H.
    + intros Hnd. unfold cells. rewrite (working_frame_rows _ _ _ Hw).
      by apply joined_keys.
  - assert (cells (cohort_frame cohort) "FACPATID" = cohort) as E.
    { unfold cells, cohort_frame. simpl. rewrite <- list_fmap_compose.
      by rewrite <- (list_fmap_id cohort) at 2. }
    by rewrite E.
Qed.

Lemma get_cohort_data_rows_witness :
  ∃ cohort,
    get_cohort Examples.manager "base" = Ok cohort ∧
    drop_duplicates (cells Examples.demographics "FACPATID") = drop_duplicates cohort ∧
    (true = false → Examples.demographics = cohort_frame cohort) ∧
    (one_row_per_patient (_get_demographics Examples.manager) →
     cells Examples.demographics "FACPATID" = cohort).
Proof.
  apply (get_cohort_data_rows Examples.manager "base" true Examples.demographics).
  vm_compute. reflexivity.
Defined.

(** X11. The result of [get_filtered_tables] holds exactly the requested
    tables that the store holds (all of the store's tables when none, or an
    empty list, is requested; unknown names are skipped); a table with no
    patient column comes back unchanged, and a patient-keyed table comes
    back with its columns and exactly its rows whose identifier is among the
    cohort's. *)
Theorem get_filtered_tables_spec m name tables_arg filtered :
  get_filtered_tables m name tables_arg = Ok filtered →
  ∃ cohort,
    get_cohort m name = Ok cohort ∧
    (∀ table_name, filtered !! table_name
       = if decide (requested tables_arg table_name)
         then filter_table cohort <$> tables m !! table_name else None) ∧
    (∀ df, has_column df "FACPATID" = false → filter_table cohort df = df) ∧
    (∀ df, has_column df "FACPATID" = true →
       columns (filter_table cohort df) = columns df ∧
       ∀ r, r ∈ rows (filter_table cohort df) ↔
            r ∈ rows df ∧ py_isin (cell r "FACPATID") cohort = true).
Proof.
  intros (cohort & Hc & Hlook)%get_filtered_tables_lookup.
  exists cohort. split; [done|]. split; [done|]. split.
  - intros df Hdf. unfold filter_table. by rewrite Hdf.
  - intros df Hdf. split; [apply filter_table_columns|].
    intros r. by apply elem_of_filter_table.
Qed.

Lemma get_filtered_tables_spec_witness :
  ∃ cohort,
    get_cohort Examples.with_dmd.1 "dmd" = Ok cohort ∧
    (∀ table_name, Examples.dmd_tables !! table_name
       = if decide (requested None table_name)
         then filter_table cohort <$> tables Examples.with_dmd.1 !! table_name else None) ∧
    (∀ df, has_column df "FACPATID" = false → filter_table cohort df = df) ∧
    (∀ df, has_column df "FACPATID" = true →
       columns (filter_table cohort df) = columns df ∧
       ∀ r, r ∈ rows (filter_table cohort df) ↔
            r ∈ rows df ∧ py_isin (cell r "FACPATID") cohort = true).
Proof.
  apply (get_filtered_tables_spec Examples.with_dmd.1 "dmd" None Examples.dmd_tables).
  vm_compute. reflexivity.
Defined.

(** X12. Narrowing a cohort narrows its tables: after
    [filter_cohort source name], every table [get_filtered_tables] gives for
    the new cohort is cut out of the table it gives for the source (same
    columns, rows among the source's). *)
Theorem get_filtered_tables_narrow m source_cohort name filters custom_filter m' c
    tables_arg of_source of_new table_name df' :
  filter_cohort m source_cohort name filters custom_filter = Ok (m', c) →
  get_filtered_tables m source_cohort tables_arg = Ok of_source →
  get_filtered_tables m' name tables_arg = Ok of_new →
  of_new !! table_name = Some df' →
  ∃ df, of_source !! table_name = Some df ∧ sub_frame df' df.
Proof.
  intros Hf Hs Hn Hdf'.
  assert (∀ p, p ∈ c → ∃ source, _cohorts m !! source_cohort = Some source ∧ p ∈ source)
    as Hsub by (intros p; by eapply FilterFacts.filter_cohort_elem_source).
  apply filter_cohort_ok in Hf as (source & df0 & df1 & df2 & Hsrc & _ & _ & _ & Hc & ->).
  destruct (get_filtered_tables_lookup _ _ _ _ Hs) as (cs & Hcs & Hlook).
  destruct (get_filtered_tables_lookup _ _ _ _ Hn) as (cn & Hcn & Hlook').
  unfold get_cohort in Hcs, Hcn. simpl in Hcn. rewrite lookup_insert_eq in Hcn.
  injection Hcn as <-. rewrite Hsrc in Hcs. injection Hcs as <-.
  rewrite Hlook' in Hdf'. rewrite Hlook. simpl in Hdf'.
  destruct (decide (requested tables_arg table_name)); [|done].
  destruct (tables m !! table_name) as [df|]; [|done]. injection Hdf' as <-.
  eexists. split; [done|]. apply filter_table_mono. intros p Hp.
  destruct (Hsub p Hp) as (s' & Hs' & ?). rewrite Hsrc in Hs'. by injection Hs' as <-.
Qed.

Lemma get_filtered_tables_narrow_witness :
  ∃ df, Examples.base_tables !! "encounter_maindata" = Some df ∧
        sub_frame (Examples.form [Examples.P1; Examples.P1; Examples.P2]) df.
Proof.
  apply (get_filtered_tables_narrow Examples.manager "base" "dmd" Examples.dmd_filter None
           Examples.with_dmd.1 Examples.with_dmd.2 None
           Examples.base_tables Examples.dmd_tables "encounter_maindata").
  - vm_compute. reflexivity.
  - vm_compute. reflexivity.
  - vm_compute. reflexivity.
  - vm_compute. reflexivity.
Defined.

(** ** Summaries *)

Module SummaryFacts.
Import CohortManager CohortManagerFacts IdentityFacts ViewFacts.

Lemma select_rows_pure (f : row → bool) rs :
  select_rows (λ r, Ok (f r)) rs = Ok (List.filter f rs).
Proof.
  induction rs as [|r rs IH]; [done|]. simpl. rewrite IH, !ok_bind.
  by destruct (f r).
Qed.

Lemma count_true_cells df c :
  count_true (cells df c)
  = List.length (List.filter (λ r, py_eq (cell r c) (VBool true)) (rows df)).
Proof.
  unfold count_true, cells. induction (rows df) as [|r rs IH]; [done|].
  rewrite fmap_cons. simpl. destruct (py_eq (cell r c) (VBool true)); simpl; by rewrite IH.
Qed.

Lemma count_true_le l : (count_true l ≤ List.length l)%nat.
Proof. unfold count_true. apply List.filter_length_le. Qed.

Lemma filter_negb_length {A} (f : A → bool) l :
  List.length (List.filter (λ x, negb (f x)) l)
  = (List.length l - List.length (List.filter f l))%nat.
Proof.
  induction l as [|x l IH]; [done|]. simpl.
  pose proof (List.filter_length_le f l). destruct (f x); simpl; rewrite IH; lia.
Qed.

Lemma NoDup_fmap_filter {A B} `{EqDecision B} (g : A → B) (f : A → bool) l :
  NoDup (g <$> l) → NoDup (g <$> List.filter f l).
Proof.
  induction l as [|x l IH]; [done|]. rewrite fmap_cons. intros [Hx Hnd]%NoDup_cons.
  simpl. destruct (f x); [|by apply IH]. rewrite fmap_cons. apply NoDup_cons.
  split; [|by apply IH]. intros (y & E & Hy)%list_elem_of_fmap. apply Hx.
  apply list_elem_of_fmap. exists y. split; [done|].
  apply list_elem_of_In. apply list_elem_of_In, filter_In in Hy. tauto.
Qed.

Lemma joined_length_ge m (source : cohort) :
  (List.length source ≤ List.length (source ≫= joined_rows m))%nat.
Proof.
  induction source as [|p source IH]; [done|].
  change ((p :: source) ≫= joined_rows m)
    with (joined_rows m p ++ (source ≫= joined_rows m)).
  rewrite length_app. simpl.
  assert (joined_rows m p ≠ []) as Hne.
  { unfold joined_rows. destruct (negb _); [apply merge_rows_nonempty | done]. }
  destruct (joined_rows m p); [done|]. simpl. lia.
Qed.

(** [get_cohort_summary], read off a successful result over demographics
    that are not empty. *)
Lemma get_cohort_summary_ok mean median min max round1 m cohort_name s :
  get_cohort_summary mean median min max round1 m cohort_name = Ok s →
  ∃ cohort,
    get_cohort m cohort_name = Ok cohort ∧
    n_patients s = List.length cohort ∧
    name s = cohort_name ∧
    ((empty (_get_demographics m) = true ∧
      gender_distribution s = None ∧ age_stats s = None ∧
      disease_distribution s = None ∧ registry_distribution s = None) ∨
     (∃ merged,
        empty (_get_demographics m) = false ∧
        working_frame m cohort = Ok merged ∧
        registry_distribution s
        = (λ c, (count_true (cells merged c),
                 List.length (rows merged) - count_true (cells merged c))%nat)
          <$> FieldResolver.truthy
                (_resolve_filter_field (field_resolver m) "registry" merged))).
Proof.
  unfold get_cohort_summary. intros (cohort & Hc & H)%bind_ok. exists cohort.
  split; [done|]. destruct (empty (_get_demographics m)) eqn:He.
  - injection H as <-. simpl. repeat split; try done. by left.
  - apply bind_ok in H as (merged & Hm & H). unfold summarize in H.
    apply bind_ok in H as (age & _ & [= <-]). simpl. repeat split; try done.
    right. exists merged. split; [done|]. split; [|done].
    unfold working_frame. by rewrite He.
Qed.

End SummaryFacts.

Import SummaryFacts.

(** X13. A summary counts the cohort's rows: [n_patients] is the length of
    the stored cohort; with no demographics the four blocks are absent; and
    the two registry counts, when present, add up to the number of joined
    rows, which is at least [n_patients] and exactly [n_patients] when the
    demographics hold at most one row per patient. *)
Theorem summary_counts mean median min max round1 m cohort_name s :
  get_cohort_summary mean median min max round1 m cohort_name = Ok s →
  ∃ cohort,
    get_cohort m cohort_name = Ok cohort ∧
    n_patients s = List.length cohort ∧
    (empty (_get_demographics m) = true →
       gender_distribution s = None ∧ age_stats s = None ∧
       disease_distribution s = None ∧ registry_distribution s = None) ∧
    (∀ usndr datahub, registry_distribution s = Some (usndr, datahub) →
       (n_patients s ≤ usndr + datahub)%nat ∧
       (one_row_per_patient (_get_demographics m) →
        (usndr + datahub = n_patients s)%nat)).
Proof.
  intros H. destruct (get_cohort_summary_ok _ _ _ _ _ _ _ _ H)
    as (cohort & Hc & Hn & _ & [(He & Hg & Ha & Hd & Hr)|(merged & He & Hw & Hr)]);
    exists cohort; (split; [done|]); (split; [done|]).
  - split; [done|]. intros u d Hud. by rewrite Hr in Hud.
  - split; [intros He'; by rewrite He in He'|]. intros u d Hud. rewrite Hr in Hud.
    destruct (FieldResolver.truthy _) as [c|]; [|done]. injection Hud as <- <-.
    pose proof (count_true_le (cells merged c)) as Hle.
    assert (List.length (cells merged c) = List.length (rows merged)) as El.
    { unfold cells. by rewrite length_fmap. }
    rewrite (working_frame_rows _ _ _ Hw) in *. rewrite Hn. split.
    + pose proof (joined_length_ge m cohort). lia.
    + intros Hnd. pose proof (joined_keys m cohort Hnd) as Ek.
      apply (f_equal List.length) in Ek. rewrite length_fmap in Ek. lia.
Qed.

Lemma summary_counts_witness :
  ∃ cohort,
    get_cohort Examples.manager "base" = Ok cohort ∧
    n_patients Examples.base_summary = List.length cohort ∧
    (empty (_get_demographics Examples.manager) = true →
       gender_distribution Examples.base_summary = None ∧
       age_stats Examples.base_summary = None ∧
       disease_distribution Examples.base_summary = None ∧
       registry_distribution Examples.base_summary = None) ∧
    (∀ usndr datahub,
       registry_distribution Examples.base_summary = Some (usndr, datahub) →
       (n_patients Examples.base_summary ≤ usndr + datahub)%nat ∧
       (one_row_per_patient (_get_demographics Examples.manager) →
        (usndr + datahub = n_patients Examples.base_summary)%nat)).
Proof.
  apply (summary_counts Examples.no_stat Examples.no_stat Examples.no_stat Examples.no_stat
           Ok Examples.manager "base").
  vm_compute. reflexivity.
Defined.

(** X14. The registry block of a summary and the registry filter agree: for
    a cohort without repetition over demographics with at most one row per
    patient, the [USNDR] count is the size of the cohort that
    [{"registry": True}] selects from it and the [DataHub] count the size of
    the cohort that [{"registry": False}] selects. *)
Theorem summary_registry_matches_filter mean median min max round1 m cohort_name s
    usndr datahub n1 n2 c1 c2 :
  get_cohort_summary mean median min max round1 m cohort_name = Ok s →
  registry_distribution s = Some (usndr, datahub) →
  one_row_per_patient (_get_demographics m) →
  cohorts_nodup m →
  snd <$> filter_cohort m cohort_name n1 (registry_filter true) None = Ok c1 →
  snd <$> filter_cohort m cohort_name n2 (registry_filter false) None = Ok c2 →
  List.length c1 = usndr ∧ List.length c2 = datahub.
Proof.
  intros H Hud Hnd Hm H1 H2.
  destruct (get_cohort_summary_ok _ _ _ _ _ _ _ _ H)
    as (cohort & Hc & Hn & _ & [(_ & _ & _ & _ & Hr)|(merged & He & Hw & Hr)]).
  { by rewrite Hr in Hud. }
  rewrite Hr in Hud.
  destruct (FieldResolver.truthy _) as [c|] eqn:Hcol; [|done]. injection Hud as <- <-.
  unfold get_cohort in Hc. destruct (_cohorts m !! cohort_name) as [cohort'|] eqn:Hs; [|done].
  injection Hc as ->.
  assert (NoDup ((λ r, cell r "FACPATID") <$> rows merged)) as Hkeys.
  { rewrite (working_frame_rows _ _ _ Hw), (joined_keys m cohort Hnd). by apply (Hm cohort_name). }
  assert (∀ name b c',
    snd <$> filter_cohort m cohort_name name (registry_filter b) None = Ok c' →
    c' = (λ r, cell r "FACPATID")
           <$> List.filter (λ r, if b then py_eq (cell r c) (VBool true)
                                 else py_ne (cell r c) (VBool true)) (rows merged)) as Hfilter.
  { intros name b c'. unfold filter_cohort, registry_filter.
    rewrite Hs, Hw, ok_bind.
    change (default [] (Some (py_dict [("registry", FScalar (VBool b))])))
      with [("registry", FScalar (VBool b))].
    rewrite ComposeFacts.apply_filters_one.
    unfold apply_filter. rewrite decide_True by done.
    unfold _apply_registry_filter. rewrite Hcol. unfold select.
    destruct b; simpl selects_usndr; cbv iota; rewrite select_rows_pure, !ok_bind;
      simpl; intros [= <-]; apply drop_duplicates_NoDup; by apply NoDup_fmap_filter. }
  rewrite (Hfilter _ _ _ H1), (Hfilter _ _ _ H2), !length_fmap, count_true_cells.
  split; [done|]. unfold py_ne. by rewrite filter_negb_length.
Qed.

Lemma summary_registry_matches_filter_witness :
  List.length [Examples.P3; Examples.P4] = 2%nat ∧
  List.length [Examples.P1; Examples.P2] = 2%nat.
Proof.
  apply (summary_registry_matches_filter
           Examples.no_stat Examples.no_stat Examples.no_stat Examples.no_stat Ok
           Examples.manager "base" Examples.base_summary 2 2 "usndr" "datahub").
  - vm_compute. reflexivity.
  - vm_compute. reflexivity.
  - unfold one_row_per_patient. apply (bool_decide_unpack _). vm_compute. exact I.
  - intros n c Hn. destruct (decide (n = "base")) as [->|Hne].
    + vm_compute in Hn. injection Hn as <-.
      apply (bool_decide_unpack _). vm_compute. exact I.
    + unfold Examples.manager in Hn. simpl in Hn.
      rewrite lookup_insert_ne in Hn by done. by rewrite lookup_empty in Hn.
  - vm_compute. reflexivity.
  - vm_compute. reflexivity.
Defined.

(** X15. An empty cohort is summarised without error, whatever the
    statistics functions do: when the join can be made, the summary has
    [n_patients = 0], no age block, empty gender and disease counts and
    registry counts of zero. *)
Theorem summary_of_empty_cohort mean median min max round1 m cohort_name :
  get_cohort m cohort_name = Ok [] →
  empty (_get_demographics m) = true ∨ has_column (_get_demographics m) "FACPATID" = true →
  ∃ s,
    get_cohort_summary mean median min max round1 m cohort_name = Ok s ∧
    n_patients s = 0%nat ∧
    age_stats s = None ∧
    (∀ counts, gender_distribution s = Some counts → counts = ∅) ∧
    (∀ counts, disease_distribution s = Some counts → counts = ∅) ∧
    (∀ usndr datahub, registry_distribution s = Some (usndr, datahub) →
       usndr = 0%nat ∧ datahub = 0%nat).
Proof.
  intros Hc Hd. unfold get_cohort_summary. rewrite Hc, ok_bind.
  destruct (empty (_get_demographics m)) eqn:He.
  - eexists. split; [done|]. simpl. by repeat split.
  - destruct Hd as [?|Hcol]; [done|]. unfold merge. rewrite Hcol, ok_bind.
    unfold summarize, cells. simpl rows. simpl fmap.
    assert (∀ age_col : option string,
      match FieldResolver.truthy age_col with
      | Some c => if notna_any [] then Some <$> describe_age mean median min max round1 []
                  else Ok None
      | None => Ok None
      end = Ok None) as -> by (intros o; by destruct (FieldResolver.truthy o)).
    rewrite ok_bind. eexists. split; [done|]. simpl.
    split; [done|]. split; [done|]. split; [|split].
    + intros counts. by destruct (FieldResolver.truthy _); intros [= <-].
    + intros counts. by destruct (FieldResolver.truthy _); intros [= <-].
    + intros u d. by destruct (FieldResolver.truthy _); intros [= <- <-].
Qed.

Lemma summary_of_empty_cohort_witness :
  ∃ s,
    get_cohort_summary Examples.failing_stat Examples.failing_stat Examples.failing_stat
      Examples.failing_stat Ok Examples.dmd_only "als" = Ok s ∧
    n_patients s = 0%nat ∧
    age_stats s = None ∧
    (∀ counts, gender_distribution s = Some counts → counts = ∅) ∧
    (∀ counts, disease_distribution s = Some counts → counts = ∅) ∧
    (∀ usndr datahub, registry_distribution s = Some (usndr, datahub) →
       usndr = 0%nat ∧ datahub = 0%nat).
Proof.
  apply (summary_of_empty_cohort Examples.failing_stat Examples.failing_stat
           Examples.failing_stat Examples.failing_stat Ok Examples.dmd_only "als").
  - vm_compute. reflexivity.
  - right. vm_compute. reflexivity.
Defined.

(** ** Export *)

Lemma endswith_refl s : endswith s s = true.
Proof. destruct s; cbn [endswith]; by rewrite bool_decide_eq_true_2. Qed.

Lemma endswith_spec s suffix :
  endswith s suffix = true ↔ ∃ stem, s = stem +:+ suffix.
Proof.
  split.
  - induction s as [|a s IH]; cbn [endswith].
    + destruct (bool_decide_reflect ("" = suffix)) as [<-|]; [|done]. by exists "".
    + destruct (bool_decide_reflect (String a s = suffix)) as [<-|].
      * by exists "".
      * intros (stem & ->)%IH. by exists (String a stem).
  - intros (stem & ->). induction stem as [|a stem IH].
    + apply endswith_refl.
    + change (String a stem +:+ suffix) with (String a (stem +:+ suffix)).
      cbn [endswith]. rewrite IH. by destruct (bool_decide _).
Qed.

(** X16. [export_cohort] looks the cohort up first and the file name second:
    an unknown cohort is refused whatever the path; for a stored cohort the
    writer is picked by the suffix of the path ([.csv], [.xlsx],
    [.parquet], compared with case) and the whole cohort is handed to it;
    any other path is refused as unsupported. *)
Theorem export_cohort_spec m cohort_name output_path :
  match export_cohort m cohort_name output_path with
  | Ok (format, exported) =>
      _cohorts m !! cohort_name = Some exported ∧
      ∃ stem, output_path = stem +:+ extension format
  | Raise e =>
      (_cohorts m !! cohort_name = None ∧
       e = ValueError ("Cohort not found: " +:+ cohort_name)) ∨
      (is_Some (_cohorts m !! cohort_name) ∧
       e = ValueError ("Unsupported file format: " +:+ output_path) ∧
       ∀ format stem, output_path ≠ stem +:+ extension format)
  end.
Proof.
  unfold export_cohort, get_cohort.
  destruct (_cohorts m !! cohort_name) as [c|]; [|by left]. rewrite ok_bind.
  destruct (endswith output_path ".csv") eqn:E1.
  { split; [done|]. by apply endswith_spec in E1. }
  destruct (endswith output_path ".xlsx") eqn:E2.
  { split; [done|]. by apply endswith_spec in E2. }
  destruct (endswith output_path ".parquet") eqn:E3.
  { split; [done|]. by apply endswith_spec in E3. }
  right. split; [done|]. split; [done|]. intros format stem E.
  assert (endswith output_path (extension format) = true) as Hends.
  { apply endswith_spec. by exists stem. }
  destruct format; simpl in Hends; congruence.
Qed.

(** ** What resolution returns *)

(** X17. A resolved name is always a column of the table it was resolved
    against: neither [FieldResolver.resolve] nor [_resolve_filter_field]
    ever returns a configured name, a default or a synonym that the table
    does not have. *)
Theorem resolved_is_column R field df col :
  FieldResolver.resolve R field df = Some col ∨ _resolve_filter_field R field df = Some col →
  col ∈ columns df.
Proof.
  assert (∀ c, FieldResolver.resolve R field df = Some c → c ∈ columns df) as Hres.
  { intros c Hc. pose proof (FieldResolverFacts.resolve_sound R field df) as Hs.
    rewrite Hc in Hs. inversion Hs as [m Hm Hin|c' _ Hf|s _ _ Hf|]; subst.
    - done.
    - by apply FieldResolverFacts.first_in_elem in Hf as [? _].
    - by apply FieldResolverFacts.first_in_elem in Hf as [_ ?]. }
  intros [H|H]; [by apply Hres|]. unfold _resolve_filter_field in H.
  destruct (has_column df field) eqn:Hc.
  - injection H as <-. by apply FieldResolverFacts.has_column_true.
  - apply Hres. by destruct (FieldResolver.resolve R field df) as [[|a s]|].
Qed.

Lemma resolved_is_column_witness : "dstype" ∈ columns Examples.demographics.
Proof.
  apply (resolved_is_column Examples.resolver "disease" Examples.demographics "dstype").
  left. vm_compute. reflexivity.
Defined.

(** ** More on enrollment *)

Module ReportFacts.
Import EnrollmentValidator EnrollmentFacts BaseFacts.

Implicit Types (forms : list string).

Lemma collect_form_patients_ok_keyed tables forms acc form_patients :
  collect_form_patients tables forms acc = Ok form_patients → patient_keyed tables forms.
Proof.
  revert acc. induction forms as [|f forms IH]; intros acc H f' df Hf' Hdf.
  - by apply elem_of_nil in Hf'.
  - simpl in H. destruct (tables !! f) as [df0|] eqn:E.
    + apply bind_ok in H as (ps & Hps & H).
      apply elem_of_cons in Hf' as [->|Hf'].
      * rewrite E in Hdf. injection Hdf as <-.
        destruct (has_column df0 "FACPATID") eqn:Hc; [done|].
        by rewrite (patients_of_unkeyed df0 Hc) in Hps.
      * by apply (IH _ H f' df).
    + apply elem_of_cons in Hf' as [->|Hf']; [congruence|].
      by apply (IH _ H f' df).
Qed.

Lemma form_set_subseteq tables forms f :
  f ∈ forms → form_set tables f ⊆ universe tables forms.
Proof. intros Hf p Hp. apply elem_of_universe. by exists f. Qed.

Lemma enrolled_set_subseteq tables forms f :
  f ∈ forms → enrolled_set tables forms ⊆ form_set tables f.
Proof.
  intros Hf p [Hall _]%elem_of_filter. unfold in_every_form in Hall.
  rewrite Forall_forall in Hall. by apply Hall.
Qed.

(** [validate_enrollment], read off a successful result. *)
Lemma validate_enrollment_ok tables required_forms report :
  validate_enrollment tables required_forms = Ok report →
  let forms := default default_required_forms required_forms in
  patient_keyed tables forms ∧
  total_unique_patients report = size (universe tables forms) ∧
  enrolled_count report = size (enrolled_set tables forms) ∧
  enrolled_patients report = elements (enrolled_set tables forms) ∧
  (∀ f, form_counts report !! f
        = if decide (f ∈ forms) then Some (size (form_set tables f)) else None) ∧
  (∀ f, missing_by_form report !! f
        = if decide (f ∈ forms)
          then Some (size (universe tables forms ∖ form_set tables f)) else None).
Proof.
  intros H forms. unfold validate_enrollment in H. fold forms in H.
  apply bind_ok in H as (fp0 & Hfp0 & [= <-]).
  pose proof (collect_form_patients_ok_keyed _ _ _ _ Hfp0) as Hk. split; [done|].
  destruct (collect_form_patients_keyed tables forms ∅ Hk) as (fp & E & Hfp).
  rewrite E in Hfp0. injection Hfp0 as <-.
  assert (∀ s, s ∈ (map_to_list fp).*2 ↔ ∃ f, f ∈ forms ∧ s = form_set tables f) as Hvalues.
  { intros s. rewrite elem_of_values. split.
    - intros (f & Hf). rewrite Hfp in Hf. destruct (decide (f ∈ forms)); [|done].
      injection Hf as <-. by exists f.
    - intros (f & Hf & ->). exists f. rewrite Hfp. by rewrite decide_True. }
  assert (set_union (map_to_list fp).*2 = universe tables forms) as Hunion.
  { apply set_eq. intros p. rewrite elem_of_set_union, elem_of_universe. split.
    - intros (s & (f & Hf & ->)%Hvalues & Hp). by exists f.
    - intros (f & Hf & Hp). exists (form_set tables f). split; [|done].
      apply Hvalues. by exists f. }
  assert (set_intersection (map_to_list fp).*2 = enrolled_set tables forms) as Hinter.
  { apply set_eq. intros p. unfold enrolled_set, in_every_form.
    rewrite elem_of_set_intersection, elem_of_filter, elem_of_universe, Forall_forall.
    split.
    - intros [Hne Hall].
      assert (∀ f, f ∈ forms → p ∈ form_set tables f) as Hall'.
      { intros f Hf. apply Hall, Hvalues. by exists f. }
      split; [done|]. destruct forms as [|f forms'] eqn:Eforms.
      + exfalso. apply Hne. destruct ((map_to_list fp).*2) as [|s ?] eqn:Ev; [done|].
        assert (s ∈ s :: l) as (f & ?%elem_of_nil & _)%Hvalues by by left. done.
      + exists f. split; [by left|]. apply Hall'. by left.
    - intros [Hall (f & Hf & Hp)]. split.
      + intros Hnil. assert (form_set tables f ∈ (map_to_list fp).*2) as Hin.
        { apply Hvalues. by exists f. }
        rewrite Hnil in Hin. by apply elem_of_nil in Hin.
      + intros s (f' & Hf' & ->)%Hvalues. by apply Hall. }
  unfold build_report. simpl. rewrite Hunion, Hinter.
  split; [done|]. split; [done|]. split; [done|]. split.
  - intros f. rewrite lookup_fmap, Hfp. by destruct (decide (f ∈ forms)).
  - intros f. rewrite !lookup_fmap, Hfp. by destruct (decide (f ∈ forms)).
Qed.

End ReportFacts.

Import ReportFacts.

(** X18. The counts of an enrollment report are consistent: for every
    required form, its patient count and its missing count add up to
    [total_unique_patients], and [enrolled_count] is at most its patient
    count (hence at most the total). *)
Theorem report_counts_add_up tables required_forms report form_name count missing :
  validate_enrollment tables required_forms = Ok report →
  form_counts report !! form_name = Some count →
  missing_by_form report !! form_name = Some missing →
  (count + missing = total_unique_patients report)%nat ∧
  (enrolled_count report ≤ count)%nat ∧
  (count ≤ total_unique_patients report)%nat.
Proof.
  intros H Hc Hm.
  destruct (validate_enrollment_ok _ _ _ H) as (_ & Ht & He & _ & Hcounts & Hmissing).
  rewrite Hcounts in Hc. rewrite Hmissing in Hm.
  destruct (decide (form_name ∈ _)) as [Hin|]; [|done].
  injection Hc as <-. injection Hm as <-. rewrite Ht, He.
  pose proof (form_set_subseteq tables _ form_name Hin) as Hsub.
  pose proof (enrolled_set_subseteq tables _ form_name Hin) as Hsub'.
  rewrite (size_difference _ _ Hsub).
  pose proof (subseteq_size _ _ Hsub). pose proof (subseteq_size _ _ Hsub'). lia.
Qed.

Lemma report_counts_add_up_witness :
  (3 + 1 = total_unique_patients Examples.enrollment)%nat ∧
  (enrolled_count Examples.enrollment ≤ 3)%nat ∧
  (3 ≤ total_unique_patients Examples.enrollment)%nat.
Proof.
  apply (report_counts_add_up Examples.store None Examples.enrollment "encounter_maindata").
  - vm_compute. reflexivity.
  - vm_compute. reflexivity.
  - vm_compute. reflexivity.
Defined.

(** X19. The two enrollment operations treat an absent form differently.
    [get_enrolled_patients] skips it; [validate_enrollment] counts it as an
    empty set.  So the report's enrolled patients are always among those
    [get_enrolled_patients] returns; they are the same patients when the
    store holds every required form, and there are none as soon as one
    required form is absent. *)
Theorem report_and_enrolled_patients tables required_forms report enrolled :
  validate_enrollment tables required_forms = Ok report →
  get_enrolled_patients tables required_forms = Ok enrolled →
  let forms := default default_required_forms required_forms in
  (∀ p, p ∈ enrolled_patients report → p ∈ enrolled) ∧
  ((∀ f, f ∈ forms → is_Some (tables !! f)) → enrolled_patients report ≡ₚ enrolled) ∧
  ((∃ f, f ∈ forms ∧ tables !! f = None) →
     enrolled_patients report = [] ∧ enrolled_count report = 0%nat).
Proof.
  intros Hv Hg forms.
  destruct (validate_enrollment_ok _ _ _ Hv) as (_ & _ & Hcount & Hlist & _).
  destruct (get_enrolled_patients_ok _ _ _ Hg) as [Hnd Henr].
  fold forms in Hcount, Hlist, Henr.
  assert (∀ p, p ∈ enrolled_set tables forms → p ∈ enrolled) as Hsub.
  { intros p [Hall _]%elem_of_filter. apply Henr. intros f df Hf Hdf.
    unfold in_every_form in Hall. rewrite Forall_forall in Hall.
    specialize (Hall f Hf). unfold form_set in Hall. by rewrite Hdf in Hall. }
  split; [|split].
  - intros p. rewrite Hlist, elem_of_elements. apply Hsub.
  - intros Hheld. rewrite Hlist. apply NoDup_Permutation; [apply NoDup_elements | done |].
    intros p. rewrite elem_of_elements. split; [apply Hsub|]. intros Hp.
    assert (∀ f, f ∈ forms → p ∈ form_set tables f) as Hall.
    { intros f Hf. destruct (Hheld f Hf) as [df Hdf]. unfold form_set. rewrite Hdf.
      by apply (proj1 (Henr p) Hp f df). }
    apply elem_of_filter. split.
    + unfold in_every_form. by rewrite Forall_forall.
    + apply elem_of_universe.
      unfold get_enrolled_patients in Hg. fold forms in Hg.
      destruct forms as [|f forms']; [|exists f; split; [by left | apply Hall; by left]].
      simpl in Hg. done.
  - intros (f & Hf & Hnone).
    assert (enrolled_set tables forms = ∅) as Hempty.
    { apply set_eq. intros p. split; [|by intros ?%elem_of_empty].
      intros Hp. apply (enrolled_set_subseteq tables forms f Hf) in Hp.
      unfold form_set in Hp. by rewrite Hnone in Hp. }
    rewrite Hlist, Hcount, Hempty. split; [apply elements_empty | apply size_empty].
Qed.

Lemma report_and_enrolled_patients_witness :
  (∀ p, p ∈ enrolled_patients Examples.partial_enrollment → p ∈ [Examples.P3; Examples.P1; Examples.P2]) ∧
  ((∀ f, f ∈ ["encounter_maindata"; "labs"] → is_Some (Examples.store !! f)) →
     enrolled_patients Examples.partial_enrollment ≡ₚ [Examples.P3; Examples.P1; Examples.P2]) ∧
  ((∃ f, f ∈ ["encounter_maindata"; "labs"] ∧ Examples.store !! f = None) →
     enrolled_patients Examples.partial_enrollment = [] ∧
     enrolled_count Examples.partial_enrollment = 0%nat).
Proof.
  apply (report_and_enrolled_patients Examples.store (Some ["encounter_maindata"; "labs"])).
  - vm_compute. reflexivity.
  - vm_compute. reflexivity.
Defined.

(** X20. What [get_enrolled_patients] raises is decided by the store alone:
    a [KeyError] for the patient column exactly when some required form
    that the store holds has no such column (even if other required forms
    are fine), its "no required forms" [ValueError] exactly when the store
    holds none of the required forms, and nothing else. *)
Theorem get_enrolled_patients_errors tables required_forms :
  let forms := default default_required_forms required_forms in
  match get_enrolled_patients tables required_forms with
  | Ok _ =>
      patient_keyed tables forms ∧ ∃ f, f ∈ forms ∧ is_Some (tables !! f)
  | Raise e =>
      (e = KeyError "FACPATID" ∧
       ∃ f df, f ∈ forms ∧ tables !! f = Some df ∧ has_column df "FACPATID" = false) ∨
      (e = ValueError "No required forms found in tables" ∧
       ∀ f, f ∈ forms → tables !! f = None)
  end.
Proof.
  intros forms. unfold get_enrolled_patients. fold forms.
  destruct (collect_patient_sets tables forms) as [sets|e] eqn:E.
  - pose proof (collect_patient_sets_ok_keyed _ _ _ E) as Hk.
    rewrite (collect_patient_sets_keyed tables forms Hk) in E. injection E as <-.
    rewrite ok_bind. destruct (omap _ forms) as [|s sets] eqn:Es.
    + right. split; [done|]. by apply collected_nil.
    + split; [done|].
      assert (s ∈ omap (λ f, ids_of <$> tables !! f) forms) as Hs by (rewrite Es; by left).
      apply elem_of_collected in Hs as (f & df & Hf & Hdf & _). exists f. by rewrite Hdf.
  - rewrite raise_bind. left. clear -E. induction forms as [|f forms IH]; [done|].
    simpl in E. destruct (tables !! f) as [df|] eqn:Edf.
    + destruct (has_column df "FACPATID") eqn:Hc.
      * rewrite (patients_of_keyed df Hc), ok_bind in E.
        destruct (collect_patient_sets tables forms) as [sets|e'] eqn:E'; [done|].
        injection E as <-. destruct (IH eq_refl) as (-> & f' & df' & ? & ? & ?).
        split; [done|]. exists f', df'. split; [by right | done].
      * rewrite (patients_of_unkeyed df Hc) in E. injection E as <-.
        split; [done|]. exists f, df. split; [by left | done].
    + destruct (IH E) as (-> & f' & df' & ? & ? & ?).
      split; [done|]. exists f', df'. split; [by right | done].
Qed.

(** ** The filter DSL *)

Module ExpressionFacts.
Import CohortManager CohortManagerFacts FilterExpression.

Lemma py_le_type_error x y e : py_le x y = Raise e → e = TypeError.
Proof.
  destruct x as [|[]|n|s], y as [|[]|n'|s']; simpl; try done; by intros [= <-].
Qed.

Lemma py_lt_type_error x y e : py_lt x y = Raise e → e = TypeError.
Proof.
  destruct x as [|[]|n|s], y as [|[]|n'|s']; simpl; try done; by intros [= <-].
Qed.

Lemma compare_cells_length test l mask :
  compare_cells test l = Ok mask → List.length mask = List.length l.
Proof.
  revert mask. induction l as [|x l IH]; intros mask; simpl.
  - by intros [= <-].
  - intros (b & _ & (rest & Hrest & [= <-])%bind_ok)%bind_ok. simpl. f_equal. by apply IH.
Qed.

Lemma compare_cells_raise test l e :
  only_type_error test → compare_cells test l = Raise e → e = TypeError.
Proof.
  intros Ht. induction l as [|x l IH]; [done|]. simpl.
  destruct (test x) as [b|e'] eqn:E.
  - rewrite ok_bind. destruct (compare_cells test l) as [rest|e'']; [done|].
    intros [= <-]. by apply IH.
  - intros [= <-]. by apply (Ht x).
Qed.

Lemma mask_rows_same_length (rs : list row) mask :
  List.length mask = List.length rs → ∃ out, mask_rows rs mask = Ok out.
Proof.
  revert mask. induction rs as [|r rs IH]; intros [|b mask]; simpl; try done.
  - by eexists.
  - intros [= H]. destruct (IH mask H) as [out ->]. by eexists.
Qed.

(** The outcome of a one-comparison condition. *)
Lemma compare_column_outcome c test df :
  only_type_error test →
  match compare_column c test df with
  | Ok mask => List.length mask = List.length (rows df) ∧ c ∈ columns df
  | Raise err => (err = KeyError c ∧ c ∉ columns df) ∨ err = TypeError
  end.
Proof.
  intros Ht. unfold compare_column, column_values.
  destruct (has_column df c) eqn:Hc.
  - rewrite ok_bind. destruct (compare_cells test _) as [mask|e] eqn:E.
    + split; [|by apply FieldResolverFacts.has_column_true].
      rewrite (compare_cells_length _ _ _ E). apply length_fmap.
    + right. exact (compare_cells_raise test _ e Ht E).
  - left. split; [done|]. by apply FieldResolverFacts.has_column_false.
Qed.

Lemma built_outcome e df :
  built e →
  match apply e df with
  | Ok mask => List.length mask = List.length (rows df) ∧ column e ∈ columns df
  | Raise err =>
      (err = ValueError "No filter condition defined" ∧ _condition e = None) ∨
      (err = KeyError (column e) ∧ column e ∉ columns df) ∨
      err = TypeError
  end.
Proof.
  intros [c|e0 v _|e0 l _|e0 lo hi _|e0 v _|e0 v _]; unfold apply; simpl.
  - left. by split.
  - pose proof (compare_column_outcome (column e0) (λ x, Ok (py_eq x v)) df) as H.
    destruct (compare_column _ _ df); [by apply H | right; by apply H].
  - pose proof (compare_column_outcome (column e0) (λ x, Ok (py_isin x l)) df) as H.
    destruct (compare_column _ _ df); [by apply H | right; by apply H].
  - pose proof (compare_column_outcome (column e0) (λ x, py_ge x lo) df) as Hge.
    pose proof (compare_column_outcome (column e0) (λ x, py_le x hi) df) as Hle.
    destruct (compare_column _ (λ x, py_ge x lo) df) as [ge|e1].
    + rewrite ok_bind. destruct (compare_column _ (λ x, py_le x hi) df) as [le|e2].
      * rewrite ok_bind. destruct Hge as [Hge ?]; [intros x err; apply py_le_type_error|].
        destruct Hle as [Hle _]; [intros x err; apply py_le_type_error|].
        split; [|done]. rewrite length_zip_with. lia.
      * right. apply Hle. intros x err. apply py_le_type_error.
    + right. apply Hge. intros x err. apply py_le_type_error.
  - pose proof (compare_column_outcome (column e0) (λ x, py_gt x v) df) as H.
    destruct (compare_column _ _ df);
      [apply H | right; apply H]; intros x err; apply py_lt_type_error.
  - pose proof (compare_column_outcome (column e0) (λ x, py_lt x v) df) as H.
    destruct (compare_column _ _ df);
      [apply H | right; apply H]; intros x err; apply py_lt_type_error.
Qed.

(** A mask computed cell by cell selects what the same test selects row by
    row. *)
Lemma mask_of_test c test (rs : list row) :
  compare_cells test ((λ r, cell r c) <$> rs) ≫= mask_rows rs
  = select_rows (λ r, test (cell r c)) rs.
Proof.
  induction rs as [|r rs IH]; [done|]. rewrite fmap_cons. simpl.
  destruct (test (cell r c)) as [b|e]; [|done]. rewrite !ok_bind.
  rewrite <- IH. destruct (compare_cells test _) as [mask|e]; [|done].
  by rewrite !ok_bind.
Qed.

Lemma mask_of_both c lo hi (rs : list row) :
  (ge ← compare_cells (λ x, py_ge x lo) ((λ r, cell r c) <$> rs);
   le ← compare_cells (λ x, py_le x hi) ((λ r, cell r c) <$> rs);
   mask_rows rs (zip_with andb ge le))
  = select_rows (λ r, ge ← py_ge (cell r c) lo; le ← py_le (cell r c) hi; Ok (ge && le)) rs.
Proof.
  induction rs as [|r rs IH]; [done|]. rewrite fmap_cons. simpl.
  destruct (py_ge (cell r c) lo) as [g|e1] eqn:Eg; [|done]. rewrite !ok_bind.
  destruct (compare_cells (λ x, py_ge x lo) _) as [gs|e2] eqn:Egs.
  - rewrite !ok_bind. destruct (py_le (cell r c) hi) as [l|e3]; [|done].
    rewrite !ok_bind. rewrite ok_bind in IH. rewrite <- IH.
    destruct (compare_cells (λ x, py_le x hi) _) as [ls|e4]; [|done].
    by rewrite !ok_bind.
  - rewrite raise_bind in IH. rewrite raise_bind.
    apply (compare_cells_raise _ _ e2) in Egs as ->; [|intros x e; apply py_le_type_error].
    destruct (py_le (cell r c) hi) as [l|e3] eqn:El.
    + rewrite ok_bind, <- IH. done.
    + by apply py_le_type_error in El as ->.
Qed.

Lemma custom_as_value_filter c e v df :
  expresses c e v → c ∈ columns df →
  apply_custom df (Some (apply e)) = apply_value_filter df c v.
Proof.
  intros He Hc. apply FieldResolverFacts.has_column_true in Hc.
  unfold apply_custom, apply.
  destruct He as [e0 v <-|e0 l <-|e0 lo hi <-]; simpl;
    unfold compare_column, column_values; rewrite Hc, !ok_bind, ?bind_bind;
    unfold select.
  - by rewrite <- (mask_of_test (column e0) (λ x, Ok (py_eq x v))), bind_bind.
  - by rewrite <- (mask_of_test (column e0) (λ x, Ok (py_isin x l))), bind_bind.
  - rewrite <- (mask_of_both (column e0) lo hi), !bind_bind.
    destruct (compare_cells (λ x, py_ge x lo) _) as [ge|]; [|done]. rewrite !ok_bind.
    rewrite !bind_bind.
    destruct (compare_cells (λ x, py_le x hi) _) as [le|]; [|done]. by rewrite !ok_bind.
Qed.

End ExpressionFacts.

Import ExpressionFacts.

(** X21. A condition built with the DSL fits the table it is applied to: its
    mask has one entry per row, so used as [custom_filter] it never fails on
    the shape of the mask.  What it can raise is its own [ValueError] when no
    condition was given, a [KeyError] when the table lacks its column, and a
    [TypeError] from an ordering between a string and a number. *)
Theorem expression_mask e df :
  FilterExpression.built e →
  match FilterExpression.apply e df with
  | Ok mask =>
      List.length mask = List.length (rows df) ∧
      FilterExpression.column e ∈ columns df ∧
      ∃ df', apply_custom df (Some (FilterExpression.apply e)) = Ok df'
  | Raise err =>
      (err = ValueError "No filter condition defined" ∧
       FilterExpression._condition e = None) ∨
      (err = KeyError (FilterExpression.column e) ∧
       FilterExpression.column e ∉ columns df) ∨
      err = TypeError
  end.
Proof.
  intros Hb. pose proof (built_outcome e df Hb) as H. unfold apply_custom.
  destruct (FilterExpression.apply e df) as [mask|err]; [|done].
  destruct H as [Hlen Hcol]. split; [done|]. split; [done|].
  destruct (mask_rows_same_length (rows df) mask Hlen) as [out Hout].
  rewrite ok_bind, Hout. by eexists.
Qed.

Lemma expression_mask_witness :
  match FilterExpression.apply Examples.is_female Examples.demographics with
  | Ok mask =>
      List.length mask = List.length (rows Examples.demographics) ∧
      FilterExpression.column Examples.is_female ∈ columns Examples.demographics ∧
      ∃ df', apply_custom Examples.demographics
               (Some (FilterExpression.apply Examples.is_female)) = Ok df'
  | Raise err =>
      (err = ValueError "No filter condition defined" ∧
       FilterExpression._condition Examples.is_female = None) ∨
      (err = KeyError (FilterExpression.column Examples.is_female) ∧
       FilterExpression.column Examples.is_female ∉ columns Examples.demographics) ∨
      err = TypeError
  end.
Proof.
  apply (expression_mask Examples.is_female Examples.demographics).
  repeat constructor.
Defined.

(** X22. The DSL and the filter dict say the same thing: for a column of the
    working table that is named literally (and is not the registry field),
    passing [FilterExpression(c).equals(v).apply], [.in_list(l).apply] or
    [.between(lo, hi).apply] as [custom_filter] gives the outcome of the
    filters [{c: v}], [{c: l}] and [{c: (lo, hi)}]: the same manager and the
    same cohort, or the same exception. *)
Theorem expression_as_filter m source_cohort name source df0 c e v :
  _cohorts m !! source_cohort = Some source →
  working_frame m source = Ok df0 →
  c ∈ columns df0 →
  c ≠ "" →
  c ≠ "registry" →
  FilterExpression.expresses c e v →
  filter_cohort m source_cohort name None (Some (FilterExpression.apply e))
  = filter_cohort m source_cohort name (Some [(c, v)]) None.
Proof.
  intros Hs H0 Hc Hne Hreg He. unfold filter_cohort. rewrite Hs, H0, !ok_bind.
  simpl default. rewrite ComposeFacts.apply_filters_one.
  change (apply_filters (field_resolver m) df0 []) with (Ok df0). rewrite ok_bind.
  rewrite (custom_as_value_filter c e v df0 He Hc).
  unfold apply_filter. rewrite decide_False by done.
  unfold _resolve_filter_field.
  rewrite (proj2 (FieldResolverFacts.has_column_true df0 c) Hc).
  assert (FieldResolver.truthy (Some c) = Some c) as -> by by destruct c.
  by destruct (apply_value_filter df0 c v).
Qed.

Lemma expression_as_filter_witness :
  filter_cohort Examples.manager "base" "women" None
    (Some (FilterExpression.apply Examples.is_female))
  = filter_cohort Examples.manager "base" "women"
      (Some [("gender", FScalar (VStr "Female"))]) None.
Proof.
  apply (expression_as_filter Examples.manager "base" "women"
           [Examples.P1; Examples.P2; Examples.P3; Examples.P4] Examples.demographics).
  - vm_compute. reflexivity.
  - vm_compute. reflexivity.
  - apply (bool_decide_unpack _). vm_compute. exact I.
  - discriminate.
  - discriminate.
  - by constructor.
Defined.

(** ** The exploratory scripts *)

Module ScriptFacts.
Import CohortManager CohortManagerFacts FilterFacts Scripts.

Lemma default_name_not_base disease registry : default_name disease registry ≠ "base".
Proof. unfold default_name. simpl. discriminate. Qed.

Lemma listed_true cohorts n : listed cohorts n = true ↔ is_Some (_cohorts cohorts !! n).
Proof. unfold listed. apply bool_decide_eq_true. Qed.

Lemma listed_false cohorts n : listed cohorts n = false ↔ _cohorts cohorts !! n = None.
Proof.
  unfold listed. rewrite bool_decide_eq_false, <- eq_None_not_Some. done.
Qed.

(** One successful [filter_cohort] from ["base"] into another name. *)
Lemma filter_from_base cohorts n filters cohorts' c :
  n ≠ "base" →
  filter_cohort cohorts "base" n filters None = Ok (cohorts', c) →
  tables cohorts' = tables cohorts ∧
  _demographics_with_age cohorts' = _demographics_with_age cohorts ∧
  field_resolver cohorts' = field_resolver cohorts ∧
  _cohorts cohorts' = <[n := c]> (_cohorts cohorts) ∧
  ∃ base, _cohorts cohorts !! "base" = Some base ∧ ∀ p, p ∈ c → p ∈ base.
Proof.
  intros Hne H.
  assert (∀ p, p ∈ c → ∃ base, _cohorts cohorts !! "base" = Some base ∧ p ∈ base) as Hsub.
  { intros p. by eapply filter_cohort_elem_source. }
  apply filter_cohort_ok in H as (base & df0 & df1 & df2 & Hb & _ & _ & _ & -> & ->).
  simpl. repeat split. exists base. split; [done|]. intros p Hp.
  destruct (Hsub p Hp) as (b' & Hb' & ?). rewrite Hb in Hb'. by injection Hb' as <-.
Qed.

(** What the loop of [create_all_disease_cohorts] keeps true. *)
Lemma create_all_invariant force registry diseases :
  ∀ cohorts acc cohorts' created,
    create_all cohorts diseases force registry acc = (cohorts', created) →
    tables cohorts' = tables cohorts ∧
    _demographics_with_age cohorts' = _demographics_with_age cohorts ∧
    field_resolver cohorts' = field_resolver cohorts ∧
    _cohorts cohorts' !! "base" = _cohorts cohorts !! "base" ∧
    (∃ new, created = acc ++ new ∧
       ∀ n, n ∈ new →
         (∃ d, d ∈ diseases ∧ n = default_name d registry) ∧
         ∃ base, _cohorts cohorts !! "base" = Some base ∧ within base cohorts' n) ∧
    (∀ base n, _cohorts cohorts !! "base" = Some base →
       within base cohorts n → within base cohorts' n) ∧
    (force = false →
       ∀ n c, _cohorts cohorts !! n = Some c → _cohorts cohorts' !! n = Some c) ∧
    (∀ n, (∀ d, d ∈ diseases → n ≠ default_name d registry) →
          _cohorts cohorts' !! n = _cohorts cohorts !! n).
Proof.
  induction diseases as [|d diseases IH]; intros cohorts acc cohorts' created H.
  - injection H as <- <-. repeat split; try done.
    exists []. split; [by rewrite app_nil_r|]. by intros n ?%elem_of_nil.
  - cbn [create_all] in H.
    assert (∀ acc',
      create_all cohorts diseases force registry acc' = (cohorts', created) →
      acc' = acc →
      tables cohorts' = tables cohorts ∧
      _demographics_with_age cohorts' = _demographics_with_age cohorts ∧
      field_resolver cohorts' = field_resolver cohorts ∧
      _cohorts cohorts' !! "base" = _cohorts cohorts !! "base" ∧
      (∃ new, created = acc ++ new ∧
         ∀ n, n ∈ new →
           (∃ d0, d0 ∈ d :: diseases ∧ n = default_name d0 registry) ∧
           ∃ base, _cohorts cohorts !! "base" = Some base ∧ within base cohorts' n) ∧
      (∀ base n, _cohorts cohorts !! "base" = Some base →
         within base cohorts n → within base cohorts' n) ∧
      (force = false →
         ∀ n c, _cohorts cohorts !! n = Some c → _cohorts cohorts' !! n = Some c) ∧
      (∀ n, (∀ d0, d0 ∈ d :: diseases → n ≠ default_name d0 registry) →
            _cohorts cohorts' !! n = _cohorts cohorts !! n)) as Hsame.
    { intros acc' H' ->.
      destruct (IH _ _ _ _ H') as (HT & HD & HR & HB & (new & Hnew & Hn) & Hw & Hk & Ho).
      repeat split; try done.
      - exists new. split; [done|]. intros n Hin.
        destruct (Hn n Hin) as [(d0 & ? & ?) ?]. split; [|done].
        exists d0. split; [by right | done].
      - intros n Hnot. apply Ho. intros d0 ?. apply Hnot. by right. }
    destruct (listed cohorts (default_name d registry) && negb force) eqn:Hskip;
      [by apply (Hsame acc)|].
    destruct (filter_cohort cohorts "base" (default_name d registry) _ None)
      as [[c1 c]|e] eqn:Hf; [|by apply (Hsame acc)].
    clear Hsame.
    destruct (filter_from_base _ _ _ _ _ (default_name_not_base d registry) Hf)
      as (HT1 & HD1 & HR1 & HC1 & base & Hbase & Hsub).
    assert (_cohorts c1 !! "base" = _cohorts cohorts !! "base") as HB1.
    { rewrite HC1. apply lookup_insert_ne. apply default_name_not_base. }
    assert (within base c1 (default_name d registry)) as Hnew1.
    { exists c. split; [|done]. rewrite HC1. apply lookup_insert_eq. }
    destruct (IH _ _ _ _ H) as (HT & HD & HR & HB & (new & Hnew & Hn) & Hw & Hk & Ho).
    split; [congruence|]. split; [congruence|]. split; [congruence|].
    split; [congruence|]. split; [|split; [|split]].
    + exists (default_name d registry :: new). split.
      { by rewrite Hnew, <- app_assoc. }
      intros n [->|Hin]%elem_of_cons.
      * split; [exists d; split; [by left | done]|]. exists base. split; [done|].
        apply Hw; [congruence | done].
      * destruct (Hn n Hin) as [(d0 & ? & ?) (b' & Hb' & ?)]. split.
        -- exists d0. split; [by right | done].
        -- exists b'. split; [congruence | done].
    + intros b n Hb (c0 & Hc0 & Hc0sub). rewrite Hbase in Hb. injection Hb as <-.
      apply Hw; [congruence|].
      destruct (decide (n = default_name d registry)) as [->|Hne]; [done|].
      exists c0. split; [|done]. rewrite HC1. by rewrite lookup_insert_ne.
    + intros Hforce n c0 Hc0. apply (Hk Hforce). rewrite HC1.
      rewrite lookup_insert_ne; [done|]. intros <-.
      rewrite Hforce, andb_true_r in Hskip. apply listed_false in Hskip. congruence.
    + intros n Hnot. rewrite Ho by (intros d0 ?; apply Hnot; by right).
      rewrite HC1. apply lookup_insert_ne. intros Heq. apply (Hnot d); [by left | done].
Qed.

End ScriptFacts.

Import ScriptFacts.

(** X23. [create_cohort] under its default name makes a cohort from the
    base cohort and never touches the base cohort itself: on success the
    cohort stored under [exploratory_<disease>_<registry>] holds patients of
    the base cohort only, the tables and every other cohort are as before,
    and without [force] the name was free; it answers with its
    [RuntimeError] exactly when the name is taken and [force] is off. *)
Theorem create_cohort_default cohorts disease registry force :
  let n := Scripts.default_name disease registry in
  match Scripts.create_cohort cohorts disease registry None force with
  | Scripts.Created cohorts' cohort_name =>
      cohort_name = n ∧
      (force = false → _cohorts cohorts !! n = None) ∧
      tables cohorts' = tables cohorts ∧
      (∀ other, other ≠ n → _cohorts cohorts' !! other = _cohorts cohorts !! other) ∧
      _cohorts cohorts' !! "base" = _cohorts cohorts !! "base" ∧
      ∃ base, _cohorts cohorts !! "base" = Some base ∧ Scripts.within base cohorts' n
  | Scripts.RuntimeError _ => force = false ∧ is_Some (_cohorts cohorts !! n)
  | Scripts.Failed _ => force = true ∨ _cohorts cohorts !! n = None
  end.
Proof.
  intros n. unfold Scripts.create_cohort. simpl FieldResolver.truthy. cbv iota. fold n.
  destruct (Scripts.listed cohorts n && negb force) eqn:Hskip.
  - apply andb_true_iff in Hskip as [Hl Hf]. apply negb_true_iff in Hf.
    split; [done|]. by apply listed_true.
  - assert (force = true ∨ _cohorts cohorts !! n = None) as Hfree.
    { destruct force; [by left|]. right. rewrite andb_true_r in Hskip.
      by apply listed_false. }
    destruct (filter_cohort cohorts "base" n _ None) as [[cohorts' c]|e] eqn:Hf; [|done].
    destruct (filter_from_base _ _ _ _ _ (default_name_not_base disease registry) Hf)
      as (HT & _ & _ & HC & base & Hbase & Hsub).
    split; [done|]. split; [|split; [done|split; [|split]]].
    + intros ->. by destruct Hfree.
    + intros other Hne. rewrite HC. by apply lookup_insert_ne.
    + rewrite HC. apply lookup_insert_ne. apply default_name_not_base.
    + exists base. split; [done|]. exists c. split; [|done].
      rewrite HC. apply lookup_insert_eq.
Qed.

(** X24. The loop of [create_all_disease_cohorts] only adds cohorts cut out
    of the base cohort.  It leaves the tables and the base cohort as they
    were; every name it reports as created is the default name of one of the
    diseases and is stored, at the end, with patients of the base cohort
    only; a name that is not the default name of one of the diseases keeps
    its cohort; and without [force] every cohort stored at the start is
    still stored unchanged. *)
Theorem create_all_disease_cohorts_loop cohorts diseases force registry cohorts' created :
  Scripts.create_all cohorts diseases force registry [] = (cohorts', created) →
  tables cohorts' = tables cohorts ∧
  _cohorts cohorts' !! "base" = _cohorts cohorts !! "base" ∧
  (∀ n, n ∈ created →
     (∃ d, d ∈ diseases ∧ n = Scripts.default_name d registry) ∧
     ∃ base, _cohorts cohorts !! "base" = Some base ∧ Scripts.within base cohorts' n) ∧
  (∀ n, (∀ d, d ∈ diseases → n ≠ Scripts.default_name d registry) →
        _cohorts cohorts' !! n = _cohorts cohorts !! n) ∧
  (force = false →
     ∀ n c, _cohorts cohorts !! n = Some c → _cohorts cohorts' !! n = Some c).
Proof.
  intros H.
  destruct (create_all_invariant _ _ _ _ _ _ _ H)
    as (HT & _ & _ & HB & (new & Hnew & Hn) & _ & Hk & Ho).
  simpl in Hnew. subst new.
  split; [done|]. split; [done|]. split; [done|]. split; [exact Ho | exact Hk].
Qed.

Lemma create_all_disease_cohorts_loop_witness :
  tables Examples.all_diseases.1 = tables Examples.manager ∧
  _cohorts Examples.all_diseases.1 !! "base" = _cohorts Examples.manager !! "base" ∧
  (∀ n, n ∈ Examples.all_diseases.2 →
     (∃ d, d ∈ ["DMD"; "SMA"; "dmd"] ∧ n = Scripts.default_name d false) ∧
     ∃ base, _cohorts Examples.manager !! "base" = Some base ∧
             Scripts.within base Examples.all_diseases.1 n) ∧
  (∀ n, (∀ d, d ∈ ["DMD"; "SMA"; "dmd"] → n ≠ Scripts.default_name d false) →
        _cohorts Examples.all_diseases.1 !! n = _cohorts Examples.manager !! n) ∧
  (false = false →
     ∀ n c, _cohorts Examples.manager !! n = Some c →
            _cohorts Examples.all_diseases.1 !! n = Some c).
Proof.
  apply (create_all_disease_cohorts_loop Examples.manager ["DMD"; "SMA"; "dmd"] false false).
  vm_compute. reflexivity.
Defined.

(** ** Filtering again *)

Module AgainFacts.
Import CohortManager CohortManagerFacts ComposeFacts FilterFacts IdentityFacts.

Lemma apply_filters_agree R items df df' :
  frame_equiv df df' →
  frames_agree (apply_filters R df items) (apply_filters R df' items).
Proof.
  revert df df'. induction items as [|item items IH]; intros df df' He; [done|].
  simpl. apply bind_agree; [by apply apply_filter_agree|]. intros d d' Hd. by apply IH.
Qed.

Lemma select_rows_all_pass (test : row → result bool) rs :
  (∀ r, r ∈ rs → test r = Ok true) → select_rows test rs = Ok rs.
Proof.
  induction rs as [|r rs IH]; intros H; [done|]. simpl.
  rewrite (H r) by by left. rewrite ok_bind, IH; [done|].
  intros r' ?. apply H. by right.
Qed.

Lemma select_all_pass df test :
  (∀ r, r ∈ rows df → test r = Ok true) → select df test = Ok df.
Proof.
  intros H. unfold select. rewrite (select_rows_all_pass _ _ H), ok_bind.
  by destruct df.
Qed.

Lemma apply_value_filter_all_pass df c v :
  (∀ r, r ∈ rows df → value_passes c v r) → apply_value_filter df c v = Ok df.
Proof.
  intros H. destruct v as [d|t|l|v]; simpl in *.
  - assert (match assoc "min" d with
            | Some lo => select df (λ r, py_ge (cell r c) lo)
            | None => Ok df
            end = Ok df) as ->.
    { destruct (assoc "min" d) as [lo|]; [|done]. apply select_all_pass.
      intros r Hr. by apply (H r Hr). }
    rewrite ok_bind. destruct (assoc "max" d) as [hi|]; [|done].
    apply select_all_pass. intros r Hr. by apply (H r Hr).
  - destruct t as [|lo [|hi [|x t]]]; apply select_all_pass; intros r Hr;
      specialize (H r Hr); try done.
    destruct H as [-> ->]. done.
  - apply select_all_pass. intros r Hr. by rewrite (H r Hr).
  - apply select_all_pass. intros r Hr. by rewrite (H r Hr).
Qed.

Lemma apply_filter_all_pass R df item :
  (∀ r, r ∈ rows df → passes R df item r) → apply_filter R df item = Ok df.
Proof.
  destruct item as [field v]. unfold passes, apply_filter, _apply_registry_filter. simpl.
  intros H. destruct (decide (field = "registry")) as [->|Hne].
  - destruct (FieldResolver.truthy _) as [c|]; [|done].
    destruct (selects_usndr v); apply select_all_pass; intros r Hr;
      specialize (H r Hr); unfold py_ne; by rewrite H.
  - destruct (FieldResolver.truthy _) as [c|]; [|done].
    by apply apply_value_filter_all_pass.
Qed.

Lemma apply_filters_all_pass R items df :
  (∀ r, r ∈ rows df → Forall (λ item, passes R df item r) items) →
  apply_filters R df items = Ok df.
Proof.
  induction items as [|item items IH]; intros H; [done|]. simpl.
  rewrite apply_filter_all_pass, ok_bind.
  - apply IH. intros r Hr. specialize (H r Hr). by apply Forall_cons in H as [_ ?].
  - intros r Hr. specialize (H r Hr). by apply Forall_cons in H as [? _].
Qed.

End AgainFacts.

Import AgainFacts.

(** X25. Filtering is idempotent.  Over demographics with at most one row
    per patient, for a source cohort whose patients all have a demographics
    row and filter values that are scalars, ranges, pairs [(lo, hi)] or
    lists, filtering the result of a call again with the same filter dict
    never raises and gives back the same patients. *)
Theorem filter_cohort_idempotent m source_cohort n1 n2 items source m1 c1 :
  one_row_per_patient (_get_demographics m) →
  _cohorts m !! source_cohort = Some source →
  covered m source →
  Forall (λ item, pairs_only item.2) items →
  filter_cohort m source_cohort n1 (Some items) None = Ok (m1, c1) →
  ∃ m2 c2,
    filter_cohort m1 n1 n2 (Some items) None = Ok (m2, c2) ∧
    patient_set c2 = patient_set c1.
Proof.
  intros Hnd Hsource _ _ H.
  apply filter_cohort_ok in H
    as (source' & df0 & df1 & df2 & Hs & H0 & H1 & [= <-] & -> & ->).
  rewrite Hsource in Hs. injection Hs as <-.
  simpl in H1. set (c1 := drop_duplicates ((λ r, cell r "FACPATID") <$> rows df1)).
  unfold filter_cohort. simpl _cohorts. rewrite lookup_insert_eq.
  change (working_frame _ c1) with (working_frame m c1).
  destruct (working_frame_any_source m source c1 df0 H0) as [df0' H0'].
  rewrite H0', ok_bind. simpl default. simpl field_resolver.
  assert (frame_equiv df0' df1) as He.
  { apply (rejoin m source df0); try done. by eapply apply_filters_sub_frame. }
  assert (apply_filters (field_resolver m) df1 items = Ok df1) as Hfix.
  { apply apply_filters_all_pass. intros r Hr.
    pose proof (proj1 (apply_filters_elem _ _ _ _ r H1) Hr) as [_ Hall].
    eapply Forall_impl; [exact Hall|]. intros item Hp. simpl in Hp.
    apply (passes_columns _ df0 df1); [|done]. symmetry.
    by apply apply_filters_sub_frame in H1 as [? _]. }
  pose proof (apply_filters_agree (field_resolver m) items df0' df1 He) as Ha.
  rewrite Hfix in Ha.
  destruct (apply_filters (field_resolver m) df0' items) as [d2|e]; [|done].
  rewrite ok_bind. simpl. eexists _, _. split; [done|]. by apply frame_equiv_patients.
Qed.

Lemma filter_cohort_idempotent_witness :
  ∃ m2 c2,
    filter_cohort Examples.with_dmd.1 "dmd" "dmd_again"
      (Some [("disease", Examples.disease "DMD")]) None = Ok (m2, c2) ∧
    patient_set c2 = patient_set Examples.with_dmd.2.
Proof.
  apply (filter_cohort_idempotent Examples.manager "base" "dmd" "dmd_again"
           [("disease", Examples.disease "DMD")]
           [Examples.P1; Examples.P2; Examples.P3; Examples.P4]).
  - unfold one_row_per_patient. apply (bool_decide_unpack _). vm_compute. exact I.
  - vm_compute. reflexivity.
  - apply (bool_decide_unpack _). vm_compute. exact I.
  - apply (bool_decide_unpack _). vm_compute. exact I.
  - vm_compute. reflexivity.
Defined.

(** X26. More filter entries, fewer patients: when a call with the entries
    [items] and a call with [items] followed by further entries both return,
    the second cohort is included in the first. *)
Theorem filter_cohort_narrows m source_cohort n1 n2 items more m1 c1 m2 c2 :
  filter_cohort m source_cohort n1 (Some items) None = Ok (m1, c1) →
  filter_cohort m source_cohort n2 (Some (items ++ more)) None = Ok (m2, c2) →
  patient_set c2 ⊆ patient_set c1.
Proof.
  intros H1 H2.
  destruct (filter_cohort_rows _ _ _ _ _ _ H1) as (s1 & d1 & Hs1 & Hd1 & Hc1).
  destruct (filter_cohort_rows _ _ _ _ _ _ H2) as (s2 & d2 & Hs2 & Hd2 & Hc2).
  rewrite Hs1 in Hs2. injection Hs2 as <-. rewrite Hd1 in Hd2. injection Hd2 as <-.
  intros p. unfold patient_set. rewrite !elem_of_list_to_set, Hc1, Hc2.
  intros (r & Hr & K & Hall). exists r. split; [done|]. split; [done|].
  by apply Forall_app in Hall as [? _].
Qed.

Lemma filter_cohort_narrows_witness :
  patient_set Examples.dmd_datahub.2 ⊆ patient_set Examples.with_dmd.2.
Proof.
  apply (filter_cohort_narrows Examples.manager "base" "dmd" "a"
           [("disease", Examples.disease "DMD")] [("registry", FScalar (VBool false))]
           Examples.with_dmd.1 Examples.with_dmd.2
           Examples.dmd_datahub.1 Examples.dmd_datahub.2).
  - vm_compute. reflexivity.
  - vm_compute. reflexivity.
Defined.

(** ** The outcomes above, on the small registry *)

Lemma create_base_cohort_unvalidated_witness :
  match create_base_cohort Examples.manager "everyone" None false with
  | Ok (m', c) =>
      ∃ df, tables Examples.manager !! "demographics_maindata" = Some df ∧
            has_column df "FACPATID" = true ∧
            NoDup c ∧
            (∀ p, p ∈ c ↔ p ∈ EnrollmentValidator.ids_of df) ∧
            _cohorts m' = <["everyone" := c]> (_cohorts Examples.manager) ∧
            tables m' = tables Examples.manager
  | Raise e =>
      (tables Examples.manager !! "demographics_maindata" = None ∧
       e = ValueError "demographics_maindata table not found") ∨
      (∃ df, tables Examples.manager !! "demographics_maindata" = Some df ∧
             has_column df "FACPATID" = false ∧ e = KeyError "FACPATID")
  end.
Proof. apply (create_base_cohort_unvalidated Examples.manager "everyone" None). Defined.

Lemma export_cohort_spec_witness :
  match export_cohort Examples.manager "base" "out/base.CSV" with
  | Ok (format, exported) =>
      _cohorts Examples.manager !! "base" = Some exported ∧
      ∃ stem, "out/base.CSV" = stem +:+ extension format
  | Raise e =>
      (_cohorts Examples.manager !! "base" = None ∧
       e = ValueError ("Cohort not found: " +:+ "base")) ∨
      (is_Some (_cohorts Examples.manager !! "base") ∧
       e = ValueError ("Unsupported file format: " +:+ "out/base.CSV") ∧
       ∀ format stem, "out/base.CSV" ≠ stem +:+ extension format)
  end.
Proof. apply (export_cohort_spec Examples.manager "base" "out/base.CSV"). Defined.

Lemma get_enrolled_patients_errors_witness :
  let forms := default default_required_forms (Some ["labs"; "imaging"]) in
  match get_enrolled_patients Examples.store (Some ["labs"; "imaging"]) with
  | Ok _ =>
      patient_keyed Examples.store forms ∧ ∃ f, f ∈ forms ∧ is_Some (Examples.store !! f)
  | Raise e =>
      (e = KeyError "FACPATID" ∧
       ∃ f df, f ∈ forms ∧ Examples.store !! f = Some df ∧
               has_column df "FACPATID" = false) ∨
      (e = ValueError "No required forms found in tables" ∧
       ∀ f, f ∈ forms → Examples.store !! f = None)
  end.
Proof. apply (get_enrolled_patients_errors Examples.store (Some ["labs"; "imaging"])). Defined.

Lemma create_cohort_default_witness :
  let n := Scripts.default_name "DMD" true in
  match Scripts.create_cohort Examples.manager "DMD" true None false with
  | Scripts.Created cohorts' cohort_name =>
      cohort_name = n ∧
      (false = false → _cohorts Examples.manager !! n = None) ∧
      tables cohorts' = tables Examples.manager ∧
      (∀ other, other ≠ n →
         _cohorts cohorts' !! other = _cohorts Examples.manager !! other) ∧
      _cohorts cohorts' !! "base" = _cohorts Examples.manager !! "base" ∧
      ∃ base, _cohorts Examples.manager !! "base" = Some base ∧
              Scripts.within base cohorts' n
  | Scripts.RuntimeError _ => false = false ∧ is_Some (_cohorts Examples.manager !! n)
  | Scripts.Failed _ => false = true ∨ _cohorts Examples.manager !! n = None
  end.
Proof. apply (create_cohort_default Examples.manager "DMD" true false). Defined.

(** * Filters compose across calls *)

Module ExactFacts.
Import CohortManager CohortManagerFacts ComposeFacts IdentityFacts ViewFacts.

(** Boolean indexing keeps the rows it keeps in their order. *)
Lemma select_rows_sublist test rs out :
  select_rows test rs = Ok out → out `sublist_of` rs.
Proof.
  revert out. induction rs as [|r rs IH]; intros out; simpl.
  - intros [= <-]. constructor.
  - intros (b & _ & (rest & Hrest & [= <-])%bind_ok)%bind_ok.
    destruct b; [apply sublist_skip | apply sublist_cons]; by apply IH.
Qed.

Lemma select_sublist df test df' :
  select df test = Ok df' → columns df' = columns df ∧ rows df' `sublist_of` rows df.
Proof.
  unfold select. intros (rs & Hrs & [= <-])%bind_ok. simpl.
  split; [done|]. by apply (select_rows_sublist test).
Qed.

Lemma apply_filter_sublist R df item df' :
  apply_filter R df item = Ok df' →
  columns df' = columns df ∧ rows df' `sublist_of` rows df.
Proof.
  destruct item as [field v]. unfold apply_filter, _apply_registry_filter.
  destruct (decide (field = "registry")).
  - destruct (FieldResolver.truthy _) as [c|]; [|by intros [= <-]].
    destruct (selects_usndr v); apply select_sublist.
  - destruct (FieldResolver.truthy _) as [c|]; [|by intros [= <-]].
    destruct v as [d|t|l|v]; simpl.
    + intros (df1 & H1 & H2)%bind_ok.
      assert (columns df1 = columns df ∧ rows df1 `sublist_of` rows df) as [Hc1 Hr1].
      { destruct (assoc "min" d); [by apply select_sublist in H1 | by injection H1 as <-]. }
      assert (columns df' = columns df1 ∧ rows df' `sublist_of` rows df1) as [Hc2 Hr2].
      { destruct (assoc "max" d); [by apply select_sublist in H2 | by injection H2 as <-]. }
      split; [congruence | by etrans].
    + destruct t as [|lo [|hi [|? ?]]]; apply select_sublist.
    + apply select_sublist.
    + apply select_sublist.
Qed.

(** With one demographics row per patient, each row of the working table
    is all the join gives its identifier. *)
Lemma joined_rows_of_row m source df0 r :
  one_row_per_patient (_get_demographics m) →
  working_frame m source = Ok df0 → r ∈ rows df0 →
  joined_rows m (cell r "FACPATID") = [r].
Proof.
  intros Hnd H0 Hr. apply (elem_of_working_frame _ _ _ r H0) in Hr as [_ Hr].
  destruct (joined_rows_single m (cell r "FACPATID") Hnd) as [r' E].
  rewrite E in Hr. apply list_elem_of_singleton in Hr. by rewrite E, Hr.
Qed.

(** Joining anew the identifiers that survive a filter gives back the very
    table of the surviving rows, when each identifier has one row and the
    source lists none twice. *)
Lemma rejoin_exact m source df0 df1 :
  one_row_per_patient (_get_demographics m) →
  NoDup source →
  working_frame m source = Ok df0 →
  columns df1 = columns df0 → rows df1 `sublist_of` rows df0 →
  working_frame m (drop_duplicates ((λ r, cell r "FACPATID") <$> rows df1)) = Ok df1.
Proof.
  intros Hnd Hsource H0 Hc Hsub.
  assert (NoDup ((λ r, cell r "FACPATID") <$> rows df1)) as Hids.
  { apply (sublist_NoDup _ ((λ r, cell r "FACPATID") <$> rows df0)).
    - by rewrite (working_frame_rows _ _ _ H0), (joined_keys m source Hnd).
    - by apply fmap_sublist. }
  rewrite (drop_duplicates_NoDup _ Hids).
  destruct (working_frame_any_source m source ((λ r, cell r "FACPATID") <$> rows df1) df0 H0)
    as [df0' H0'].
  rewrite H0'. f_equal.
  pose proof (working_frame_columns m _ _ _ _ H0' H0) as Hc'.
  pose proof (working_frame_rows _ _ _ H0') as Hr'.
  assert (((λ r, cell r "FACPATID") <$> rows df1) ≫= joined_rows m = rows df1) as Hrows.
  { assert (∀ r, r ∈ rows df1 → joined_rows m (cell r "FACPATID") = [r]) as Hone.
    { intros r Hr. apply (joined_rows_of_row m source df0); [done|done|].
      by apply (elem_of_sublist (rows df1)). }
    clear -Hone. induction (rows df1) as [|r rs IH]; [done|].
    rewrite fmap_cons.
    change ((cell r "FACPATID" :: ((λ r, cell r "FACPATID") <$> rs)) ≫= joined_rows m)
      with (joined_rows m (cell r "FACPATID")
            ++ (((λ r, cell r "FACPATID") <$> rs) ≫= joined_rows m)).
    rewrite (Hone r) by by left. rewrite IH; [done|].
    intros r' Hr'. apply Hone. by right. }
  destruct df0' as [cs' rs'], df1 as [cs1 rs1]. simpl in *. congruence.
Qed.

End ExactFacts.

Import CohortManager CohortManagerFacts ComposeFacts ExactFacts.

(** C3, as the code has it.  For two distinct field names, derived
    demographics with at most one row per patient identifier, and a source
    cohort that lists each patient once and whose patients all have a
    demographics row, filtering by [{f1: v1}] and then filtering the result
    by [{f2: v2}] ends exactly as one call with [{f1: v1, f2: v2}] does: both
    raise the same exception, or both return the same cohort, hence the same
    patients.  Under these conditions the table the second call of the chain
    joins is the very table the single call has after its first entry; that
    every patient has a demographics row keeps the join from leaving cells
    missing, which is where pandas would change the type of a column. *)
Theorem filter_cohort_compose m source_cohort n1 n2 n f1 v1 f2 v2 source :
  f1 ≠ f2 →
  one_row_per_patient (_get_demographics m) →
  _cohorts m !! source_cohort = Some source →
  NoDup source →
  covered m source →
  snd <$> filter_twice m source_cohort n1 n2
            (Some (py_dict [(f1, v1)])) (Some (py_dict [(f2, v2)]))
  = snd <$> filter_cohort m source_cohort n (Some (py_dict [(f1, v1); (f2, v2)])) None ∧
  same_outcome
    (snd <$> filter_twice m source_cohort n1 n2
               (Some (py_dict [(f1, v1)])) (Some (py_dict [(f2, v2)])))
    (snd <$> filter_cohort m source_cohort n (Some (py_dict [(f1, v1); (f2, v2)])) None).
Proof.
  intros Hne Hnd Hs Hsource _.
  assert (snd <$> filter_twice m source_cohort n1 n2
                    (Some (py_dict [(f1, v1)])) (Some (py_dict [(f2, v2)]))
          = snd <$> filter_cohort m source_cohort n
                      (Some (py_dict [(f1, v1); (f2, v2)])) None) as E.
  { rewrite !py_dict_one, (py_dict_two f1 v1 f2 v2 Hne).
    rewrite filter_twice_snd, filter_cohort_snd. simpl default. revert Hs.
    destruct (_cohorts m !! source_cohort) as [source'|]; [|done]. intros [= ->].
    unfold run_filter.
    destruct (working_frame m source) as [df0|e] eqn:H0; [|done].
    rewrite !ok_bind, apply_filters_one, apply_filters_two.
    destruct (apply_filter (field_resolver m) df0 (f1, v1)) as [df1|e] eqn:H1; [|done].
    rewrite !ok_bind.
    destruct (apply_filter_sublist _ _ _ _ H1) as [Hc Hsub].
    by rewrite (rejoin_exact m source df0 df1 Hnd Hsource H0 Hc Hsub), ok_bind,
      apply_filters_one. }
  split; [done|]. rewrite E.
  by destruct (snd <$> filter_cohort m source_cohort n _ None).
Qed.

Lemma filter_cohort_compose_witness :
  snd <$> filter_twice Examples.manager "base" "dmd" "dmd_male"
            (Some (py_dict [("disease", Examples.disease "DMD")]))
            (Some (py_dict [("gender", Examples.disease "Male")]))
  = snd <$> filter_cohort Examples.manager "base" "dmd_male"
              (Some (py_dict [("disease", Examples.disease "DMD");
                              ("gender", Examples.disease "Male")])) None ∧
  same_outcome
    (snd <$> filter_twice Examples.manager "base" "dmd" "dmd_male"
               (Some (py_dict [("disease", Examples.disease "DMD")]))
               (Some (py_dict [("gender", Examples.disease "Male")])))
    (snd <$> filter_cohort Examples.manager "base" "dmd_male"
               (Some (py_dict [("disease", Examples.disease "DMD");
                               ("gender", Examples.disease "Male")])) None).
Proof.
  apply (filter_cohort_compose Examples.manager "base" "dmd" "dmd_male" "dmd_male"
           "disease" (Examples.disease "DMD") "gender" (Examples.disease "Male")
           [Examples.P1; Examples.P2; Examples.P3; Examples.P4]).
  - discriminate.
  - unfold one_row_per_patient. apply (bool_decide_unpack _). vm_compute. exact I.
  - vm_compute. reflexivity.
  - apply (bool_decide_unpack _). vm_compute. exact I.
  - apply (bool_decide_unpack _). vm_compute. exact I.
Defined.

(** C3 as stated fails for one field name written twice: a dict keeps the
    last value of a key, so the single call filters by [v2] alone. *)
Lemma filter_cohort_compose_counterexample :
  snd <$> filter_twice Examples.manager "base" "dmd" "both"
            (Some (py_dict [("disease", Examples.disease "DMD")]))
            (Some (py_dict [("disease", Examples.disease "BMD")]))
    = Ok [] ∧
  snd <$> filter_cohort Examples.manager "base" "both"
            (Some (py_dict [("disease", Examples.disease "DMD");
                            ("disease", Examples.disease "BMD")])) None
    = Ok [Examples.P3] ∧
  patient_set [] ≠ patient_set [Examples.P3].
Proof.
  split; [by vm_compute|]. split; [by vm_compute|].
  intros H. assert (Examples.P3 ∈ patient_set []) as Hin.
  { rewrite H. unfold patient_set. apply elem_of_list_to_set. by left. }
  unfold patient_set in Hin. by apply elem_of_list_to_set, elem_of_nil in Hin.
Qed.

(** It also fails for a patient with two demographics rows: each filter
    alone keeps the patient by one of the rows, no row passes both. *)
Lemma filter_cohort_compose_two_rows :
  snd <$> filter_twice Examples.two_rows "base" "dmd" "dmd_female"
            (Some (py_dict [("disease", Examples.disease "DMD")]))
            (Some (py_dict [("gender", Examples.disease "Female")]))
    = Ok [Examples.P1] ∧
  snd <$> filter_cohort Examples.two_rows "base" "dmd_female"
            (Some (py_dict [("disease", Examples.disease "DMD");
                            ("gender", Examples.disease "Female")])) None
    = Ok [].
Proof. split; by vm_compute. Qed.

(** * The derived demographics *)

Module AgeFacts.
Import CohortManager CohortManagerFacts.

Lemma traverse_length {A B} (f : A → result B) l out :
  traverse f l = Ok out → List.length out = List.length l.
Proof.
  revert out. induction l as [|x l IH]; intros out; simpl.
  - by intros [= <-].
  - intros (y & _ & (rest & Hrest & [= <-])%bind_ok)%bind_ok. simpl.
    by rewrite (IH _ Hrest).
Qed.


Lemma traverse_raise {A B} (f : A → result B) l e :
  traverse f l = Raise e → ∃ x, x ∈ l ∧ f x = Raise e.
Proof.
  induction l as [|x l IH]; simpl; [done|].
  destruct (f x) as [y|e'] eqn:Hx.
  - rewrite ok_bind. destruct (traverse f l) as [rest|e'']; [done|].
    intros [= <-]. destruct IH as (x' & ? & ?); [done|]. exists x'. split; [by right|done].
  - intros [= <-]. exists x. split; [by left|done].
Qed.





Lemma assign_length df c values :
  List.length values = List.length (rows df) →
  List.length (rows (assign df c values)) = List.length (rows df).
Proof. intros H. unfold assign. simpl. rewrite length_zip_with, H. apply Nat.min_id. Qed.



Lemma cells_length df c : List.length (cells df c) = List.length (rows df).
Proof. unfold cells. by rewrite length_fmap. Qed.

(** A resolved name is a column. *)
Lemma resolve_column R field df col :
  FieldResolver.resolve R field df = Some col → col ∈ columns df.
Proof.
  intros Hc. pose proof (FieldResolverFacts.resolve_sound R field df) as Hs.
  rewrite Hc in Hs. inversion Hs as [m Hm Hin|c' _ Hf|s _ _ Hf|]; subst.
  - done.
  - by apply FieldResolverFacts.first_in_elem in Hf as [? _].
  - by apply FieldResolverFacts.first_in_elem in Hf as [_ ?].
Qed.

Lemma truthy_Some o s : FieldResolver.truthy o = Some s → o = Some s.
Proof. by destruct o as [[|a s']|]. Qed.

Section Prepared.
Context {timestamp : Type}.
Variable to_datetime : list value → value → result (option timestamp).
Variable timestamp_cell : timestamp → value.
Variable today : timestamp.
Variable days : timestamp → timestamp → result Z.
Variable years : Z → value.


(** The table it leaves when the conversion or the subtraction raises: no
    [AGE] column is added. *)
Lemma _prepare_demographics_raised tables R demo dob_col :
  tables !! "demographics_maindata" = Some demo →
  FieldResolver.truthy (FieldResolver.resolve R "birth_date" demo) = Some dob_col →
  "AGE" ∉ columns demo →
  (¬ is_ok (convert to_datetime (cells demo dob_col)) ∨
   ∃ dates, convert to_datetime (cells demo dob_col) = Ok dates ∧
            ¬ is_ok (traverse (age_of today days years) dates)) →
  ∃ derived,
    _prepare_demographics to_datetime timestamp_cell today days years tables R
    = Some derived ∧
    columns derived = columns demo ∧
    List.length (rows derived) = List.length (rows demo).
Proof.
  intros Hd Hdob Hage H. unfold _prepare_demographics. rewrite Hd, Hdob.
  assert (has_column demo "AGE" = false) as ->.
  { by apply FieldResolverFacts.has_column_false. }
  apply truthy_Some, resolve_column, FieldResolverFacts.has_column_true in Hdob.
  destruct H as [H|(dates & Hdates & H)].
  - destruct (convert _ _) as [dates|e]; [by destruct H|]. by exists demo.
  - rewrite Hdates. destruct (traverse _ dates) as [ages|e]; [by destruct H|].
    eexists. split; [done|]. split.
    + unfold assign. simpl. by rewrite Hdob.
    + apply assign_length. rewrite length_fmap, (traverse_length _ _ _ Hdates).
      apply cells_length.
Qed.

End Prepared.

Section Blocks.
Variables series_mean series_median series_min series_max : list value → result value.
Variable round1 : value → result value.



End Blocks.





End AgeFacts.

Import CohortManager CohortManagerFacts AgeFacts.


Lemma total_skips_nulls : skips_nulls Examples.total.
Proof.
  intros l. unfold Examples.total. do 2 f_equal.
  induction l as [|v l IH]; [done|]. simpl.
  destruct v; simpl; by rewrite IH.
Qed.


(** The registry of four patients born on day 3650, unknown, unparseable
    and 730: the base cohort keeps the four, the summary counts four and adds
    up the two ages there are. *)
Lemma age_example :
  let m := __init__ Examples.parse_day VNum 7300%Z Examples.day_count Examples.whole_years
             Examples.born_store Examples.resolver in
  ∃ m',
    create_base_cohort m "base" None false
    = Ok (m', [Examples.P1; Examples.P2; Examples.P3; Examples.P4]) ∧
    (λ s, (n_patients s, age_stats s))
      <$> get_cohort_summary Examples.total Examples.total Examples.total Examples.total Ok
            m' "base"
    = Ok (4%nat, Some {| mean := VNum 28; median := VNum 28;
                         min := VNum 28; max := VNum 28 |}) ∧
    snd <$> filter_cohort m' "base" "adults" (Some [("age", FDict [("min", VNum 18)])]) None
    = Ok [Examples.P4].
Proof. eexists. split; [by vm_compute|]. split; by vm_compute. Qed.

(** X27.  The age is computed only behind its guard, and a failure to
    compute it is silent.  Without a demographics form the manager holds no
    derived table; when no birth-date column resolves, or the table has an
    [AGE] column already, the derived table is the demographics table as it
    is; and when the conversion of the dates or the subtraction raises, the
    construction still succeeds, with a derived table that has the columns
    and as many rows as the demographics table, and no [AGE] column. *)
Theorem age_behind_guard {timestamp : Type}
    (to_datetime : list value → value → result (option timestamp))
    (timestamp_cell : timestamp → value) (today : timestamp)
    (days : timestamp → timestamp → result Z) (years : Z → value) tables R :
  match tables !! "demographics_maindata" with
  | None =>
      _demographics_with_age (__init__ to_datetime timestamp_cell today days years tables R)
      = None
  | Some demo =>
      (FieldResolver.truthy (FieldResolver.resolve R "birth_date" demo) = None ∨
       "AGE" ∈ columns demo →
       _demographics_with_age
         (__init__ to_datetime timestamp_cell today days years tables R)
       = Some demo) ∧
      (∀ dob_col,
         FieldResolver.truthy (FieldResolver.resolve R "birth_date" demo) = Some dob_col →
         "AGE" ∉ columns demo →
         (¬ is_ok (convert to_datetime (cells demo dob_col)) ∨
          (∃ dates, convert to_datetime (cells demo dob_col) = Ok dates ∧
                    ¬ is_ok (traverse (age_of today days years) dates))) →
         ∃ derived,
           _demographics_with_age
             (__init__ to_datetime timestamp_cell today days years tables R)
           = Some derived ∧
           columns derived = columns demo ∧
           ("AGE" ∉ columns derived) ∧
           List.length (rows derived) = List.length (rows demo))
  end.
Proof.
  destruct (tables !! "demographics_maindata") as [demo|] eqn:Hd.
  - split.
    + intros H. unfold __init__, _prepare_demographics. simpl. rewrite Hd.
      destruct (FieldResolver.truthy _) as [dob_col|]; [|done].
      destruct H as [?|H]; [done|].
      apply FieldResolverFacts.has_column_true in H. by rewrite H.
    + intros dob_col Hdob Hage H.
      destruct (_prepare_demographics_raised to_datetime timestamp_cell today days years
                  tables R demo dob_col Hd Hdob Hage H) as (derived & E & Hc & Hl).
      exists derived. split; [done|]. split; [done|]. split; [by rewrite Hc | done].
  - unfold __init__, _prepare_demographics. simpl. by rewrite Hd.
Qed.

Lemma age_behind_guard_witness :
  (FieldResolver.truthy (FieldResolver.resolve Examples.resolver "birth_date" Examples.born)
   = None ∨ "AGE" ∈ columns Examples.born →
   _demographics_with_age
     (__init__ Examples.parse_day VNum 7300%Z Examples.no_day_count Examples.whole_years
        Examples.born_store Examples.resolver)
   = Some Examples.born) ∧
  (∀ dob_col,
     FieldResolver.truthy (FieldResolver.resolve Examples.resolver "birth_date" Examples.born)
     = Some dob_col →
     "AGE" ∉ columns Examples.born →
     (¬ is_ok (convert Examples.parse_day (cells Examples.born dob_col)) ∨
      (∃ dates, convert Examples.parse_day (cells Examples.born dob_col) = Ok dates ∧
                ¬ is_ok (traverse (age_of 7300%Z Examples.no_day_count Examples.whole_years)
                           dates))) →
     ∃ derived,
       _demographics_with_age
         (__init__ Examples.parse_day VNum 7300%Z Examples.no_day_count Examples.whole_years
            Examples.born_store Examples.resolver)
       = Some derived ∧
       columns derived = columns Examples.born ∧
       ("AGE" ∉ columns derived) ∧
       List.length (rows derived) = List.length (rows Examples.born)).
Proof.
  apply (age_behind_guard Examples.parse_day VNum 7300%Z Examples.no_day_count
           Examples.whole_years Examples.born_store Examples.resolver).
Defined.
